(** * Minesweeter: the game model of [src/models/game.js]

    A shallow embedding of the state-transition core of the game: board
    generation ([restart]), the tween between two difficulties ([load]),
    tile reveal with flood fill ([uncoverTile]) and flag toggling
    ([flagTile]), followed by the properties of the specification that were
    checked against it and by further properties of the handlers.

    Conventions.
    - JavaScript numbers that hold counters, sizes and indexes are [Z].
      [bombOdds] is an exact rational; [Math_round] rounds halves up as
      [Math.round] does (floating-point error is not modelled).
    - Arrays are lists; reading an array out of range gives [None]
      ([undefined]), and reading a property of [undefined] is the
      [TypeError] of the [Result] type.
    - The handlers return an object that the caller merges into the game
      state; the model returns the merged state, and [None] where the
      handler returns nothing.
    - [lodash/shuffle] draws from a random source: the model threads the
      state of that source through every call.
    - The [while] loop of [uncoverTile] and the recursion of its flood fill
      are bounded by a fuel argument; [OutOfFuel] stands for a run that has
      not finished within the bound.
    - The generator [load] is given by what its caller receives when it
      runs it to its end: the yielded games in order, and how the run
      ended. *)

From Stdlib Require QArith Qround Lqa.
From stdpp Require Import base tactics option list list_numbers gmap strings.

Local Open Scope Z_scope.

(** ** Values ([./values]) *)

Module gameStates.
Inductive t := fresh | playing | beginningMove | restarting | gameOver | winner.
#[global] Instance eq_dec : EqDecision t.
Proof. solve_decision. Defined.
End gameStates.

Module tileBombStates.
Inductive t := blank | bomb.
#[global] Instance eq_dec : EqDecision t.
Proof. solve_decision. Defined.
End tileBombStates.

Module tileUserStates.
Inductive t := covered | open | flag | hitBomb.
#[global] Instance eq_dec : EqDecision t.
Proof. solve_decision. Defined.
End tileUserStates.

Record Tile := {
  bombState : tileBombStates.t;
  userState : tileUserStates.t
}.

#[global] Instance Tile_eq_dec : EqDecision Tile.
Proof. solve_decision. Defined.

Abbreviation Board := (list (list Tile)).
Abbreviation Proximities := (list (list Z)).

Module Settings.
Record t := {
  columns : Z;
  rows : Z;
  bombOdds : QArith_base.Q
}.
End Settings.

Record Props := {
  difficultyID : string;
  settings : option Settings.t
}.

(** The game state (the snapshot of the specification). [B] is what a
    board is to its holder: the grid itself where only its contents matter
    ([Game]), a reference into a store of arrays where the identity of the
    arrays matters (the module [store] below). *)
Record GameOf (B : Type) := {
  gameState : gameStates.t;
  columns : Z;
  rows : Z;
  board : B;
  proximities : Proximities;
  bombsCount : Z;
  uncoveredCount : Z;
  flagsCount : Z;
  movesCount : Z;
  startedAt : option Z;
  finishedAt : option Z
}.
Arguments gameState {B} _.
Arguments columns {B} _.
Arguments rows {B} _.
Arguments board {B} _.
Arguments proximities {B} _.
Arguments bombsCount {B} _.
Arguments uncoveredCount {B} _.
Arguments flagsCount {B} _.
Arguments movesCount {B} _.
Arguments startedAt {B} _.
Arguments finishedAt {B} _.

Abbreviation Game := (GameOf Board).

(** ** Results of fallible and unbounded code *)

Inductive Error :=
  | UnknownDifficulty (id : string)
  | TypeError.

Inductive Result (A : Type) :=
  | Ok (a : A)
  | Throw (e : Error)
  | OutOfFuel.
Arguments Ok {A} a.
Arguments Throw {A} e.
Arguments OutOfFuel {A}.

#[global] Instance Result_ret : MRet Result := λ A a, Ok a.
#[global] Instance Result_bind : MBind Result := λ A B f m,
  match m with
  | Ok a => f a
  | Throw e => Throw e
  | OutOfFuel => OutOfFuel
  end.

(** [array.forEach(body)] where the body updates the variables [S] it
    closes over and may throw. *)
Fixpoint forEach {A S : Type} (l : list A) (body : A → S → Result S) (s : S)
    : Result S :=
  match l with
  | [] => Ok s
  | x :: l' => s' ← body x s; forEach l' body s'
  end.

(** ** JavaScript and lodash primitives *)

(** [l[i]]: [None] is [undefined]. *)
Definition get {A : Type} (l : list A) (i : Z) : option A :=
  if decide (0 ≤ i) then l !! Z.to_nat i else None.

(** [l[i] = x] for an index that [get] finds.  The program writes only
    where it has just read an item; elsewhere (where JavaScript would extend
    the array or add a property) the list is left as it is. *)
Definition set {A : Type} (l : list A) (i : Z) (x : A) : list A :=
  if decide (0 ≤ i) then <[Z.to_nat i := x]> l else l.

(** [times(n, iteratee)] of lodash: the results of [iteratee 0 .. iteratee (n-1)],
    empty when [n < 1]. *)
Definition times {A : Type} (n : Z) (iteratee : Z → A) : list A :=
  iteratee <$> seqZ 0 n.

(** [Math.round]: the nearest integer, halves rounded up. *)
Definition Math_round (x : QArith_base.Q) : Z :=
  Qround.Qfloor (QArith_base.Qplus x (QArith_base.Qmake 1 2)).

(** [board[rowIndex][colIndex]], with [None] where JavaScript would read
    [undefined] or throw. *)
Definition tileAt (board : Board) (rowIndex colIndex : Z) : option Tile :=
  row ← get board rowIndex; get row colIndex.

(** [newBoard[rowIndex][colIndex] = item] *)
Definition setTile (board : Board) (rowIndex colIndex : Z) (item : Tile) : Board :=
  match get board rowIndex with
  | Some row => set board rowIndex (set row colIndex item)
  | None => board
  end.

(** ** Pure helpers of [game.js] *)

Definition copyBoard (board : Board) : Board :=
  (λ row, row) <$> board.

Definition changeItemToUncovered (item : Tile) : Tile :=
  if decide (bombState item = tileBombStates.bomb)
  then {| bombState := bombState item; userState := tileUserStates.hitBomb |}
  else {| bombState := bombState item; userState := tileUserStates.open |}.

Definition canPlayForGameState (gameState : gameStates.t) : bool :=
  bool_decide (gameState = gameStates.fresh)
  || bool_decide (gameState = gameStates.playing)
  || bool_decide (gameState = gameStates.beginningMove).

(** [proximity] is [None] when [proximities[rowIndex][colIndex]] is
    [undefined], which is not [=== 0]. *)
Definition canExpandTile (item : Tile) (proximity : option Z) : bool :=
  bool_decide (bombState item = tileBombStates.blank)
  && bool_decide (proximity = Some 0).

(** The body of the board construction of [restart] (lines 26-36): the
    tile at [rowIndex], [columnIndex] reads
    [shuffledBombs[rowIndex * rows + columnIndex]], and [undefined] is
    falsy. *)
Definition restartBoard (columns rows : Z) (shuffledBombs : list bool) : Board :=
  times rows (λ rowIndex,
    times columns (λ columnIndex,
      let hasBomb := default false (get shuffledBombs (rowIndex * rows + columnIndex)) in
      {| bombState := if hasBomb then tileBombStates.bomb else tileBombStates.blank;
         userState := tileUserStates.covered |})).

(** The tile that [restart] builds for a marker. *)
Definition markedTile (hasBomb : bool) : Tile :=
  {| bombState := if hasBomb then tileBombStates.bomb else tileBombStates.blank;
     userState := tileUserStates.covered |}.

(** The array handed to [shuffle] (line 23). *)
Definition unshuffledBombs (bombsCount tilesCount : Z) : list bool :=
  times bombsCount (λ _, true) ++ times (tilesCount - bombsCount) (λ _, false).

(** The variables that [uncoverInNewBoard] closes over and assigns. *)
Module uncover.
Record t (B : Type) := {
  newBoard : B;
  gameOver : bool;
  uncoveredCount : Z;
  flagsCount : Z
}.
Arguments newBoard {B} _.
Arguments gameOver {B} _.
Arguments uncoveredCount {B} _.
Arguments flagsCount {B} _.
End uncover.

(** [array.map(f)] where [f] receives the item and its index, and assigns
    the variables [S] it closes over; the items are visited in order. *)
Fixpoint mapIndexed {A B S : Type} (f : A → Z → S → B * S) (index : Z)
    (l : list A) (s : S) : list B * S :=
  match l with
  | [] => ([], s)
  | x :: l =>
    let '(y, s) := f x index s in
    let '(ys, s) := mapIndexed f (index + 1) l s in
    (y :: ys, s)
  end.

Definition changeBoardItem {S : Type} (board : Board) (rowIndex colIndex : Z)
    (changeItem : Tile → S → Tile * S) (s : S) : Board * S :=
  mapIndexed (λ row currentRowIndex s,
    mapIndexed (λ item currentColIndex s,
      if bool_decide (rowIndex = currentRowIndex)
         && bool_decide (colIndex = currentColIndex)
      then changeItem item s
      else (item, s)) 0 row s) 0 board s.

(** [flagTile]: the callback assigns [flagsCount] through [noticeChange];
    the returned [{ board, flagsCount }] is merged into the game. *)
Definition flagTile (rowIndex colIndex : Z) (game : Game) : Game :=
  let noticeChange (input : Tile) (changeBy : Z) (flagsCount : Z) :=
    (input, flagsCount + changeBy) in
  let '(newBoard, newFlagsCount) :=
    changeBoardItem (board game) rowIndex colIndex (λ item,
      if decide (userState item = tileUserStates.covered) then
        noticeChange {| bombState := bombState item;
                        userState := tileUserStates.flag |} 1
      else if decide (userState item = tileUserStates.flag) then
        noticeChange {| bombState := bombState item;
                        userState := tileUserStates.covered |} (-1)
      else λ flagsCount, (item, flagsCount)) (flagsCount game) in
  {| gameState := gameState game;
     columns := columns game; rows := rows game;
     board := newBoard;
     proximities := proximities game; bombsCount := bombsCount game;
     uncoveredCount := uncoveredCount game;
     flagsCount := newFlagsCount;
     movesCount := movesCount game; startedAt := startedAt game;
     finishedAt := finishedAt game |}.

(** ** Observations on boards *)

(** The number of tiles of a board that satisfy [P]. *)
Definition tilesWhere (P : Tile → Prop) `{!∀ t, Decision (P t)} (board : Board)
    : nat :=
  length (filter P (concat board)).

Definition countTiles (P : Tile → Prop) `{!∀ t, Decision (P t)} (board : Board) : Z :=
  Z.of_nat (tilesWhere P board).

Definition bombsOnBoard (board : Board) : Z :=
  countTiles (λ t, bombState t = tileBombStates.bomb) board.

Definition flagsOnBoard (board : Board) : Z :=
  countTiles (λ t, userState t = tileUserStates.flag) board.

Definition hasBomb (board : Board) (rowIndex colIndex : Z) : bool :=
  match tileAt board rowIndex colIndex with
  | Some item => bool_decide (bombState item = tileBombStates.bomb)
  | None => false
  end.

(** ** The module [./calculations] *)

Module calculations.

(** Modelled from the spec: [allDirections] of [./calculations], which is
    not among the sources; the specification speaks of the 8-directional
    neighbours of a cell. *)
Definition allDirections : list (Z → Z → Z * Z) :=
  [ (λ r c, (r - 1, c - 1)); (λ r c, (r - 1, c)); (λ r c, (r - 1, c + 1));
    (λ r c, (r, c - 1));                          (λ r c, (r, c + 1));
    (λ r c, (r + 1, c - 1)); (λ r c, (r + 1, c)); (λ r c, (r + 1, c + 1)) ].

(** Modelled from the spec: [countProximities] of [./calculations], which
    is not among the sources; for every cell, the count of the bomb-marked
    cells among its up-to-8 neighbours, whether or not the cell itself is a
    bomb. *)
Definition countProximities (board : Board) : Proximities :=
  imap (λ r row,
    imap (λ c (_ : Tile),
      Z.of_nat (length (filter
        (λ f : Z → Z → Z * Z,
           let '(r', c') := f (Z.of_nat r) (Z.of_nat c) in
           hasBomb board r' c' = true)
        allDirections))) row) board.

End calculations.

(** ** The game, over its external collaborators

    [difficulties] is the configuration table of [./values];
    [countProximities] and [allDirections] come from [./calculations];
    [shuffle] is [lodash/shuffle] reading and advancing a random source of
    type [Rng]. *)

(** Modelled from the spec: the table [difficulties] of [./values], which
    is not among the sources; the specification calls it a mapping from
    difficulty identifier to [{columns, rows, bombOdds}].  It is taken to
    be a plain object whose entries are the difficulties.  The read
    [difficulties[id]] on such an object finds the entry of the table for
    [id], and where the table has no such entry it finds, for the names
    below, the property that every object inherits from [Object.prototype]:
    a function or an object, which is truthy and has no [columns], [rows]
    or [bombOdds].  The code then goes on with dimensions that are
    [undefined] or [NaN], which the integers of this model do not
    represent.  The model reads the table as a finite map, and so covers
    the reads of an id that is an entry or is none of these names: what is
    stated of an id that the table lacks is stated of the ids that are not
    inherited names. *)
Definition inheritedNames : list string :=
  [ "constructor"; "hasOwnProperty"; "isPrototypeOf"; "propertyIsEnumerable";
    "toLocaleString"; "toString"; "valueOf"; "__proto__";
    "__defineGetter__"; "__defineSetter__";
    "__lookupGetter__"; "__lookupSetter__" ].

Section Game.

Context {Rng : Type}.
Variable difficulties : gmap string Settings.t.
Variable shuffle : list bool → Rng → list bool * Rng.
Variable countProximities : Board → Proximities.
Variable allDirections : list (Z → Z → Z * Z).

(** [settings || difficulties[difficultyID]] (lines 10-12), for a
    [difficultyID] that is an entry of the table or is not among the
    [inheritedNames]. *)
Definition settingsFor (props : Props) : option Settings.t :=
  match settings props with
  | Some settings => Some settings
  | None => difficulties !! difficultyID props
  end.

Definition restart (props : Props) (rng : Rng) : Result (Game * Rng) :=
  match settingsFor props with
  | None => Throw (UnknownDifficulty (difficultyID props))
  | Some settings =>
    let columns := Settings.columns settings in
    let rows := Settings.rows settings in
    let bombOdds := Settings.bombOdds settings in
    let tilesCount := columns * rows in
    let bombsCount :=
      Math_round (QArith_base.Qmult bombOdds (QArith_base.inject_Z tilesCount)) in
    let '(shuffledBombs, rng) := shuffle (unshuffledBombs bombsCount tilesCount) rng in
    let board := restartBoard columns rows shuffledBombs in
    let proximities := countProximities board in
    Ok ({| gameState := gameStates.fresh;
           columns := columns;
           rows := rows;
           board := board;
           proximities := proximities;
           bombsCount := bombsCount;
           uncoveredCount := 0;
           flagsCount := 0;
           movesCount := 0;
           startedAt := None;
           finishedAt := None |}, rng)
  end.

Definition initial := restart.

(** [beginRestart] returns [{ gameState: restarting }], merged into the game. *)
Definition beginRestart (game : Game) : Game :=
  {| gameState := gameStates.restarting;
     columns := columns game; rows := rows game; board := board game;
     proximities := proximities game; bombsCount := bombsCount game;
     uncoveredCount := uncoveredCount game; flagsCount := flagsCount game;
     movesCount := movesCount game; startedAt := startedAt game;
     finishedAt := finishedAt game |}.

(** [completeRestart] is [restart]; its object has no [finishedAt], so the
    merge keeps the one of the game before. *)
Definition completeRestart (props : Props) (rng : Rng) (game : Game)
    : Result (Game * Rng) :=
  '(newGame, rng) ← restart props rng;
  Ok ({| gameState := gameState newGame;
         columns := columns newGame; rows := rows newGame; board := board newGame;
         proximities := proximities newGame; bombsCount := bombsCount newGame;
         uncoveredCount := uncoveredCount newGame; flagsCount := flagsCount newGame;
         movesCount := movesCount newGame; startedAt := startedAt newGame;
         finishedAt := finishedAt game |}, rng).

(** [beginUncoverTile]: [None] is the [return] without a value. *)
Definition beginUncoverTile (now : Z) (game : Game) : option Game :=
  if negb (canPlayForGameState (gameState game)) then None
  else
    let startedAt :=
      if decide (gameState game = gameStates.fresh) then Some now
      else startedAt game in
    Some {| gameState := gameStates.beginningMove;
            columns := columns game; rows := rows game; board := board game;
            proximities := proximities game; bombsCount := bombsCount game;
            uncoveredCount := uncoveredCount game; flagsCount := flagsCount game;
            movesCount := movesCount game; startedAt := startedAt;
            finishedAt := finishedAt game |}.

(** Lines 142-144: the board and the proximities of a new [restart]. *)
Definition regenerated (props : Props) (rng : Rng)
    : Result (Board * Proximities * Rng) :=
  '(newState, rng) ← restart props rng;
  Ok (board newState, proximities newState, rng).

(** The loop of lines 141-145: while the targeted tile holds a bomb, the
    board and the proximities are replaced by those of a new [restart]. *)
Fixpoint whileStartsWithBomb (fuel : nat) (props : Props) (rowIndex colIndex : Z)
    (board : Board) (proximities : Proximities) (rng : Rng)
    : Result (Board * Proximities * Rng) :=
  match tileAt board rowIndex colIndex with
  | None => Throw TypeError
  | Some item =>
    if decide (bombState item = tileBombStates.bomb) then
      match fuel with
      | O => OutOfFuel
      | S fuel =>
        '(board, proximities, rng) ← regenerated props rng;
        whileStartsWithBomb fuel props rowIndex colIndex board proximities rng
      end
    else Ok (board, proximities, rng)
  end.

(** The board, the proximities and the random source after [n] passes of
    the loop body, whatever the loop condition: the loop returns the first
    of these whose targeted tile is free of a bomb. *)
Fixpoint regeneration (n : nat) (props : Props) (board : Board)
    (proximities : Proximities) (rng : Rng) : Result (Board * Proximities * Rng) :=
  match n with
  | O => Ok (board, proximities, rng)
  | S n =>
    '(board, proximities, rng) ← regenerated props rng;
    regeneration n props board proximities rng
  end.

(** Lines 162-174 past the [gameOver] test: the tile is open, the counters
    are adjusted. *)
Definition uncovered (vars : uncover.t Board) (rowIndex colIndex : Z) (prevItem : Tile)
    : uncover.t Board :=
  {| uncover.newBoard :=
       setTile (uncover.newBoard vars) rowIndex colIndex (changeItemToUncovered prevItem);
     uncover.gameOver := false;
     uncover.uncoveredCount := uncover.uncoveredCount vars + 1;
     uncover.flagsCount :=
       if decide (userState prevItem = tileUserStates.flag)
       then uncover.flagsCount vars - 1
       else uncover.flagsCount vars |}.

(** Lines 162-167 when the new item is [hitBomb]: the tile is written,
    [gameOver] is set, and the call returns. *)
Definition exploded (vars : uncover.t Board) (rowIndex colIndex : Z) (prevItem : Tile)
    : uncover.t Board :=
  {| uncover.newBoard :=
       setTile (uncover.newBoard vars) rowIndex colIndex (changeItemToUncovered prevItem);
     uncover.gameOver := true;
     uncover.uncoveredCount := uncover.uncoveredCount vars;
     uncover.flagsCount := uncover.flagsCount vars |}.

Fixpoint uncoverInNewBoard (fuel : nat) (proximities : Proximities) (rows columns : Z)
    (rowIndex colIndex : Z) (vars : uncover.t Board) : Result (uncover.t Board) :=
  match fuel with
  | O => OutOfFuel
  | S fuel =>
    if uncover.gameOver vars then Ok vars
    else
      match tileAt (uncover.newBoard vars) rowIndex colIndex, get proximities rowIndex with
      | Some prevItem, Some proximitiesRow =>
        let proximity := get proximitiesRow colIndex in
        if decide (userState prevItem = tileUserStates.open) then Ok vars
        else
          let newItem := changeItemToUncovered prevItem in
          if decide (userState newItem = tileUserStates.hitBomb)
          then Ok (exploded vars rowIndex colIndex prevItem)
          else
            let vars := uncovered vars rowIndex colIndex prevItem in
            if canExpandTile newItem proximity then
              forEach allDirections (λ f vars,
                let '(r, c) := f rowIndex colIndex in
                if bool_decide (r < rows) && bool_decide (0 ≤ r)
                   && bool_decide (c < columns) && bool_decide (0 ≤ c)
                then uncoverInNewBoard fuel proximities rows columns r c vars
                else Ok vars) vars
            else Ok vars
      | _, _ => Throw TypeError
      end
  end.

Definition uncoverTile (fuel : nat) (props : Props) (rowIndex colIndex : Z)
    (now : Z) (rng : Rng) (game : Game) : Result (option Game * Rng) :=
  if negb (canPlayForGameState (gameState game)) then Ok (None, rng)
  else
    '(board, proximities, rng) ←
      (if decide (movesCount game = 0)
       then whileStartsWithBomb fuel props rowIndex colIndex
              (board game) (proximities game) rng
       else Ok (board game, proximities game, rng));
    vars ← uncoverInNewBoard fuel proximities (rows game) (columns game)
      rowIndex colIndex
      {| uncover.newBoard := copyBoard board;
         uncover.gameOver := false;
         uncover.uncoveredCount := uncoveredCount game;
         uncover.flagsCount := flagsCount game |};
    let gameOver := uncover.gameOver vars in
    let won :=
      bool_decide (uncover.uncoveredCount vars + bombsCount game
                   = columns game * rows game) in
    let newGameState :=
      if gameOver then gameStates.gameOver
      else if won then gameStates.winner
      else gameStates.playing in
    Ok (Some {| gameState := newGameState;
                columns := columns game;
                rows := rows game;
                board := uncover.newBoard vars;
                proximities := proximities;
                bombsCount := bombsCount game;
                uncoveredCount := uncover.uncoveredCount vars;
                flagsCount := uncover.flagsCount vars;
                movesCount := movesCount game + 1;
                startedAt := startedAt game;
                finishedAt := if gameOver || won then Some now else None |},
        rng).

(** The games that the handlers produce, from the initial game on, the
    [props] being the same throughout. *)
Inductive reachable (props : Props) : Game → Prop :=
  | reachable_initial rng game rng' :
      initial props rng = Ok (game, rng') →
      reachable props game
  | reachable_beginRestart game :
      reachable props game →
      reachable props (beginRestart game)
  | reachable_completeRestart rng game game' rng' :
      reachable props game →
      completeRestart props rng game = Ok (game', rng') →
      reachable props game'
  | reachable_beginUncoverTile now game game' :
      reachable props game →
      beginUncoverTile now game = Some game' →
      reachable props game'
  | reachable_uncoverTile fuel rowIndex colIndex now rng game game' rng' :
      reachable props game →
      uncoverTile fuel props rowIndex colIndex now rng game = Ok (Some game', rng') →
      reachable props game'
  | reachable_flagTile rowIndex colIndex game :
      reachable props game →
      reachable props (flagTile rowIndex colIndex game).

(** The games that follow a game through [beginUncoverTile], [uncoverTile]
    and [flagTile], whatever their arguments, without a restart: what the
    caller holds after each call is the game with the returned object
    merged into it. *)
Inductive playedOn (game : Game) : Game → Prop :=
  | playedOn_here :
      playedOn game game
  | playedOn_beginUncoverTile now game' :
      playedOn game game' →
      playedOn game (default game' (beginUncoverTile now game'))
  | playedOn_uncoverTile fuel props rowIndex colIndex now rng game' returned rng' :
      playedOn game game' →
      uncoverTile fuel props rowIndex colIndex now rng game' = Ok (returned, rng') →
      playedOn game (default game' returned)
  | playedOn_flagTile rowIndex colIndex game' :
      playedOn game game' →
      playedOn game (flagTile rowIndex colIndex game').

End Game.

(** ** A scripted random source

    For worked examples: the state of the source counts the calls of
    [shuffle], and the n-th call rotates its input by n places (the first
    call, at state 0, leaves it as it is). *)
Definition rotations (l : list bool) (rng : nat) : list bool * nat :=
  (rotate rng l, S rng).

Definition settingsOf (columns rows : Z) (bombOdds : QArith_base.Q) : Props :=
  {| difficultyID := "";
     settings := Some {| Settings.columns := columns;
                         Settings.rows := rows;
                         Settings.bombOdds := bombOdds |} |}.

(** ** The board as objects in a store

    A JavaScript board is an array of row arrays of tile objects.
    [copyBoard] copies the outer array and every row array, not the tiles:
    the rows of the copy hold the tile objects of the rows they were sliced
    from.  [uncoverInNewBoard] assigns into a row array, and the tile it
    assigns is a new object, built by a spread expression.  To tell the
    objects that a call writes from the objects it was given, this model
    keeps every array and every tile in a store and names it by a
    reference; a board is the reference of its outer array. *)

Module store.

Abbreviation ref := positive.

Inductive Object :=
  | Rows (rows : list ref)
  | Row (items : list ref)
  | Item (item : Tile).

Abbreviation Store := (gmap ref Object).

(** A new object, at a reference that the store does not have. *)
Definition alloc (σ : Store) (object : Object) : ref * Store :=
  let l := fresh (dom σ) in (l, <[l := object]> σ).
Arguments alloc : simpl never.

Definition getRows (σ : Store) (board : ref) : option (list ref) :=
  match σ !! board with
  | Some (Rows rows) => Some rows
  | _ => None
  end.

Definition getRow (σ : Store) (row : ref) : option (list ref) :=
  match σ !! row with
  | Some (Row items) => Some items
  | _ => None
  end.

Definition getItem (σ : Store) (item : ref) : option Tile :=
  match σ !! item with
  | Some (Item tile) => Some tile
  | _ => None
  end.

(** [board[rowIndex][colIndex]], and the tile read through it. *)
Definition tileAt (σ : Store) (board : ref) (rowIndex colIndex : Z) : option Tile :=
  rows ← getRows σ board;
  row ← get rows rowIndex;
  items ← getRow σ row;
  item ← get items colIndex;
  getItem σ item.

(** [newBoard[rowIndex][colIndex] = item], after [tileAt] has found a tile
    there. *)
Definition setItem (σ : Store) (board : ref) (rowIndex colIndex : Z) (item : ref)
    : Store :=
  match getRows σ board with
  | Some rows =>
    match get rows rowIndex with
    | Some row =>
      match getRow σ row with
      | Some items => <[row := Row (set items colIndex item)]> σ
      | None => σ
      end
    | None => σ
    end
  | None => σ
  end.

(** The tiles that a row reference and a board reference stand for. *)
Definition readRow (σ : Store) (row : ref) : option (list Tile) :=
  items ← getRow σ row; mapM (getItem σ) items.

Definition contents (σ : Store) (board : ref) : option Board :=
  rows ← getRows σ board; mapM (readRow σ) rows.

(** [row.slice()]: a new array of the same tile objects. *)
Definition slice (σ : Store) (row : ref) : Result (ref * Store) :=
  match getRow σ row with
  | Some items => Ok (alloc σ (Row items))
  | None => Throw TypeError
  end.

(** [rows.map((row) => row.slice())], the rows in order. *)
Fixpoint mapSlice (σ : Store) (rows : list ref) : Result (list ref * Store) :=
  match rows with
  | [] => Ok ([], σ)
  | row :: rows =>
    '(row', σ) ← slice σ row;
    '(rows', σ) ← mapSlice σ rows;
    Ok (row' :: rows', σ)
  end.

Definition copyBoard (σ : Store) (board : ref) : Result (ref * Store) :=
  match getRows σ board with
  | Some rows =>
    '(rows', σ) ← mapSlice σ rows;
    Ok (alloc σ (Rows rows'))
  | None => Throw TypeError
  end.

(** The objects that [restart] builds for a grid: for every row its tiles
    and then the row, and then the outer array. *)
Fixpoint allocItems (σ : Store) (tiles : list Tile) : list ref * Store :=
  match tiles with
  | [] => ([], σ)
  | tile :: tiles =>
    let '(item, σ) := alloc σ (Item tile) in
    let '(items, σ) := allocItems σ tiles in
    (item :: items, σ)
  end.

Fixpoint allocRows (σ : Store) (grid : Board) : list ref * Store :=
  match grid with
  | [] => ([], σ)
  | tiles :: grid =>
    let '(items, σ) := allocItems σ tiles in
    let '(row, σ) := alloc σ (Row items) in
    let '(rows, σ) := allocRows σ grid in
    (row :: rows, σ)
  end.

Definition allocBoard (σ : Store) (grid : Board) : ref * Store :=
  let '(rows, σ) := allocRows σ grid in
  alloc σ (Rows rows).

Section Game.

Context {Rng : Type}.
Variable difficulties : gmap string Settings.t.
Variable shuffle : list bool → Rng → list bool * Rng.
Variable countProximities : Board → Proximities.
Variable allDirections : list (Z → Z → Z * Z).

(** [restart] builds its board out of new objects. *)
Definition restart (props : Props) (rng : Rng) (σ : Store)
    : Result (GameOf ref * Rng * Store) :=
  '(game, rng) ← restart difficulties shuffle countProximities props rng;
  let '(newBoard, σ) := allocBoard σ (board game) in
  Ok ({| gameState := gameState game;
         columns := columns game; rows := rows game;
         board := newBoard;
         proximities := proximities game; bombsCount := bombsCount game;
         uncoveredCount := uncoveredCount game; flagsCount := flagsCount game;
         movesCount := movesCount game; startedAt := startedAt game;
         finishedAt := finishedAt game |}, rng, σ).

(** Lines 142-144. *)
Definition regenerated (props : Props) (rng : Rng) (σ : Store)
    : Result (ref * Proximities * Rng * Store) :=
  '(newState, rng, σ) ← restart props rng σ;
  Ok (board newState, proximities newState, rng, σ).

Fixpoint whileStartsWithBomb (fuel : nat) (props : Props) (rowIndex colIndex : Z)
    (board : ref) (proximities : Proximities) (rng : Rng) (σ : Store)
    : Result (ref * Proximities * Rng * Store) :=
  match tileAt σ board rowIndex colIndex with
  | None => Throw TypeError
  | Some item =>
    if decide (bombState item = tileBombStates.bomb) then
      match fuel with
      | O => OutOfFuel
      | S fuel =>
        '(board, proximities, rng, σ) ← regenerated props rng σ;
        whileStartsWithBomb fuel props rowIndex colIndex board proximities rng σ
      end
    else Ok (board, proximities, rng, σ)
  end.

(** [prevItem] is the tile read through [newBoard[rowIndex][colIndex]];
    [newItem] is the reference of the object that [changeItemToUncovered]
    builds. *)
Fixpoint uncoverInNewBoard (fuel : nat) (proximities : Proximities)
    (rows columns : Z) (rowIndex colIndex : Z) (vars : uncover.t ref) (σ : Store)
    : Result (uncover.t ref * Store) :=
  match fuel with
  | O => OutOfFuel
  | S fuel =>
    if uncover.gameOver vars then Ok (vars, σ)
    else
      match tileAt σ (uncover.newBoard vars) rowIndex colIndex,
            get proximities rowIndex with
      | Some prevItem, Some proximitiesRow =>
        let proximity := get proximitiesRow colIndex in
        if decide (userState prevItem = tileUserStates.open) then Ok (vars, σ)
        else
          let '(newItem, σ) := alloc σ (Item (changeItemToUncovered prevItem)) in
          let σ := setItem σ (uncover.newBoard vars) rowIndex colIndex newItem in
          if decide (userState (changeItemToUncovered prevItem)
                     = tileUserStates.hitBomb)
          then Ok ({| uncover.newBoard := uncover.newBoard vars;
                      uncover.gameOver := true;
                      uncover.uncoveredCount := uncover.uncoveredCount vars;
                      uncover.flagsCount := uncover.flagsCount vars |}, σ)
          else
            let vars :=
              {| uncover.newBoard := uncover.newBoard vars;
                 uncover.gameOver := false;
                 uncover.uncoveredCount := uncover.uncoveredCount vars + 1;
                 uncover.flagsCount :=
                   if decide (userState prevItem = tileUserStates.flag)
                   then uncover.flagsCount vars - 1
                   else uncover.flagsCount vars |} in
            if canExpandTile (changeItemToUncovered prevItem) proximity then
              forEach allDirections (λ f '(vars, σ),
                let '(r, c) := f rowIndex colIndex in
                if bool_decide (r < rows) && bool_decide (0 ≤ r)
                   && bool_decide (c < columns) && bool_decide (0 ≤ c)
                then uncoverInNewBoard fuel proximities rows columns r c vars σ
                else Ok (vars, σ)) (vars, σ)
            else Ok (vars, σ)
      | _, _ => Throw TypeError
      end
  end.

Definition uncoverTile (fuel : nat) (props : Props) (rowIndex colIndex : Z)
    (now : Z) (rng : Rng) (game : GameOf ref) (σ : Store)
    : Result (option (GameOf ref) * Rng * Store) :=
  if negb (canPlayForGameState (gameState game)) then Ok (None, rng, σ)
  else
    '(board, proximities, rng, σ) ←
      (if decide (movesCount game = 0)
       then whileStartsWithBomb fuel props rowIndex colIndex
              (board game) (proximities game) rng σ
       else Ok (board game, proximities game, rng, σ));
    '(newBoard, σ) ← copyBoard σ board;
    '(vars, σ) ← uncoverInNewBoard fuel proximities (rows game) (columns game)
      rowIndex colIndex
      {| uncover.newBoard := newBoard;
         uncover.gameOver := false;
         uncover.uncoveredCount := uncoveredCount game;
         uncover.flagsCount := flagsCount game |} σ;
    let gameOver := uncover.gameOver vars in
    let won :=
      bool_decide (uncover.uncoveredCount vars + bombsCount game
                   = columns game * rows game) in
    let newGameState :=
      if gameOver then gameStates.gameOver
      else if won then gameStates.winner
      else gameStates.playing in
    Ok (Some {| gameState := newGameState;
                columns := columns game;
                rows := rows game;
                board := uncover.newBoard vars;
                proximities := proximities;
                bombsCount := bombsCount game;
                uncoveredCount := uncover.uncoveredCount vars;
                flagsCount := uncover.flagsCount vars;
                movesCount := movesCount game + 1;
                startedAt := startedAt game;
                finishedAt := if gameOver || won then Some now else None |},
        rng, σ).

End Game.

(** The board [board] is an outer array of distinct rows that read as the
    rows of [grid]. *)
Definition represents (σ : Store) (board : ref) (grid : Board) : Prop :=
  ∃ rows, getRows σ board = Some rows
    ∧ NoDup rows
    ∧ Forall2 (λ row tiles, readRow σ row = Some tiles) rows grid.

(** The game with another board in its place. *)
Definition withBoard {A B : Type} (game : GameOf A) (newBoard : B) : GameOf B :=
  {| gameState := gameState game;
     columns := columns game; rows := rows game;
     board := newBoard;
     proximities := proximities game; bombsCount := bombsCount game;
     uncoveredCount := uncoveredCount game; flagsCount := flagsCount game;
     movesCount := movesCount game; startedAt := startedAt game;
     finishedAt := finishedAt game |}.

(** The variables of the flood fill over the store and over a grid agree:
    [newBoard] reads as the grid, the flag and the counters are equal. *)
Definition sameVars (inStore : uncover.t ref * Store) (onGrid : uncover.t Board)
    : Prop :=
  represents inStore.2 (uncover.newBoard inStore.1) (uncover.newBoard onGrid)
  ∧ uncover.gameOver inStore.1 = uncover.gameOver onGrid
  ∧ uncover.uncoveredCount inStore.1 = uncover.uncoveredCount onGrid
  ∧ uncover.flagsCount inStore.1 = uncover.flagsCount onGrid.

(** Two runs end the same way, with results that [R] relates. *)
Inductive sameOutcome {A B : Type} (R : A → B → Prop) : Result A → Result B → Prop :=
  | sameOk a b : R a b → sameOutcome R (Ok a) (Ok b)
  | sameThrow e : sameOutcome R (Throw e) (Throw e)
  | sameOutOfFuel : sameOutcome R OutOfFuel OutOfFuel.

(** Every object of [σ] is in [σ'], as it was. *)
Definition preserved (σ σ' : Store) : Prop :=
  ∀ l, l ∈ dom σ → σ' !! l = σ !! l.

(** The reference [board] is an outer array of the same rows in [σ'] as
    in [σ], and an object of [σ] that is none of these rows is the same in
    both. *)
Definition within (board : ref) (σ σ' : Store) : Prop :=
  getRows σ' board = getRows σ board
  ∧ ∀ l, l ∈ dom σ →
      (∀ rows, getRows σ board = Some rows → l ∉ rows) →
      σ' !! l = σ !! l.

(** From the variables and the store before a call of the flood fill to
    those after it: [newBoard] is the same reference, and the stores differ
    within its rows and by new objects. *)
Definition flooded (before after : uncover.t ref * Store) : Prop :=
  uncover.newBoard after.1 = uncover.newBoard before.1
  ∧ within (uncover.newBoard before.1) before.2 after.2.

End store.

(** What the caller holds after a handler has returned: the game with the
    returned object merged into it, the game as it was where the handler
    returned nothing. *)
Definition merged {B : Type} (game : GameOf B) (returned : option (GameOf B))
    : GameOf B :=
  default game returned.

(** ** Predicates of the specification *)

Definition playable {B : Type} (game : GameOf B) : Prop :=
  canPlayForGameState (gameState game) = true.

Definition inBounds (rows columns rowIndex colIndex : Z) : Prop :=
  0 ≤ rowIndex < rows ∧ 0 ≤ colIndex < columns.

(** A grid of [rows] rows of [columns] cells each. *)
Definition wellShaped {A : Type} (rows columns : Z) (grid : list (list A)) : Prop :=
  length grid = Z.to_nat rows
  ∧ Forall (λ row, length row = Z.to_nat columns) grid.

Definition proximityAt (proximities : Proximities) (rowIndex colIndex : Z)
    : option Z :=
  row ← get proximities rowIndex; get row colIndex.

(** [(r', c')] is one of the eight neighbours of [(r, c)]. *)
Definition adjacent (r c r' c' : Z) : Prop :=
  r - 1 ≤ r' ≤ r + 1 ∧ c - 1 ≤ c' ≤ c + 1 ∧ (r', c') ≠ (r, c).

(** The proximity grid is consistent with the board: a proximity of 0 at
    a cell implies that none of its in-bounds neighbours holds a bomb. *)
Definition consistent (rows columns : Z) (board : Board)
    (proximities : Proximities) : Prop :=
  ∀ r c, inBounds rows columns r c →
    proximityAt proximities r c = Some 0 →
    ∀ r' c', adjacent r c r' c' → inBounds rows columns r' c' →
      hasBomb board r' c' = false.

(** Every direction leads to a neighbour. *)
Definition neighbourly (allDirections : list (Z → Z → Z * Z)) : Prop :=
  ∀ f, f ∈ allDirections → ∀ r c, adjacent r c (f r c).1 (f r c).2.

(** The board and the proximities are grids of [rows] by [columns], and
    the proximities are consistent with the board. *)
Definition wellFormed (rows columns : Z) (board : Board)
    (proximities : Proximities) : Prop :=
  wellShaped rows columns board
  ∧ wellShaped rows columns proximities
  ∧ consistent rows columns board proximities.

Definition allCovered (board : Board) : Prop :=
  ∀ r c item, tileAt board r c = Some item →
    userState item = tileUserStates.covered.

(** Open tiles hold no bomb, and [hitBomb] tiles hold one. *)
Definition uncoveredRight (board : Board) : Prop :=
  ∀ r c item, tileAt board r c = Some item →
    (userState item = tileUserStates.open → bombState item = tileBombStates.blank)
    ∧ (userState item = tileUserStates.hitBomb →
       bombState item = tileBombStates.bomb).

(** Some tile of the board is in the state [hitBomb]. *)
Definition someHitBomb (board : Board) : Prop :=
  ∃ r c item, tileAt board r c = Some item
    ∧ userState item = tileUserStates.hitBomb.

(** The reveal at [rowIndex], [colIndex] comes upon a bomb: the game has
    had its first move, so the board is not regenerated, and the targeted
    tile holds a bomb and is not open. *)
Definition hitsBomb (game : Game) (rowIndex colIndex : Z) : Prop :=
  movesCount game ≠ 0
  ∧ ∃ item, tileAt (board game) rowIndex colIndex = Some item
      ∧ bombState item = tileBombStates.bomb
      ∧ userState item ≠ tileUserStates.open.

(** What holds of every game the handlers produce for settings of [rows]
    by [columns]. *)
Definition invariant (rows0 columns0 : Z) (game : Game) : Prop :=
  rows game = rows0
  ∧ columns game = columns0
  ∧ wellFormed rows0 columns0 (board game) (proximities game)
  ∧ uncoveredRight (board game)
  ∧ (playable game → ¬ someHitBomb (board game)).

Definition opensOnBoard (board : Board) : Z :=
  countTiles (λ t, userState t = tileUserStates.open) board.

(** What holds of the counters of every game the handlers produce, on
    boards of as many columns as rows: [bombsCount] is the number of bombs
    on the board, [uncoveredCount] the number of open tiles, and no tile is
    open before the first move. *)
Definition counted (game : Game) : Prop :=
  0 ≤ movesCount game
  ∧ uncoveredCount game = opensOnBoard (board game)
  ∧ (movesCount game = 0 → opensOnBoard (board game) = 0)
  ∧ bombsOnBoard (board game) = bombsCount game.

(** From [before] to [after], a tile is either left as it is or was a
    bomb-free tile not yet open and is now open. *)
Definition opened (before after : Board) : Prop :=
  ∀ r c,
    tileAt after r c = tileAt before r c
    ∨ ∃ item, tileAt before r c = Some item
        ∧ bombState item = tileBombStates.blank
        ∧ userState item ≠ tileUserStates.open
        ∧ tileAt after r c = Some {| bombState := tileBombStates.blank;
                                     userState := tileUserStates.open |}.

(** The tiles of a board that are not open. *)
Definition closedTiles (board : Board) : nat :=
  tilesWhere (λ t, userState t ≠ tileUserStates.open) board.

(** ** Worked examples *)

(** A board of 3 rows and 3 columns with one bomb, in the top left corner. *)
Definition example3x3 : Board :=
  restartBoard 3 3 (true :: replicate 8 false).

Definition example3x3_vars : uncover.t Board :=
  {| uncover.newBoard := example3x3;
     uncover.gameOver := false;
     uncover.uncoveredCount := 0;
     uncover.flagsCount := 0 |}.

(** The variables after [uncoverInNewBoard(2, 2)] on that board. *)
Definition example3x3_flooded : uncover.t Board :=
  Eval vm_compute in
    match uncoverInNewBoard calculations.allDirections 20
            (calculations.countProximities example3x3) 3 3 2 2 example3x3_vars with
    | Ok vars => vars
    | _ => example3x3_vars
    end.

(** The game that [restart] builds for 2 columns, 2 rows and [bombOdds]
    1/4 when the shuffle leaves the markers as they are: one bomb, in the
    top left corner. *)
Definition example2x2 : Game :=
  {| gameState := gameStates.fresh;
     columns := 2;
     rows := 2;
     board :=
       [ [ {| bombState := tileBombStates.bomb; userState := tileUserStates.covered |};
           {| bombState := tileBombStates.blank; userState := tileUserStates.covered |} ];
         [ {| bombState := tileBombStates.blank; userState := tileUserStates.covered |};
           {| bombState := tileBombStates.blank; userState := tileUserStates.covered |} ] ];
     proximities := [ [0; 1]; [1; 1] ];
     bombsCount := 1;
     uncoveredCount := 0;
     flagsCount := 0;
     movesCount := 0;
     startedAt := None;
     finishedAt := None |}.

Definition example2x2_props : Props := settingsOf 2 2 (QArith_base.Qmake 1 4).

(** That game after [uncoverTile] at row 1, column 1. *)
Definition example2x2_moved : Game :=
  {| gameState := gameStates.playing;
     columns := 2;
     rows := 2;
     board :=
       [ [ {| bombState := tileBombStates.bomb; userState := tileUserStates.covered |};
           {| bombState := tileBombStates.blank; userState := tileUserStates.covered |} ];
         [ {| bombState := tileBombStates.blank; userState := tileUserStates.covered |};
           {| bombState := tileBombStates.blank; userState := tileUserStates.open |} ] ];
     proximities := [ [0; 1]; [1; 1] ];
     bombsCount := 1;
     uncoveredCount := 1;
     flagsCount := 0;
     movesCount := 1;
     startedAt := None;
     finishedAt := None |}.

(** The board of [example2x2] as objects in a store that holds nothing
    else, the game that holds it, and the outcome of [uncoverTile] at row 1,
    column 1 on them. *)
Definition exampleStore : store.ref * store.Store :=
  store.allocBoard ∅ (board example2x2).

Definition exampleStore_game : GameOf store.ref :=
  {| gameState := gameState example2x2;
     columns := columns example2x2; rows := rows example2x2;
     board := exampleStore.1;
     proximities := proximities example2x2; bombsCount := bombsCount example2x2;
     uncoveredCount := uncoveredCount example2x2;
     flagsCount := flagsCount example2x2;
     movesCount := movesCount example2x2; startedAt := startedAt example2x2;
     finishedAt := finishedAt example2x2 |}.

Definition exampleStore_moved : option (GameOf store.ref) * nat * store.Store :=
  match store.uncoverTile ∅ rotations calculations.countProximities
          calculations.allDirections 5 example2x2_props 1 1 0 1%nat
          exampleStore_game exampleStore.2 with
  | Ok outcome => outcome
  | _ => (None, 0%nat, ∅)
  end.

(** ** Generators

    A generator function is run by its caller, which takes the yielded
    values one by one.  The model gives what a caller that runs the
    generator to its end has received: the yielded values in order, and how
    the run ended. *)

(** A loop that yields [body(x)] for every value [x] of its variable, in
    the order of [l], where the body draws from the state [S] and may
    throw: what was yielded before a throw stays yielded. *)
Fixpoint yieldEach {A Y S : Type} (l : list A) (body : A → S → Result (Y * S))
    (s : S) : list Y * Result S :=
  match l with
  | [] => ([], Ok s)
  | x :: l =>
    match body x s with
    | Ok (y, s) =>
      let '(ys, ended) := yieldEach l body s in (y :: ys, ended)
    | Throw e => ([], Throw e)
    | OutOfFuel => ([], OutOfFuel)
    end
  end.

(** ** The tween between two difficulties ([load], lines 56-80) *)

(** [prevSettings.columns + Math.round((nextSettings.columns -
    prevSettings.columns) * f)] (line 63); either settings being
    [undefined], reading its [columns] is a [TypeError]. *)
Definition columnsForFraction (prevSettings nextSettings : option Settings.t)
    (f : QArith_base.Q) : Result Z :=
  match prevSettings, nextSettings with
  | Some prevSettings, Some nextSettings =>
    Ok (Settings.columns prevSettings
        + Math_round (QArith_base.Qmult
            (QArith_base.inject_Z
               (Settings.columns nextSettings - Settings.columns prevSettings)) f))
  | _, _ => Throw TypeError
  end.

(** Line 64. *)
Definition rowsForFraction (prevSettings nextSettings : option Settings.t)
    (f : QArith_base.Q) : Result Z :=
  match prevSettings, nextSettings with
  | Some prevSettings, Some nextSettings =>
    Ok (Settings.rows prevSettings
        + Math_round (QArith_base.Qmult
            (QArith_base.inject_Z
               (Settings.rows nextSettings - Settings.rows prevSettings)) f))
  | _, _ => Throw TypeError
  end.

Definition totalFrames : Z := 12.

Section Loading.

Context {Rng : Type}.
Variable difficulties : gmap string Settings.t.
Variable shuffle : list bool → Rng → list bool * Rng.
Variable countProximities : Board → Proximities.

(** The body of the loop of lines 68-76: the props of a frame are
    [{ settings: { ...nextSettings, columns, rows } }], of which [restart]
    reads [columns], [rows] and [bombOdds]; they have no [difficultyID],
    which [restart] does not read when there are settings. *)
Definition tweenFrame (prevSettings nextSettings : option Settings.t)
    (frame : Z) (rng : Rng) : Result (Game * Rng) :=
  let f := QArith_base.Qdiv (QArith_base.inject_Z frame)
             (QArith_base.inject_Z totalFrames) in
  frameColumns ← columnsForFraction prevSettings nextSettings f;
  frameRows ← rowsForFraction prevSettings nextSettings f;
  match nextSettings with
  | Some nextSettings =>
    restart difficulties shuffle countProximities
      (settingsOf frameColumns frameRows (Settings.bombOdds nextSettings)) rng
  | None => Throw TypeError
  end.

(** [load(next, prev)]: [prev] is [None] where the caller passes no
    previous props.  The yielded values are the games that the caller takes
    as the state, one after the other.  The two reads of the table are
    those of ids that are entries of the table or are not among the
    [inheritedNames]. *)
Definition load (next : Props) (prev : option Props) (rng : Rng)
    : list Game * Result Rng :=
  match prev with
  | Some prev =>
    if decide (difficultyID prev ≠ difficultyID next) then
      let prevSettings := difficulties !! difficultyID prev in
      let nextSettings := difficulties !! difficultyID next in
      let '(frames, ended) :=
        yieldEach (seqZ 0 totalFrames) (tweenFrame prevSettings nextSettings) rng in
      match ended with
      | Ok rng =>
        match restart difficulties shuffle countProximities next rng with
        | Ok (game, rng) => (frames ++ [game], Ok rng)
        | Throw e => (frames, Throw e)
        | OutOfFuel => (frames, OutOfFuel)
        end
      | Throw e => (frames, Throw e)
      | OutOfFuel => (frames, OutOfFuel)
      end
    else ([], Ok rng)
  | None => ([], Ok rng)
  end.

End Loading.

(** Two difficulties for worked examples of [load]. *)
Definition exampleDifficulties : gmap string Settings.t :=
  {[ "small" := {| Settings.columns := 2; Settings.rows := 2;
                   Settings.bombOdds := QArith_base.Qmake 1 4 |};
     "large" := {| Settings.columns := 8; Settings.rows := 5;
                   Settings.bombOdds := QArith_base.Qmake 1 4 |} ]}.

(** Around every open tile of proximity 0 that is not [pending], the
    tiles that [allDirections] leads to within the board are open. *)
Definition expanded (allDirections : list (Z → Z → Z * Z)) (rows columns : Z)
    (proximities : Proximities) (pending : Z * Z → Prop) (board : Board) : Prop :=
  ∀ r c item,
    tileAt board r c = Some item →
    userState item = tileUserStates.open →
    proximityAt proximities r c = Some 0 →
    ¬ pending (r, c) →
    ∀ f, f ∈ allDirections →
      inBounds rows columns (f r c).1 (f r c).2 →
      ∃ item', tileAt board (f r c).1 (f r c).2 = Some item'
        ∧ userState item' = tileUserStates.open.

(** Every tile of the board holds a bomb. *)
Definition allBombs (board : Board) : Prop :=
  ∀ r c item, tileAt board r c = Some item →
    bombState item = tileBombStates.bomb.

(** The game of [example2x2] after the reveals at row 1, column 1 and at
    row 0, column 1, then after the reveal at row 1, column 0, which
    wins it. *)
Definition example2x2_second : Game :=
  Eval vm_compute in
    match uncoverTile ∅ rotations calculations.countProximities
            calculations.allDirections 5 example2x2_props 0 1 0 1%nat
            example2x2_moved with
    | Ok (Some game, _) => game
    | _ => example2x2_moved
    end.

Definition example2x2_won : Game :=
  Eval vm_compute in
    match uncoverTile ∅ rotations calculations.countProximities
            calculations.allDirections 5 example2x2_props 1 0 0 1%nat
            example2x2_second with
    | Ok (Some game, _) => game
    | _ => example2x2_second
    end.

(** The game of [example2x2_moved] after the reveal at row 0, column 0,
    where the bomb is: lost. *)
Definition example2x2_lost : Game :=
  Eval vm_compute in
    match uncoverTile ∅ rotations calculations.countProximities
            calculations.allDirections 5 example2x2_props 0 0 0 1%nat
            example2x2_moved with
    | Ok (Some game, _) => game
    | _ => example2x2_moved
    end.

(** A game of 3 rows and 3 columns with one bomb, in the top left corner,
    and that game after the reveal at row 2, column 2, which floods the
    board. *)
Definition example3x3_props : Props := settingsOf 3 3 (QArith_base.Qmake 1 9).

Definition example3x3_game : Game :=
  Eval vm_compute in
    match restart ∅ rotations calculations.countProximities example3x3_props
            0%nat with
    | Ok (game, _) => game
    | _ => example2x2
    end.

Definition example3x3_revealed : Game :=
  Eval vm_compute in
    match uncoverTile ∅ rotations calculations.countProximities
            calculations.allDirections 20 example3x3_props 2 2 0 1%nat
            example3x3_game with
    | Ok (Some game, _) => game
    | _ => example3x3_game
    end.

(** A game of 2 rows and 2 columns for [bombOdds] 1. *)
Definition exampleAllBombs_props : Props := settingsOf 2 2 (QArith_base.Qmake 1 1).

Definition exampleAllBombs : Game :=
  Eval vm_compute in
    match restart ∅ rotations calculations.countProximities exampleAllBombs_props
            0%nat with
    | Ok (game, _) => game
    | _ => example2x2
    end.

(** * Properties *)

(** ** Arrays *)

Lemma rotations_Permutation (l : list bool) (rng : nat) :
  (rotations l rng).1 ≡ₚ l.
Proof.
  unfold rotations, rotate; simpl.
  by rewrite Permutation_app_comm, take_drop.
Qed.

Lemma unshuffledBombs_all_bombs (n : Z) :
  unshuffledBombs n n = replicate (Z.to_nat n) true.
Proof.
  unfold unshuffledBombs, times.
  rewrite Z.sub_diag, (seqZ_nil 0 0), app_nil_r by lia.
  apply list_eq; intros i.
  rewrite list_lookup_fmap.
  destruct (decide (Z.of_nat i < n)) as [Hi|Hi].
  - rewrite lookup_seqZ_lt, lookup_replicate_2 by lia. done.
  - rewrite lookup_seqZ_ge by lia. symmetry.
    apply lookup_replicate_None. lia.
Qed.

(** ** Board generation *)

Section Generation.

Context {Rng : Type}.
Variable difficulties : gmap string Settings.t.
Variable shuffle : list bool → Rng → list bool * Rng.
Variable countProximities : Board → Proximities.
Hypothesis shuffle_Permutation : ∀ l rng, (shuffle l rng).1 ≡ₚ l.

Local Abbreviation restart := (restart difficulties shuffle countProximities).

(** C1 (the code differs from the claim).  On a board of 2 columns and 3
    rows with [bombOdds = 1], whatever the shuffle returns: [bombsCount] is
    [round(1 * 2 * 3) = 6], all six markers are bombs, but the board holds 4
    bomb tiles only.  The tile at row 2, column 0 reads marker
    [2 * rows + 0 = 6], which does not exist, where row-major order reads
    marker [2 * columns + 0 = 4]; it is blank, and so is its neighbour. *)
Theorem restart_reads_markers_by_rows (rng : Rng) :
  ∃ game rng',
    restart (settingsOf 2 3 (QArith_base.Qmake 1 1)) rng = Ok (game, rng')
    ∧ bombsCount game = 6
    ∧ unshuffledBombs (bombsCount game) (2 * 3) = replicate 6 true
    ∧ bombsOnBoard (board game) = 4
    ∧ hasBomb (board game) 2 0 = false
    ∧ hasBomb (board game) 2 1 = false.
Proof using shuffle_Permutation.
  unfold restart, settingsFor; simpl.
  change (Math_round _) with 6.
  pose proof (shuffle_Permutation (unshuffledBombs 6 (2 * 3)) rng) as Hperm.
  destruct (shuffle _ rng) as [shuffledBombs rng'] eqn:Hshuffle; simpl in Hperm.
  change (2 * 3) with 6 in *.
  rewrite unshuffledBombs_all_bombs in Hperm.
  symmetry in Hperm. apply replicate_Permutation in Hperm. subst shuffledBombs.
  eexists _, _. split; [reflexivity|]. simpl.
  repeat split; vm_compute; reflexivity.
Qed.

End Generation.

(** The scripted source is one of the shuffles the theorem covers. *)
Lemma restart_reads_markers_by_rows_witness :
  ∃ game rng',
    restart ∅ rotations calculations.countProximities
      (settingsOf 2 3 (QArith_base.Qmake 1 1)) 0%nat = Ok (game, rng')
    ∧ bombsCount game = 6
    ∧ unshuffledBombs (bombsCount game) (2 * 3) = replicate 6 true
    ∧ bombsOnBoard (board game) = 4
    ∧ hasBomb (board game) 2 0 = false
    ∧ hasBomb (board game) 2 1 = false.
Proof.
  apply (restart_reads_markers_by_rows ∅ rotations calculations.countProximities
           rotations_Permutation 0%nat).
Defined.

Lemma Ok_inj {A : Type} (x y : A) : Ok x = Ok y → x = y.
Proof. by intros [= ->]. Qed.

(** ** Reading and writing grids *)

Lemma get_Some {A : Type} (l : list A) (i : Z) (x : A) :
  get l i = Some x ↔ 0 ≤ i ∧ l !! Z.to_nat i = Some x.
Proof.
  unfold get. destruct (decide (0 ≤ i)); [tauto|].
  split; [done|]. intros [? _]. lia.
Qed.

Lemma get_in_range {A : Type} (l : list A) (i : Z) :
  0 ≤ i < Z.of_nat (length l) → is_Some (get l i).
Proof.
  intros Hi. unfold get. rewrite decide_True by lia.
  apply lookup_lt_is_Some. lia.
Qed.

Lemma get_set_eq {A : Type} (l : list A) (i : Z) (x y : A) :
  get l i = Some y → get (set l i x) i = Some x.
Proof.
  rewrite !get_Some. intros [? Hy]. split; [done|].
  unfold set. rewrite decide_True by done.
  apply list_lookup_insert_eq. by eapply lookup_lt_Some.
Qed.

Lemma get_set_ne {A : Type} (l : list A) (i j : Z) (x : A) :
  i ≠ j → get (set l i x) j = get l j.
Proof.
  intros Hne. unfold get, set.
  destruct (decide (0 ≤ j)); [|done].
  destruct (decide (0 ≤ i)); [|done].
  apply list_lookup_insert_ne. lia.
Qed.

Lemma set_insert {A : Type} (l : list A) (i : Z) (x : A) :
  0 ≤ i → set l i x = <[Z.to_nat i := x]> l.
Proof. intros Hi. unfold set. by rewrite decide_True. Qed.

Lemma length_set {A : Type} (l : list A) (i : Z) (x : A) :
  length (set l i x) = length l.
Proof. unfold set. case_decide; [apply length_insert|done]. Qed.

Lemma tileAt_Some (board : Board) (r c : Z) (item : Tile) :
  tileAt board r c = Some item ↔
  ∃ row, get board r = Some row ∧ get row c = Some item.
Proof.
  unfold tileAt. destruct (get board r) as [row|]; simpl; naive_solver.
Qed.

Lemma tileAt_setTile_eq (board : Board) (r c : Z) (item old : Tile) :
  tileAt board r c = Some old →
  tileAt (setTile board r c item) r c = Some item.
Proof.
  rewrite tileAt_Some. intros (row & Hrow & Hold).
  unfold setTile, tileAt. rewrite Hrow.
  rewrite (get_set_eq _ _ _ _ Hrow). simpl.
  by eapply get_set_eq.
Qed.

Lemma tileAt_setTile_ne (board : Board) (r c r' c' : Z) (item : Tile) :
  (r', c') ≠ (r, c) →
  tileAt (setTile board r c item) r' c' = tileAt board r' c'.
Proof.
  intros Hne. unfold setTile.
  destruct (get board r) as [row|] eqn:Hrow; [|done].
  unfold tileAt. destruct (decide (r = r')) as [<-|Hr'].
  - rewrite (get_set_eq _ _ _ _ Hrow), Hrow. simpl.
    apply get_set_ne. congruence.
  - by rewrite get_set_ne.
Qed.

Lemma tileAt_copyBoard (board : Board) (r c : Z) :
  tileAt (copyBoard board) r c = tileAt board r c.
Proof. unfold copyBoard. by rewrite list_fmap_id. Qed.

Lemma copyBoard_id (board : Board) : copyBoard board = board.
Proof. unfold copyBoard. apply list_fmap_id. Qed.

Lemma changeItemToUncovered_bomb (item : Tile) :
  bombState item = tileBombStates.bomb →
  changeItemToUncovered item
  = {| bombState := tileBombStates.bomb; userState := tileUserStates.hitBomb |}.
Proof. intros H. unfold changeItemToUncovered. rewrite decide_True by done. by rewrite H. Qed.

Lemma changeItemToUncovered_blank (item : Tile) :
  bombState item ≠ tileBombStates.bomb →
  changeItemToUncovered item
  = {| bombState := tileBombStates.blank; userState := tileUserStates.open |}.
Proof.
  intros H. unfold changeItemToUncovered. rewrite decide_False by done.
  destruct (bombState item); [done|congruence].
Qed.

Lemma hasBomb_false (board : Board) (r c : Z) (item : Tile) :
  tileAt board r c = Some item →
  hasBomb board r c = false ↔ bombState item ≠ tileBombStates.bomb.
Proof.
  intros H. unfold hasBomb. rewrite H.
  rewrite bool_decide_eq_false. done.
Qed.

(** ** The flood fill *)

Lemma forEach_rel {A S : Type} (R : relation S) `{!PreOrder R}
    (l : list A) (body : A → S → Result S) :
  (∀ x s s', x ∈ l → body x s = Ok s' → R s s') →
  ∀ s s', forEach l body s = Ok s' → R s s'.
Proof.
  induction l as [|x l IH]; intros Hbody s s' Hrun; simpl in Hrun.
  - injection Hrun as <-. reflexivity.
  - destruct (body x s) as [s1| |] eqn:Hx; simpl in Hrun; try discriminate.
    transitivity s1.
    + eapply Hbody; [left|done].
    + apply IH; [|done]. intros y t t' Hy. apply Hbody. by right.
Qed.

Section Flood.

Variable allDirections : list (Z → Z → Z * Z).
Variable proximities : Proximities.
Variables rows columns : Z.

Local Abbreviation uncoverInNewBoard :=
  (uncoverInNewBoard allDirections).

(** What a call does is made of two steps, [exploded] and [uncovered]:
    a preorder that both respect relates the variables before the call to
    the variables after it. *)
Lemma uncoverInNewBoard_rel (R : relation (uncover.t Board)) :
  PreOrder R →
  (∀ vars r c prevItem,
     uncover.gameOver vars = false →
     tileAt (uncover.newBoard vars) r c = Some prevItem →
     userState prevItem ≠ tileUserStates.open →
     bombState prevItem = tileBombStates.bomb →
     R vars (exploded vars r c prevItem)) →
  (∀ vars r c prevItem,
     uncover.gameOver vars = false →
     tileAt (uncover.newBoard vars) r c = Some prevItem →
     userState prevItem ≠ tileUserStates.open →
     bombState prevItem ≠ tileBombStates.bomb →
     R vars (uncovered vars r c prevItem)) →
  ∀ fuel r c vars vars',
    uncoverInNewBoard fuel proximities rows columns r c vars = Ok vars' →
    R vars vars'.
Proof.
  intros HR Hexploded Huncovered.
  induction fuel as [|fuel IH]; intros r c vars vars' Hrun; [done|].
  simpl in Hrun.
  destruct (uncover.gameOver vars) eqn:Hover.
  { injection Hrun as <-. reflexivity. }
  destruct (tileAt (uncover.newBoard vars) r c) as [prevItem|] eqn:Hprev; [|done].
  destruct (get proximities r) as [proximitiesRow|]; [|done].
  destruct (decide (userState prevItem = tileUserStates.open)) as [|Hclosed].
  { injection Hrun as <-. reflexivity. }
  destruct (decide (bombState prevItem = tileBombStates.bomb)) as [Hbomb|Hblank].
  - rewrite (changeItemToUncovered_bomb _ Hbomb) in Hrun. simpl in Hrun.
    injection Hrun as <-. by apply Hexploded.
  - rewrite (changeItemToUncovered_blank _ Hblank) in Hrun. simpl in Hrun.
    transitivity (uncovered vars r c prevItem); [by apply Huncovered|].
    destruct (canExpandTile _ _).
    + revert Hrun. apply forEach_rel; [done|].
      intros f s s' _. destruct (f r c) as [r' c'].
      destruct (_ && _); [apply IH|].
      intros [= <-]. reflexivity.
    + injection Hrun as <-. reflexivity.
Qed.

End Flood.

Lemma forEach_inv {A S : Type} (I : S → Prop) (l : list A)
    (body : A → S → Result S) :
  (∀ x s s', x ∈ l → I s → body x s = Ok s' → I s') →
  ∀ s s', I s → forEach l body s = Ok s' → I s'.
Proof.
  induction l as [|x l IH]; intros Hbody s s' Hs Hrun; simpl in Hrun.
  - by injection Hrun as <-.
  - destruct (body x s) as [s1| |] eqn:Hx; simpl in Hrun; try discriminate.
    apply (IH (λ y t t' Hy, Hbody y t t' (list_elem_of_further _ _ _ Hy)) s1);
      [|done].
    eapply Hbody; [left|done..].
Qed.

#[local] Instance opened_PreOrder : PreOrder opened.
Proof.
  split.
  - intros b r c. by left.
  - intros b1 b2 b3 H12 H23 r c.
    destruct (H12 r c) as [E12|(i1 & Hi1 & Hblank1 & Hclosed1 & E12)];
      destruct (H23 r c) as [E23|(i2 & Hi2 & Hblank2 & Hclosed2 & E23)].
    + left. congruence.
    + right. exists i2. rewrite <- E12. done.
    + right. exists i1. rewrite E23. done.
    + rewrite E12 in Hi2. injection Hi2 as <-. done.
Qed.

Lemma opened_hasBomb (before after : Board) (r c : Z) :
  opened before after → hasBomb after r c = hasBomb before r c.
Proof.
  intros H. unfold hasBomb.
  destruct (H r c) as [->|(item & -> & Hblank & _ & ->)]; [done|].
  simpl. by rewrite Hblank.
Qed.

Lemma opened_consistent (rows columns : Z) (before after : Board)
    (proximities : Proximities) :
  opened before after →
  consistent rows columns before proximities →
  consistent rows columns after proximities.
Proof.
  intros Hopened Hcons r c Hrc Hzero r' c' Hadj Hrc'.
  rewrite (opened_hasBomb _ _ _ _ Hopened).
  exact (Hcons r c Hrc Hzero r' c' Hadj Hrc').
Qed.

Lemma opened_uncovered (vars : uncover.t Board) (r c : Z) (prevItem : Tile) :
  tileAt (uncover.newBoard vars) r c = Some prevItem →
  userState prevItem ≠ tileUserStates.open →
  bombState prevItem ≠ tileBombStates.bomb →
  opened (uncover.newBoard vars) (uncover.newBoard (uncovered vars r c prevItem)).
Proof.
  intros Hprev Hclosed Hblank r' c'. simpl.
  destruct (decide ((r', c') = (r, c))) as [[= -> ->]|Hne].
  - right. exists prevItem. split_and!; [done| |done|].
    + destruct (bombState prevItem); [done|congruence].
    + rewrite changeItemToUncovered_blank by done.
      by eapply tileAt_setTile_eq.
  - left. by apply tileAt_setTile_ne.
Qed.

Section FloodSafety.

Variable allDirections : list (Z → Z → Z * Z).
Variable proximities : Proximities.
Variables rows columns : Z.
Hypothesis allDirections_neighbourly : neighbourly allDirections.

Local Abbreviation uncoverInNewBoard :=
  (uncoverInNewBoard allDirections).

(** A call on a bomb-free cell of a board with consistent proximities
    opens bomb-free tiles only: neither this call nor any call it makes on
    a neighbour sets [gameOver]. *)
Lemma uncoverInNewBoard_blank (fuel : nat) :
  ∀ r c vars vars',
    consistent rows columns (uncover.newBoard vars) proximities →
    inBounds rows columns r c →
    hasBomb (uncover.newBoard vars) r c = false →
    uncover.gameOver vars = false →
    uncoverInNewBoard fuel proximities rows columns r c vars = Ok vars' →
    uncover.gameOver vars' = false
    ∧ opened (uncover.newBoard vars) (uncover.newBoard vars')
    ∧ tileAt (uncover.newBoard vars') r c
      = Some {| bombState := tileBombStates.blank;
                userState := tileUserStates.open |}.
Proof using allDirections_neighbourly.
  induction fuel as [|fuel IH]; intros r c vars vars' Hcons Hrc Hsafe Hover Hrun;
    [done|].
  simpl in Hrun. rewrite Hover in Hrun.
  destruct (tileAt (uncover.newBoard vars) r c) as [prevItem|] eqn:Hprev; [|done].
  destruct (get proximities r) as [proximitiesRow|] eqn:Hprox; [|done].
  apply (hasBomb_false _ _ _ _ Hprev) in Hsafe.
  assert (bombState prevItem = tileBombStates.blank) as Hblank
    by (destruct (bombState prevItem); congruence).
  destruct (decide (userState prevItem = tileUserStates.open)) as [Hopen|Hclosed].
  { injection Hrun as <-. split_and!; [done..|].
    rewrite Hprev. f_equal. destruct prevItem; simpl in *; congruence. }
  rewrite (changeItemToUncovered_blank _ Hsafe) in Hrun. simpl in Hrun.
  pose proof (opened_uncovered vars r c prevItem Hprev Hclosed Hsafe) as Hstep.
  assert (tileAt (uncover.newBoard (uncovered vars r c prevItem)) r c
          = Some {| bombState := tileBombStates.blank;
                    userState := tileUserStates.open |}) as Htile.
  { simpl. rewrite changeItemToUncovered_blank by done.
    by eapply tileAt_setTile_eq. }
  destruct (canExpandTile _ _) eqn:Hexpand.
  2:{ injection Hrun as <-. done. }
  apply andb_true_iff in Hexpand as [_ Hzero%bool_decide_eq_true].
  assert (proximityAt proximities r c = Some 0) as Hzero'.
  { unfold proximityAt. by rewrite Hprox. }
  revert Hrun.
  apply (forEach_inv (λ s, uncover.gameOver s = false
                           ∧ opened (uncover.newBoard vars) (uncover.newBoard s)
                           ∧ tileAt (uncover.newBoard s) r c
                             = Some {| bombState := tileBombStates.blank;
                                       userState := tileUserStates.open |}));
    [|done].
  intros f s s' Hf (Hover_s & Hopened_s & Htile_s).
  pose proof (allDirections_neighbourly f Hf r c) as Hadj.
  destruct (f r c) as [r' c']. simpl in Hadj.
  destruct (_ && _) eqn:Hin.
  - repeat (apply andb_true_iff in Hin as [Hin ?%bool_decide_eq_true]).
    apply bool_decide_eq_true in Hin.
    assert (inBounds rows columns r' c') as Hrc' by (unfold inBounds; lia).
    intros Hcall. apply IH in Hcall as (Hover' & Hopened' & _); [| |done| |done].
    + split_and!; [done|by transitivity (uncover.newBoard s)|].
      destruct (Hopened' r c) as [->|(item & Hitem & _ & Hclosed' & _)]; [done|].
      rewrite Htile_s in Hitem. by injection Hitem as <-.
    + by eapply opened_consistent.
    + rewrite (opened_hasBomb _ _ _ _ Hopened_s).
      exact (Hcons r c Hrc Hzero' r' c' Hadj Hrc').
  - by intros [= <-].
Qed.

(** C10.  On a board whose proximities are consistent with it, a call of
    [uncoverInNewBoard] at an in-bounds cell sets [gameOver] exactly when
    the targeted tile itself holds a bomb and is not open; every other tile
    is left as it is or is a bomb-free tile that becomes open.  So no tile
    but the targeted one can become [hitBomb], and no call on a neighbour
    reaches a bomb. *)
Theorem uncoverInNewBoard_only_target_hitBomb (fuel : nat) (r c : Z)
    (vars vars' : uncover.t Board) :
  consistent rows columns (uncover.newBoard vars) proximities →
  inBounds rows columns r c →
  uncover.gameOver vars = false →
  uncoverInNewBoard fuel proximities rows columns r c vars = Ok vars' →
  (uncover.gameOver vars' = true ↔
     ∃ item, tileAt (uncover.newBoard vars) r c = Some item
       ∧ bombState item = tileBombStates.bomb
       ∧ userState item ≠ tileUserStates.open)
  ∧ (∀ r' c', (r', c') ≠ (r, c) →
       tileAt (uncover.newBoard vars') r' c' = tileAt (uncover.newBoard vars) r' c'
       ∨ ∃ item, tileAt (uncover.newBoard vars) r' c' = Some item
           ∧ bombState item = tileBombStates.blank
           ∧ userState item ≠ tileUserStates.open
           ∧ tileAt (uncover.newBoard vars') r' c'
             = Some {| bombState := tileBombStates.blank;
                       userState := tileUserStates.open |})
  ∧ (∀ r' c' item, (r', c') ≠ (r, c) →
       tileAt (uncover.newBoard vars') r' c' = Some item →
       userState item = tileUserStates.hitBomb →
       tileAt (uncover.newBoard vars) r' c' = Some item).
Proof using allDirections_neighbourly.
  intros Hcons Hrc Hover Hrun.
  cut ((uncover.gameOver vars' = true ↔
          ∃ item, tileAt (uncover.newBoard vars) r c = Some item
            ∧ bombState item = tileBombStates.bomb
            ∧ userState item ≠ tileUserStates.open)
       ∧ (∀ r' c', (r', c') ≠ (r, c) →
            tileAt (uncover.newBoard vars') r' c'
            = tileAt (uncover.newBoard vars) r' c'
            ∨ ∃ item, tileAt (uncover.newBoard vars) r' c' = Some item
                ∧ bombState item = tileBombStates.blank
                ∧ userState item ≠ tileUserStates.open
                ∧ tileAt (uncover.newBoard vars') r' c'
                  = Some {| bombState := tileBombStates.blank;
                            userState := tileUserStates.open |})).
  { intros [Hiff Hothers]. split_and!; [done..|].
    intros r' c' item Hne Hitem Hhit.
    destruct (Hothers r' c' Hne) as [<-|(? & _ & _ & _ & Hopen)]; [done|].
    rewrite Hopen in Hitem. injection Hitem as <-. done. }
  destruct fuel as [|fuel]; [done|].
  destruct (tileAt (uncover.newBoard vars) r c) as [prevItem|] eqn:Hprev.
  2:{ simpl in Hrun. rewrite Hover, Hprev in Hrun. done. }
  destruct (decide (bombState prevItem = tileBombStates.bomb)) as [Hbomb|Hblank].
  - simpl in Hrun. rewrite Hover, Hprev in Hrun.
    destruct (get proximities r); [|done].
    destruct (decide (userState prevItem = tileUserStates.open)) as [Hopen|Hclosed].
    + injection Hrun as <-. split; [|by left].
      rewrite Hover. split; [done|]. intros (? & [= <-] & _ & ?). done.
    + rewrite (changeItemToUncovered_bomb _ Hbomb) in Hrun. simpl in Hrun.
      injection Hrun as <-. simpl. split; [split; [intros _; eauto|done]|].
      intros r' c' Hne. left. by apply tileAt_setTile_ne.
  - apply uncoverInNewBoard_blank in Hrun as (Hover' & Hopened & _);
      [|done..|by apply (hasBomb_false _ _ _ _ Hprev)|done].
    split; [|intros r' c' _; apply Hopened].
    rewrite Hover'. split; [done|]. intros (? & [= <-] & ? & _). done.
Qed.

End FloodSafety.

(** ** The module [./calculations] as the specification describes it *)

Lemma calculations_neighbourly : neighbourly calculations.allDirections.
Proof.
  intros f Hf r c. unfold calculations.allDirections in Hf.
  repeat (apply elem_of_cons in Hf as [->|Hf];
          [unfold adjacent; simpl; split_and!; try lia;
           intros Heq; inversion Heq; lia|]).
  by apply elem_of_nil in Hf.
Qed.

Lemma calculations_consistent (rows columns : Z) (board : Board) :
  consistent rows columns board (calculations.countProximities board).
Proof.
  intros r c _ Hzero r' c' (Hr & Hc & Hne) _.
  unfold proximityAt in Hzero.
  destruct (get _ r) as [proximitiesRow|] eqn:Hrow; [|done]. simpl in Hzero.
  apply get_Some in Hrow as [Hr0 Hrow]. apply get_Some in Hzero as [Hc0 Hzero].
  unfold calculations.countProximities in Hrow.
  rewrite list_lookup_imap in Hrow.
  apply fmap_Some in Hrow as (row & Hrow & ->).
  rewrite list_lookup_imap in Hzero.
  apply fmap_Some in Hzero as (item & _ & Hzero). symmetry in Hzero.
  rewrite !Z2Nat.id in Hzero by done.
  apply (Nat2Z.inj _ 0%nat), nil_length_inv in Hzero.
  pose proof (λ f, filter_nil_not_elem_of _ _ f Hzero) as Hnone.
  simpl in Hnone.
  apply not_true_is_false. intros Hbomb.
  assert (r' = r - 1 ∨ r' = r ∨ r' = r + 1) as Hr' by lia.
  assert (c' = c - 1 ∨ c' = c ∨ c' = c + 1) as Hc' by lia.
  destruct Hr' as [-> | [-> | ->]], Hc' as [-> | [-> | ->]]; try done.
  - apply (Hnone (λ r c, (r - 1, c - 1))); [done|set_solver].
  - apply (Hnone (λ r c, (r - 1, c))); [done|set_solver].
  - apply (Hnone (λ r c, (r - 1, c + 1))); [done|set_solver].
  - apply (Hnone (λ r c, (r, c - 1))); [done|set_solver].
  - apply (Hnone (λ r c, (r, c + 1))); [done|set_solver].
  - apply (Hnone (λ r c, (r + 1, c - 1))); [done|set_solver].
  - apply (Hnone (λ r c, (r + 1, c))); [done|set_solver].
  - apply (Hnone (λ r c, (r + 1, c + 1))); [done|set_solver].
Qed.

Lemma calculations_wellShaped (rows columns : Z) (board : Board) :
  wellShaped rows columns board →
  wellShaped rows columns (calculations.countProximities board).
Proof.
  intros [Hrows Hcolumns]. unfold calculations.countProximities. split.
  - by rewrite length_imap.
  - apply Forall_forall. intros row (i & boardRow & -> & Hi)%elem_of_lookup_imap.
    rewrite length_imap.
    eapply (proj1 (Forall_forall _ _) Hcolumns), list_elem_of_lookup_2, Hi.
Qed.

(** ** Counting tiles and the shape of grids *)

Lemma tilesWhere_insert (P : Tile → Prop) `{!∀ t, Decision (P t)}
    (board : Board) (i : nat) (row row' : list Tile) :
  board !! i = Some row →
  (tilesWhere P (<[i:=row']> board) + length (filter P row)
   = tilesWhere P board + length (filter P row'))%nat.
Proof.
  intros Hrow. unfold tilesWhere.
  rewrite insert_take_drop by (by eapply lookup_lt_Some).
  replace (concat board) with (concat (take i board ++ row :: drop (S i) board))
    by (by rewrite take_drop_middle).
  rewrite !concat_app, !concat_cons, !filter_app, !length_app. lia.
Qed.

Lemma length_filter_insert (P : Tile → Prop) `{!∀ t, Decision (P t)}
    (row : list Tile) (i : nat) (old new : Tile) :
  row !! i = Some old →
  (length (filter P (<[i:=new]> row)) + (if decide (P old) then 1 else 0)
   = length (filter P row) + (if decide (P new) then 1 else 0))%nat.
Proof.
  intros Hold.
  rewrite insert_take_drop by (by eapply lookup_lt_Some).
  replace (filter P row) with (filter P (take i row ++ old :: drop (S i) row))
    by (by rewrite take_drop_middle).
  rewrite !filter_app, !filter_cons, !length_app.
  repeat case_decide; simpl; lia.
Qed.

Lemma tilesWhere_setTile (P : Tile → Prop) `{!∀ t, Decision (P t)}
    (board : Board) (r c : Z) (old new : Tile) :
  tileAt board r c = Some old →
  (tilesWhere P (setTile board r c new) + (if decide (P old) then 1 else 0)
   = tilesWhere P board + (if decide (P new) then 1 else 0))%nat.
Proof.
  rewrite tileAt_Some. intros (row & Hrow & Hold).
  unfold setTile. rewrite Hrow.
  apply get_Some in Hrow as [Hr Hrow]. apply get_Some in Hold as [Hc Hold].
  unfold set. rewrite !decide_True by done.
  pose proof (tilesWhere_insert P board _ row (<[Z.to_nat c:=new]> row) Hrow).
  pose proof (length_filter_insert P row _ old new Hold).
  lia.
Qed.

Lemma wellShaped_tiles {A : Type} (rows columns : Z) (grid : list (list A)) :
  wellShaped rows columns grid →
  length (concat grid) = (Z.to_nat rows * Z.to_nat columns)%nat.
Proof.
  intros [<- Hcolumns].
  induction Hcolumns as [|row grid Hrow _ IH]; [done|].
  simpl. rewrite length_app. lia.
Qed.

Lemma closedTiles_le (rows columns : Z) (board : Board) :
  wellShaped rows columns board →
  (closedTiles board ≤ Z.to_nat rows * Z.to_nat columns)%nat.
Proof.
  intros H. rewrite <- (wellShaped_tiles _ _ _ H).
  apply length_filter.
Qed.

Lemma wellShaped_get {A : Type} (rows columns : Z) (grid : list (list A)) (r : Z) :
  wellShaped rows columns grid → 0 ≤ r < rows →
  ∃ row, get grid r = Some row ∧ length row = Z.to_nat columns.
Proof.
  intros [Hrows Hcolumns] Hr.
  destruct (get_in_range grid r) as [row Hrow]; [lia|].
  exists row. split; [done|].
  apply get_Some in Hrow as [_ Hrow].
  eapply (proj1 (Forall_forall _ _) Hcolumns), list_elem_of_lookup_2, Hrow.
Qed.

Lemma wellShaped_tileAt (rows columns : Z) (board : Board) (r c : Z) :
  wellShaped rows columns board → inBounds rows columns r c →
  is_Some (tileAt board r c).
Proof.
  intros Hshape [Hr Hc].
  destruct (wellShaped_get _ _ _ r Hshape Hr) as (row & Hrow & Hlen).
  unfold tileAt. rewrite Hrow. simpl. apply get_in_range. lia.
Qed.

Lemma wellShaped_setTile (rows columns : Z) (board : Board) (r c : Z) (item : Tile) :
  wellShaped rows columns board →
  wellShaped rows columns (setTile board r c item).
Proof.
  intros [Hrows Hcolumns]. unfold setTile.
  destruct (get board r) as [row|] eqn:Hrow; [|done].
  apply get_Some in Hrow as [Hr Hrow].
  split; [by rewrite length_set|].
  unfold set at 1. rewrite decide_True by done.
  apply Forall_insert; [done|]. rewrite length_set.
  eapply (proj1 (Forall_forall _ _) Hcolumns), list_elem_of_lookup_2, Hrow.
Qed.

Lemma restartBoard_wellShaped (columns rows : Z) (shuffledBombs : list bool) :
  wellShaped rows columns (restartBoard columns rows shuffledBombs).
Proof.
  unfold restartBoard, times. split.
  - by rewrite length_fmap, length_seqZ.
  - apply Forall_fmap, Forall_forall. intros rowIndex _. simpl.
    by rewrite length_fmap, length_seqZ.
Qed.

Lemma restartBoard_covered (columns rows : Z) (shuffledBombs : list bool)
    (r c : Z) (item : Tile) :
  tileAt (restartBoard columns rows shuffledBombs) r c = Some item →
  userState item = tileUserStates.covered.
Proof.
  rewrite tileAt_Some. intros (row & Hrow & Hitem).
  apply get_Some in Hrow as [_ Hrow]. apply get_Some in Hitem as [_ Hitem].
  unfold restartBoard, times in Hrow.
  rewrite list_lookup_fmap in Hrow.
  apply fmap_Some in Hrow as (rowIndex & _ & ->).
  rewrite list_lookup_fmap in Hitem.
  by apply fmap_Some in Hitem as (columnIndex & _ & ->).
Qed.

Lemma forEach_total {A S : Type} (I : S → Prop) (l : list A)
    (body : A → S → Result S) :
  (∀ x s, x ∈ l → I s → ∃ s', body x s = Ok s' ∧ I s') →
  ∀ s, I s → ∃ s', forEach l body s = Ok s' ∧ I s'.
Proof.
  induction l as [|x l IH]; intros Hbody s Hs; simpl; [by eauto|].
  destruct (Hbody x s) as (s1 & -> & Hs1); [left|done|]. simpl.
  apply IH; [|done]. intros y t Hy. apply Hbody. by right.
Qed.

(** ** The flood fill returns *)

Section FloodTermination.

Variable allDirections : list (Z → Z → Z * Z).
Variable proximities : Proximities.
Variables rows columns : Z.
Hypothesis proximities_wellShaped : wellShaped rows columns proximities.

Local Abbreviation uncoverInNewBoard :=
  (uncoverInNewBoard allDirections).

(** Every call that goes on to its neighbours has opened a tile, so a call
    is never nested deeper than the number of tiles that are not open. *)
Lemma uncoverInNewBoard_total (fuel : nat) :
  ∀ r c vars,
    wellShaped rows columns (uncover.newBoard vars) →
    inBounds rows columns r c →
    (closedTiles (uncover.newBoard vars) < fuel)%nat →
    ∃ vars',
      uncoverInNewBoard fuel proximities rows columns r c vars = Ok vars'
      ∧ wellShaped rows columns (uncover.newBoard vars')
      ∧ (closedTiles (uncover.newBoard vars')
         ≤ closedTiles (uncover.newBoard vars))%nat.
Proof using proximities_wellShaped.
  induction fuel as [|fuel IH]; intros r c vars Hshape Hrc Hfuel; [lia|].
  simpl. destruct (uncover.gameOver vars); [by eauto|].
  destruct (wellShaped_tileAt _ _ _ r c Hshape Hrc) as [prevItem Hprev].
  destruct (wellShaped_get _ _ _ r proximities_wellShaped (proj1 Hrc))
    as (proximitiesRow & Hprox & _).
  rewrite Hprev, Hprox.
  destruct (decide (userState prevItem = tileUserStates.open)) as [|Hclosed];
    [by eauto|].
  pose proof (tilesWhere_setTile (λ t, userState t ≠ tileUserStates.open)
                _ r c prevItem (changeItemToUncovered prevItem) Hprev) as Hcount.
  rewrite decide_True in Hcount by done.
  destruct (decide (bombState prevItem = tileBombStates.bomb)) as [Hbomb|Hblank].
  - rewrite (changeItemToUncovered_bomb _ Hbomb) in *. simpl in *.
    eexists. split; [done|]. simpl.
    split; [by apply wellShaped_setTile|]. unfold closedTiles.
    rewrite (changeItemToUncovered_bomb _ Hbomb). lia.
  - rewrite (changeItemToUncovered_blank _ Hblank) in *. simpl in *.
    assert (wellShaped rows columns
              (uncover.newBoard (uncovered vars r c prevItem))) as Hshape1.
    { by apply wellShaped_setTile. }
    assert (closedTiles (uncover.newBoard (uncovered vars r c prevItem)) + 1
            = closedTiles (uncover.newBoard vars))%nat as Hstep.
    { unfold closedTiles in *. simpl.
      rewrite (changeItemToUncovered_blank _ Hblank). lia. }
    destruct (canExpandTile _ _).
    2:{ eexists. split; [done|]. split; [done|]. lia. }
    destruct (forEach_total
      (λ s, wellShaped rows columns (uncover.newBoard s)
            ∧ (closedTiles (uncover.newBoard s)
               ≤ closedTiles (uncover.newBoard (uncovered vars r c prevItem)))%nat)
      allDirections
      (λ f vars0,
         let '(r0, c0) := f r c in
         if bool_decide (r0 < rows) && bool_decide (0 ≤ r0)
            && bool_decide (c0 < columns) && bool_decide (0 ≤ c0)
         then uncoverInNewBoard fuel proximities rows columns r0 c0 vars0
         else Ok vars0)
      ) with (uncovered vars r c prevItem) as (vars' & Hrun & Hshape' & Hle).
    + intros f s _ [Hshape_s Hle_s]. destruct (f r c) as [r' c'].
      destruct (_ && _) eqn:Hin; [|by eauto].
      repeat (apply andb_true_iff in Hin as [Hin ?%bool_decide_eq_true]).
      apply bool_decide_eq_true in Hin.
      destruct (IH r' c' s) as (s' & Hs' & Hshape_s' & Hle_s');
        [done|unfold inBounds; lia|lia|].
      exists s'. split_and!; [done..|lia].
    + done.
    + exists vars'. split_and!; [done..|lia].
Qed.

End FloodTermination.

(** ** More fuel does not change a run that has finished *)

Lemma forEach_mono {A S : Type} (l : list A) (body body' : A → S → Result S) :
  (∀ x s, body x s ≠ OutOfFuel → body' x s = body x s) →
  ∀ s, forEach l body s ≠ OutOfFuel → forEach l body' s = forEach l body s.
Proof.
  intros Hbody. induction l as [|x l IH]; intros s Hrun; simpl in *; [done|].
  destruct (body x s) as [s1| |] eqn:Hx; simpl in *; [| |done].
  - rewrite Hbody, Hx by congruence. simpl. by apply IH.
  - by rewrite Hbody, Hx by congruence.
Qed.

Section Fuel.

Context {Rng : Type}.
Variable difficulties : gmap string Settings.t.
Variable shuffle : list bool → Rng → list bool * Rng.
Variable countProximities : Board → Proximities.
Variable allDirections : list (Z → Z → Z * Z).

Local Abbreviation uncoverInNewBoard :=
  (uncoverInNewBoard allDirections).
Local Abbreviation whileStartsWithBomb :=
  (whileStartsWithBomb difficulties shuffle countProximities).
Local Abbreviation uncoverTile :=
  (uncoverTile difficulties shuffle countProximities allDirections).

Lemma uncoverInNewBoard_mono (proximities : Proximities) (rows columns : Z)
    (fuel fuel' : nat) :
  (fuel ≤ fuel')%nat →
  ∀ r c vars,
    uncoverInNewBoard fuel proximities rows columns r c vars ≠ OutOfFuel →
    uncoverInNewBoard fuel' proximities rows columns r c vars
    = uncoverInNewBoard fuel proximities rows columns r c vars.
Proof.
  revert fuel'. induction fuel as [|fuel IH]; intros fuel' Hle r c vars Hrun;
    [done|].
  destruct fuel' as [|fuel']; [lia|]. simpl in *.
  destruct (uncover.gameOver vars); [done|].
  destruct (tileAt _ r c) as [prevItem|]; [|done].
  destruct (get proximities r); [|done].
  destruct (decide (userState prevItem = _)); [done|].
  destruct (decide (userState (changeItemToUncovered prevItem) = _)); [done|].
  destruct (canExpandTile _ _); [|done].
  apply forEach_mono; [|done].
  intros f s. destruct (f r c) as [r' c'].
  destruct (_ && _); [|done]. apply IH. lia.
Qed.

Lemma whileStartsWithBomb_mono (props : Props) (r c : Z) (fuel fuel' : nat) :
  (fuel ≤ fuel')%nat →
  ∀ board proximities rng,
    whileStartsWithBomb fuel props r c board proximities rng ≠ OutOfFuel →
    whileStartsWithBomb fuel' props r c board proximities rng
    = whileStartsWithBomb fuel props r c board proximities rng.
Proof.
  revert fuel'.
  induction fuel as [|fuel IH]; intros fuel' Hle board proximities rng Hrun.
  - destruct fuel'; simpl in *; [done|].
    destruct (tileAt board r c) as [item|]; [|done].
    by destruct (decide (bombState item = _)).
  - destruct fuel' as [|fuel']; [lia|]. simpl in *.
    destruct (tileAt board r c) as [item|]; [|done].
    destruct (decide (bombState item = _)); [|done].
    destruct (regenerated _ _ _ _ _) as [[[board1 proximities1] rng1]| |];
      simpl in *; [|done..].
    apply IH; [lia|done].
Qed.

(** Once [uncoverTile] returns or throws within some fuel, it does the
    same with any larger fuel. *)
Lemma uncoverTile_mono (fuel fuel' : nat) (props : Props) (r c now : Z)
    (rng : Rng) (game : Game) :
  (fuel ≤ fuel')%nat →
  uncoverTile fuel props r c now rng game ≠ OutOfFuel →
  uncoverTile fuel' props r c now rng game
  = uncoverTile fuel props r c now rng game.
Proof.
  intros Hle. unfold uncoverTile.
  destruct (negb _); [done|].
  assert (∀ proximities vars,
    uncoverInNewBoard fuel proximities (rows game) (columns game) r c vars
      ≠ OutOfFuel →
    uncoverInNewBoard fuel' proximities (rows game) (columns game) r c vars
    = uncoverInNewBoard fuel proximities (rows game) (columns game) r c vars)
    as Hflood by (intros ??; by apply uncoverInNewBoard_mono).
  destruct (decide (movesCount game = 0)).
  - destruct (whileStartsWithBomb fuel props r c _ _ rng)
      as [[[board1 proximities1] rng1]| |] eqn:Hloop; simpl; [| |done].
    + rewrite (whileStartsWithBomb_mono _ _ _ _ _ Hle), Hloop by congruence.
      simpl. intros Hrun. rewrite Hflood; [done|].
      intros Hout. by rewrite Hout in Hrun.
    + by rewrite (whileStartsWithBomb_mono _ _ _ _ _ Hle), Hloop by congruence.
  - simpl. intros Hrun. rewrite Hflood; [done|].
    intros Hout. by rewrite Hout in Hrun.
Qed.

End Fuel.


(** ** The first move *)

Section FirstMove.

Context {Rng : Type}.
Variable difficulties : gmap string Settings.t.
Variable shuffle : list bool → Rng → list bool * Rng.
Variable countProximities : Board → Proximities.
Variable allDirections : list (Z → Z → Z * Z).

Hypothesis allDirections_neighbourly : neighbourly allDirections.
Hypothesis countProximities_consistent : ∀ rows columns board,
  wellShaped rows columns board →
  consistent rows columns board (countProximities board).
Hypothesis countProximities_wellShaped : ∀ rows columns board,
  wellShaped rows columns board →
  wellShaped rows columns (countProximities board).

Local Abbreviation restart := (restart difficulties shuffle countProximities).
Local Abbreviation regenerated :=
  (regenerated difficulties shuffle countProximities).
Local Abbreviation regeneration :=
  (regeneration difficulties shuffle countProximities).
Local Abbreviation whileStartsWithBomb :=
  (whileStartsWithBomb difficulties shuffle countProximities).
Local Abbreviation uncoverInNewBoard :=
  (uncoverInNewBoard allDirections).
Local Abbreviation uncoverTile :=
  (uncoverTile difficulties shuffle countProximities allDirections).

Variable props : Props.
Variable settings : Settings.t.
Hypothesis props_settings : settingsFor difficulties props = Some settings.

Local Abbreviation rows0 := (Settings.rows settings).
Local Abbreviation columns0 := (Settings.columns settings).

Lemma restart_Ok (rng : Rng) :
  ∃ game rng',
    restart props rng = Ok (game, rng')
    ∧ gameState game = gameStates.fresh
    ∧ rows game = rows0 ∧ columns game = columns0
    ∧ (∃ shuffledBombs, board game = restartBoard columns0 rows0 shuffledBombs)
    ∧ proximities game = countProximities (board game)
    ∧ uncoveredCount game = 0 ∧ flagsCount game = 0 ∧ movesCount game = 0.
Proof using props_settings.
  unfold restart. rewrite props_settings.
  destruct (shuffle _ rng) as [shuffledBombs rng'].
  eexists _, _. split; [done|]. simpl. split_and!; by eauto.
Qed.

Lemma regenerated_Ok (rng : Rng) :
  ∃ board proximities rng',
    regenerated props rng = Ok (board, proximities, rng')
    ∧ wellFormed rows0 columns0 board proximities
    ∧ allCovered board.
Proof using props_settings countProximities_consistent countProximities_wellShaped.
  destruct (restart_Ok rng)
    as (game & rng' & Hrestart & _ & _ & _ & [shuffledBombs Hboard] & Hprox & _).
  unfold regenerated. rewrite Hrestart. simpl.
  eexists _, _, _. split; [done|].
  rewrite Hprox, Hboard.
  pose proof (restartBoard_wellShaped columns0 rows0 shuffledBombs).
  split; [split_and!; by auto|].
  intros r c item. apply restartBoard_covered.
Qed.

Variables r c : Z.
Hypothesis target_inBounds : inBounds rows0 columns0 r c.

(** What the loop does within [fuel] passes: it does not throw; when it
    returns, it returns the first regeneration whose targeted tile is free
    of a bomb; when it has not returned, every regeneration so far has a bomb
    there. *)
Lemma whileStartsWithBomb_cases (fuel : nat) :
  ∀ board proximities rng,
    wellFormed rows0 columns0 board proximities →
    match whileStartsWithBomb fuel props r c board proximities rng with
    | Ok (board', proximities', rng') =>
        wellFormed rows0 columns0 board' proximities'
        ∧ hasBomb board' r c = false
        ∧ (board' = board ∨ allCovered board')
        ∧ ∃ n, (n ≤ fuel)%nat
            ∧ regeneration n props board proximities rng
              = Ok (board', proximities', rng')
            ∧ ∀ k, (k < n)%nat →
                ∃ bk pk gk, regeneration k props board proximities rng
                            = Ok (bk, pk, gk)
                  ∧ hasBomb bk r c = true
    | Throw _ => False
    | OutOfFuel =>
        ∀ k, (k ≤ fuel)%nat →
          ∃ bk pk gk, regeneration k props board proximities rng = Ok (bk, pk, gk)
            ∧ hasBomb bk r c = true
    end.
Proof using props_settings countProximities_consistent
    countProximities_wellShaped target_inBounds.
  induction fuel as [|fuel IH]; intros board proximities rng Hwf; simpl;
    destruct (wellShaped_tileAt _ _ _ r c (proj1 Hwf) target_inBounds)
      as [item Hitem]; rewrite Hitem;
    (destruct (decide (bombState item = tileBombStates.bomb)) as [Hbomb|Hblank];
     [assert (hasBomb board r c = true) as Hhas
        by (unfold hasBomb; rewrite Hitem; by apply bool_decide_eq_true)
     |split_and!;
        [done|by apply (hasBomb_false _ _ _ _ Hitem)|by left|];
        exists 0%nat; split_and!; [lia|done|intros; lia]]).
  - intros k Hk. replace k with 0%nat by lia. by eauto.
  - destruct (regenerated_Ok rng)
      as (board1 & proximities1 & rng1 & Hregen & Hwf1 & Hcovered1).
    rewrite Hregen. simpl.
    specialize (IH board1 proximities1 rng1 Hwf1).
    destruct (whileStartsWithBomb fuel props r c board1 proximities1 rng1)
      as [[[board' proximities'] rng']| |]; [|done|].
    + destruct IH as (Hwf' & Hfree & Hcovered & n & Hn & Hnth & Hbefore).
      split_and!; [done..| |].
      { right. by destruct Hcovered as [->|?]. }
      exists (S n). split_and!; [lia|by simpl; rewrite Hregen|].
      intros [|k] Hk; [by eauto|].
      simpl. rewrite Hregen. simpl. apply Hbefore. lia.
    + intros [|k] Hk; [by eauto|].
      simpl. rewrite Hregen. simpl. apply IH. lia.
Qed.


End FirstMove.

(** ** Reveals outside play *)

Section NotPlayable.

Context {Rng : Type}.
Variable difficulties : gmap string Settings.t.
Variable shuffle : list bool → Rng → list bool * Rng.
Variable countProximities : Board → Proximities.
Variable allDirections : list (Z → Z → Z * Z).

Local Abbreviation uncoverTile :=
  (uncoverTile difficulties shuffle countProximities allDirections).

(** C8.  When the game is over, won or restarting, [uncoverTile] returns
    nothing, whatever the fuel, without drawing from the random source; the
    game the caller holds is the game as it was. *)
Theorem uncoverTile_not_playable (fuel : nat) (props : Props) (r c now : Z)
    (rng : Rng) (game : Game) :
  gameState game = gameStates.gameOver
  ∨ gameState game = gameStates.winner
  ∨ gameState game = gameStates.restarting →
  uncoverTile fuel props r c now rng game = Ok (None, rng)
  ∧ merged game None = game.
Proof.
  intros Hstate. split; [|done].
  unfold uncoverTile, canPlayForGameState.
  by destruct Hstate as [-> | [-> | ->]].
Qed.

End NotPlayable.

Lemma uncoverTile_not_playable_witness :
  let game : Game :=
    {| gameState := gameStates.winner; columns := 1; rows := 1;
       board := [[ {| bombState := tileBombStates.blank;
                      userState := tileUserStates.open |} ]];
       proximities := [[0]]; bombsCount := 0; uncoveredCount := 1;
       flagsCount := 0; movesCount := 1; startedAt := Some 5;
       finishedAt := Some 9 |} in
  uncoverTile ∅ rotations calculations.countProximities calculations.allDirections
    3 (settingsOf 1 1 (QArith_base.Qmake 0 1)) 0 0 12 0%nat game
  = Ok (None, 0%nat)
  ∧ merged game None = game.
Proof.
  apply (uncoverTile_not_playable ∅ rotations calculations.countProximities
           calculations.allDirections).
  right. left. reflexivity.
Defined.

(** ** Flags *)

Lemma mapIndexed_unchanged {A S : Type} (f : A → Z → S → A * S) (l : list A) :
  ∀ start s,
    (∀ x i s, start ≤ i → f x i s = (x, s)) →
    mapIndexed f start l s = (l, s).
Proof.
  induction l as [|x l IH]; intros start s Hf; simpl; [done|].
  rewrite Hf by lia. rewrite IH; [done|]. intros. apply Hf. lia.
Qed.

(** A callback that changes the item at one index only changes that item
    of the list, if the list has it. *)
Lemma mapIndexed_single {A S : Type} (f : A → Z → S → A * S) (target : Z)
    (g : A → S → A * S) :
  (∀ x s, f x target s = g x s) →
  (∀ x i s, i ≠ target → f x i s = (x, s)) →
  ∀ l start s,
    mapIndexed f start l s
    = match get l (target - start) with
      | Some x => (set l (target - start) (g x s).1, (g x s).2)
      | None => (l, s)
      end.
Proof.
  intros Hat Helse. induction l as [|x l IH]; intros start s; simpl.
  { unfold get. by case_decide. }
  destruct (decide (start = target)) as [->|Hne].
  - rewrite Hat, Z.sub_diag. unfold get, set. simpl.
    destruct (g x s) as [y s1]. simpl.
    rewrite mapIndexed_unchanged; [done|]. intros. apply Helse. lia.
  - rewrite Helse, IH by done.
    replace (target - (start + 1)) with (target - start - 1) by lia.
    unfold get, set.
    destruct (decide (0 ≤ target - start - 1)).
    + rewrite !decide_True by lia.
      replace (Z.to_nat (target - start)) with (Datatypes.S (Z.to_nat (target - start - 1)))
        by lia.
      simpl. destruct (l !! _); [|done].
      by rewrite decide_True by lia.
    + destruct (decide (0 ≤ target - start)); [|done].
      exfalso. lia.
Qed.

Lemma changeBoardItem_found {S : Type} (board : Board) (r c : Z)
    (changeItem : Tile → S → Tile * S) (s : S) (item : Tile) :
  tileAt board r c = Some item →
  changeBoardItem board r c changeItem s
  = (setTile board r c (changeItem item s).1, (changeItem item s).2).
Proof.
  rewrite tileAt_Some. intros (row & Hrow & Hitem).
  unfold changeBoardItem.
  rewrite (mapIndexed_single _ r
    (λ row s, match get row c with
              | Some item => (set row c (changeItem item s).1, (changeItem item s).2)
              | None => (row, s)
              end)).
  - rewrite Z.sub_0_r, Hrow, Hitem. unfold setTile. by rewrite Hrow.
  - intros row' s'.
    rewrite (mapIndexed_single _ c changeItem).
    + by rewrite Z.sub_0_r.
    + intros x s0. by rewrite !bool_decide_eq_true_2.
    + intros x i s0 Hi. rewrite (bool_decide_eq_false_2 (c = i)) by done.
      by rewrite andb_false_r.
  - intros row' i s' Hi. apply mapIndexed_unchanged.
    intros x j s0 _. by rewrite (bool_decide_eq_false_2 (r = i)) by done.
Qed.

Lemma setTile_setTile (board : Board) (r c : Z) (item item' old : Tile) :
  tileAt board r c = Some old →
  setTile (setTile board r c item) r c item' = setTile board r c item'.
Proof.
  rewrite tileAt_Some. intros (row & Hrow & Hold).
  unfold setTile. rewrite Hrow, (get_set_eq _ _ _ _ Hrow).
  apply get_Some in Hrow as [Hr _]. apply get_Some in Hold as [Hc _].
  unfold set. rewrite !decide_True by done.
  by rewrite !list_insert_insert_eq.
Qed.

Lemma setTile_same (board : Board) (r c : Z) (item : Tile) :
  tileAt board r c = Some item → setTile board r c item = board.
Proof.
  rewrite tileAt_Some. intros (row & Hrow & Hitem).
  unfold setTile. rewrite Hrow.
  apply get_Some in Hrow as [Hr Hrow]. apply get_Some in Hitem as [Hc Hitem].
  unfold set. rewrite !decide_True by done.
  by rewrite (list_insert_id row), list_insert_id.
Qed.

(** C7.  On a tile the board has: [flagTile] turns a covered tile into a
    flag and adds 1 to [flagsCount], and a second [flagTile] gives back the
    game as it was; it turns a flag into a covered tile and takes 1 from
    [flagsCount]; it leaves a game whose tile is open or [hitBomb] as it
    is. *)
Theorem flagTile_toggle (r c : Z) (game : Game) (item : Tile) :
  tileAt (board game) r c = Some item →
  (userState item = tileUserStates.covered →
     tileAt (board (flagTile r c game)) r c
     = Some {| bombState := bombState item; userState := tileUserStates.flag |}
     ∧ flagsCount (flagTile r c game) = flagsCount game + 1
     ∧ flagTile r c (flagTile r c game) = game)
  ∧ (userState item = tileUserStates.flag →
     tileAt (board (flagTile r c game)) r c
     = Some {| bombState := bombState item; userState := tileUserStates.covered |}
     ∧ flagsCount (flagTile r c game) = flagsCount game - 1)
  ∧ (userState item = tileUserStates.open
     ∨ userState item = tileUserStates.hitBomb →
     flagTile r c game = game).
Proof.
  intros Hitem. split_and!.
  - intros Hcovered.
    assert (flagTile r c game
            = {| gameState := gameState game;
                 columns := columns game; rows := rows game;
                 board := setTile (board game) r c
                            {| bombState := bombState item;
                               userState := tileUserStates.flag |};
                 proximities := proximities game; bombsCount := bombsCount game;
                 uncoveredCount := uncoveredCount game;
                 flagsCount := flagsCount game + 1;
                 movesCount := movesCount game; startedAt := startedAt game;
                 finishedAt := finishedAt game |}) as ->.
    { unfold flagTile. rewrite (changeBoardItem_found _ _ _ _ _ _ Hitem).
      by rewrite decide_True by done. }
    simpl. split_and!; [by eapply tileAt_setTile_eq|done|].
    unfold flagTile. simpl.
    rewrite (changeBoardItem_found _ _ _ _ _ _ (tileAt_setTile_eq _ _ _ _ _ Hitem)).
    simpl.
    rewrite (setTile_setTile _ _ _ _ _ _ Hitem).
    replace {| bombState := bombState item; userState := tileUserStates.covered |}
      with item by (destruct item; simpl in *; congruence).
    rewrite (setTile_same _ _ _ _ Hitem).
    replace (flagsCount game + 1 + -1) with (flagsCount game) by lia.
    by destruct game.
  - intros Hflag. unfold flagTile.
    rewrite (changeBoardItem_found _ _ _ _ _ _ Hitem).
    rewrite decide_False, decide_True by congruence. simpl.
    split; [by eapply tileAt_setTile_eq|lia].
  - intros Hother. unfold flagTile.
    rewrite (changeBoardItem_found _ _ _ _ _ _ Hitem).
    rewrite !decide_False by (destruct Hother; congruence). simpl.
    rewrite (setTile_same _ _ _ _ Hitem). by destruct game.
Qed.

Lemma flagTile_toggle_witness :
  (userState {| bombState := tileBombStates.blank;
                userState := tileUserStates.covered |} = tileUserStates.covered →
     tileAt (board (flagTile 1 0 example2x2)) 1 0
     = Some {| bombState := tileBombStates.blank; userState := tileUserStates.flag |}
     ∧ flagsCount (flagTile 1 0 example2x2) = flagsCount example2x2 + 1
     ∧ flagTile 1 0 (flagTile 1 0 example2x2) = example2x2)
  ∧ (userState {| bombState := tileBombStates.blank;
                  userState := tileUserStates.covered |} = tileUserStates.flag →
     tileAt (board (flagTile 1 0 example2x2)) 1 0
     = Some {| bombState := tileBombStates.blank;
               userState := tileUserStates.covered |}
     ∧ flagsCount (flagTile 1 0 example2x2) = flagsCount example2x2 - 1)
  ∧ (userState {| bombState := tileBombStates.blank;
                  userState := tileUserStates.covered |} = tileUserStates.open
     ∨ userState {| bombState := tileBombStates.blank;
                    userState := tileUserStates.covered |} = tileUserStates.hitBomb →
     flagTile 1 0 example2x2 = example2x2).
Proof.
  apply (flagTile_toggle 1 0 example2x2
           {| bombState := tileBombStates.blank;
              userState := tileUserStates.covered |}).
  reflexivity.
Defined.

(** ** Reveals *)

Section Reveal.

Context {Rng : Type}.
Variable difficulties : gmap string Settings.t.
Variable shuffle : list bool → Rng → list bool * Rng.
Variable countProximities : Board → Proximities.
Variable allDirections : list (Z → Z → Z * Z).

Local Abbreviation restart := (restart difficulties shuffle countProximities).
Local Abbreviation regenerated :=
  (regenerated difficulties shuffle countProximities).
Local Abbreviation whileStartsWithBomb :=
  (whileStartsWithBomb difficulties shuffle countProximities).
Local Abbreviation uncoverInNewBoard :=
  (uncoverInNewBoard allDirections).
Local Abbreviation uncoverTile :=
  (uncoverTile difficulties shuffle countProximities allDirections).

(** C3 (amended).  In a playable game, a reveal at an in-bounds cell whose
    tile is open, the tile being free of a bomb or [movesCount] not 0,
    returns the game with the same board, the same [uncoveredCount] and the
    same [flagsCount], and with [movesCount] one more than before. *)
Theorem uncoverTile_open_tile (fuel : nat) (props : Props) (r c now : Z)
    (rng : Rng) (game : Game) (item : Tile) :
  playable game →
  inBounds (rows game) (columns game) r c →
  wellShaped (rows game) (columns game) (proximities game) →
  tileAt (board game) r c = Some item →
  userState item = tileUserStates.open →
  bombState item = tileBombStates.blank ∨ movesCount game ≠ 0 →
  ∃ game',
    uncoverTile (S fuel) props r c now rng game = Ok (Some game', rng)
    ∧ board game' = board game
    ∧ uncoveredCount game' = uncoveredCount game
    ∧ flagsCount game' = flagsCount game
    ∧ movesCount game' = movesCount game + 1.
Proof.
  intros Hplay Hrc Hprox Hitem Hopen Hfirst.
  destruct (wellShaped_get _ _ _ r Hprox (proj1 Hrc)) as (proximitiesRow & Hrow & _).
  unfold uncoverTile. unfold playable in Hplay. rewrite Hplay. cbn [negb].
  assert ((if decide (movesCount game = 0)
           then whileStartsWithBomb (S fuel) props r c (board game)
                  (proximities game) rng
           else Ok (board game, proximities game, rng))
          = Ok (board game, proximities game, rng)) as ->.
  { case_decide; [|done]. simpl. rewrite Hitem.
    destruct Hfirst as [Hblank|]; [|done].
    rewrite decide_False; [done|]. by rewrite Hblank. }
  simpl. rewrite copyBoard_id, Hitem, Hrow, decide_True by done. simpl.
  eexists. split; [done|]. done.
Qed.

(** [gameOver] is set exactly when a tile has just become [hitBomb]. *)
Lemma uncoverInNewBoard_someHitBomb (proximities : Proximities) (rows columns : Z)
    (fuel : nat) (r c : Z) (vars vars' : uncover.t Board) :
  uncoverInNewBoard fuel proximities rows columns r c vars = Ok vars' →
  (uncover.gameOver vars = true ↔ someHitBomb (uncover.newBoard vars)) →
  (uncover.gameOver vars' = true ↔ someHitBomb (uncover.newBoard vars')).
Proof.
  apply (uncoverInNewBoard_rel allDirections proximities rows columns
    (λ v v', (uncover.gameOver v = true ↔ someHitBomb (uncover.newBoard v)) →
             (uncover.gameOver v' = true ↔ someHitBomb (uncover.newBoard v'))));
    clear.
  - split; [by intros v|]. intros v1 v2 v3 H12 H23 H1. by apply H23, H12.
  - intros v r0 c0 prevItem _ Hprev _ Hbomb _. simpl.
    split; [intros _|done].
    exists r0, c0, (changeItemToUncovered prevItem).
    split; [by eapply tileAt_setTile_eq|].
    by rewrite (changeItemToUncovered_bomb _ Hbomb).
  - intros v r0 c0 prevItem Hover Hprev _ Hblank Hiff. simpl.
    split; [done|]. intros (r1 & c1 & item & Hitem & Hhit).
    rewrite (changeItemToUncovered_blank _ Hblank) in Hitem.
    destruct (decide ((r1, c1) = (r0, c0))) as [[= -> ->]|Hne].
    + rewrite (tileAt_setTile_eq _ _ _ _ _ Hprev) in Hitem.
      injection Hitem as <-. done.
    + rewrite tileAt_setTile_ne in Hitem by done.
      rewrite Hover in Hiff. apply Hiff. by exists r1, c1, item.
Qed.

Lemma allCovered_no_hitBomb (board : Board) :
  allCovered board → ¬ someHitBomb board.
Proof.
  intros Hcovered (r & c & item & Hitem & Hhit).
  apply Hcovered in Hitem. congruence.
Qed.

Lemma restart_allCovered (props : Props) (rng rng' : Rng) (game : Game) :
  restart props rng = Ok (game, rng') → allCovered (board game).
Proof.
  unfold restart. destruct (settingsFor _ _); [|done].
  destruct (shuffle _ _) as [shuffledBombs rng1].
  intros [= <- _] r c item. simpl.
  apply restartBoard_covered.
Qed.

(** The board the loop returns is the board it was given or the board of
    a [restart]. *)
Lemma whileStartsWithBomb_board (props : Props) (r c : Z) (fuel : nat) :
  ∀ board proximities rng board' proximities' rng',
    whileStartsWithBomb fuel props r c board proximities rng
    = Ok (board', proximities', rng') →
    board' = board ∨ allCovered board'.
Proof.
  induction fuel as [|fuel IH];
    intros board proximities rng board' proximities' rng'; simpl;
    (destruct (tileAt board r c) as [item|]; [|done]);
    (destruct (decide (bombState item = _)); [|by intros [= -> _ _]; left]);
    [done|].
  unfold regenerated.
  destruct (restart props rng) as [[game rng1]| |] eqn:Hrestart; simpl; [|done..].
  intros [->|Hcovered]%IH; right; [|done].
  by eapply restart_allCovered.
Qed.

End Reveal.

(** ** The worked examples, run *)

Example example2x2_restart :
  restart ∅ rotations calculations.countProximities example2x2_props 0%nat
  = Ok (example2x2, 1%nat).
Proof. vm_compute. reflexivity. Qed.

Example example2x2_uncover :
  uncoverTile ∅ rotations calculations.countProximities calculations.allDirections
    5 example2x2_props 1 1 0 1%nat example2x2
  = Ok (Some example2x2_moved, 1%nat).
Proof. vm_compute. reflexivity. Qed.


(** C3 (the claim as stated fails).  The game of the example after a reveal
    at row 1, column 1 is playable and has an open tile there; a second
    reveal at the same cell returns a game whose [movesCount] is 2, not 1. *)
Lemma uncoverTile_open_tile_counts_a_move :
  playable example2x2_moved
  ∧ inBounds (rows example2x2_moved) (columns example2x2_moved) 1 1
  ∧ tileAt (board example2x2_moved) 1 1
    = Some {| bombState := tileBombStates.blank; userState := tileUserStates.open |}
  ∧ movesCount example2x2_moved = 1
  ∧ ∃ game',
      uncoverTile ∅ rotations calculations.countProximities
        calculations.allDirections 5 example2x2_props 1 1 0 1%nat example2x2_moved
      = Ok (Some game', 1%nat)
      ∧ movesCount game' = 2
      ∧ movesCount game' ≠ movesCount example2x2_moved.
Proof.
  split_and!; [reflexivity|unfold inBounds; simpl; lia|reflexivity..|].
  eexists. split; [vm_compute; reflexivity|]. by simpl.
Qed.

Lemma uncoverTile_open_tile_witness :
  ∃ game',
    uncoverTile ∅ rotations calculations.countProximities
      calculations.allDirections 5 example2x2_props 1 1 0 1%nat example2x2_moved
    = Ok (Some game', 1%nat)
    ∧ board game' = board example2x2_moved
    ∧ uncoveredCount game' = uncoveredCount example2x2_moved
    ∧ flagsCount game' = flagsCount example2x2_moved
    ∧ movesCount game' = movesCount example2x2_moved + 1.
Proof.
  apply (uncoverTile_open_tile ∅ rotations calculations.countProximities
           calculations.allDirections 4 example2x2_props 1 1 0 1%nat
           example2x2_moved
           {| bombState := tileBombStates.blank;
              userState := tileUserStates.open |}).
  - reflexivity.
  - unfold inBounds. simpl. lia.
  - split; [reflexivity|]. by repeat constructor.
  - reflexivity.
  - reflexivity.
  - left. reflexivity.
Defined.

(** C4 (the code differs from the claim).  Two runs from the game of the
    example in which [flagsCount] is 1 and no tile of the returned board is
    a flag.  In the first, the bomb at row 0, column 0 is flagged after a
    first reveal elsewhere, and is then revealed: the tile becomes
    [hitBomb] and [flagsCount] stays 1.  In the second, the tile at row 1,
    column 1 is flagged before the first reveal, which hits the bomb at row
    0, column 0: the board is regenerated without the flag and [flagsCount]
    stays 1. *)
Theorem uncoverTile_leaves_flagsCount_behind :
  (let flagged := flagTile 0 0 example2x2_moved in
   flagsCount flagged = 1 ∧ flagsOnBoard (board flagged) = 1
   ∧ ∃ game',
       uncoverTile ∅ rotations calculations.countProximities
         calculations.allDirections 5 example2x2_props 0 0 0 1%nat flagged
       = Ok (Some game', 1%nat)
       ∧ tileAt (board game') 0 0
         = Some {| bombState := tileBombStates.bomb;
                   userState := tileUserStates.hitBomb |}
       ∧ flagsCount game' = 1 ∧ flagsOnBoard (board game') = 0)
  ∧ (let flagged := flagTile 1 1 example2x2 in
     flagsCount flagged = 1 ∧ flagsOnBoard (board flagged) = 1
     ∧ ∃ game',
         uncoverTile ∅ rotations calculations.countProximities
           calculations.allDirections 5 example2x2_props 0 0 0 1%nat flagged
         = Ok (Some game', 2%nat)
         ∧ gameState game' = gameStates.playing
         ∧ flagsCount game' = 1 ∧ flagsOnBoard (board game') = 0).
Proof.
  split; simpl; (split_and!; [reflexivity..|]);
    (eexists; split; [vm_compute; reflexivity|]); by vm_compute.
Qed.

(** C5 (the code differs from the claim).  For 2 columns, 3 rows and
    [bombOdds] 1/2, with the shuffle leaving the markers as they are,
    [restart] stores [bombsCount = 3] and builds a board with 2 bombs; the
    first reveal, at row 2, column 0, opens 4 tiles:
    [uncoveredCount = 4 > 2 * 3 - 3], and the game goes on as [playing]. *)
Theorem uncoverTile_uncovers_more_than_blanks :
  ∃ game game',
    restart ∅ rotations calculations.countProximities
      (settingsOf 2 3 (QArith_base.Qmake 1 2)) 0%nat = Ok (game, 1%nat)
    ∧ bombsCount game = 3
    ∧ bombsOnBoard (board game) = 2
    ∧ uncoverTile ∅ rotations calculations.countProximities
        calculations.allDirections 10 (settingsOf 2 3 (QArith_base.Qmake 1 2))
        2 0 0 1%nat game
      = Ok (Some game', 1%nat)
    ∧ gameState game' = gameStates.playing
    ∧ uncoveredCount game' = 4
    ∧ columns game' * rows game' - bombsCount game' = 3.
Proof.
  eexists _, _. split; [vm_compute; reflexivity|].
  split; [reflexivity|]. split; [reflexivity|].
  split; [vm_compute; reflexivity|].
  split_and!; reflexivity.
Qed.

Lemma uncoverInNewBoard_only_target_hitBomb_witness :
  (uncover.gameOver example3x3_flooded = true ↔
     ∃ item, tileAt (uncover.newBoard example3x3_vars) 2 2 = Some item
       ∧ bombState item = tileBombStates.bomb
       ∧ userState item ≠ tileUserStates.open)
  ∧ (∀ r' c', (r', c') ≠ (2, 2) →
       tileAt (uncover.newBoard example3x3_flooded) r' c'
       = tileAt (uncover.newBoard example3x3_vars) r' c'
       ∨ ∃ item, tileAt (uncover.newBoard example3x3_vars) r' c' = Some item
           ∧ bombState item = tileBombStates.blank
           ∧ userState item ≠ tileUserStates.open
           ∧ tileAt (uncover.newBoard example3x3_flooded) r' c'
             = Some {| bombState := tileBombStates.blank;
                       userState := tileUserStates.open |})
  ∧ (∀ r' c' item, (r', c') ≠ (2, 2) →
       tileAt (uncover.newBoard example3x3_flooded) r' c' = Some item →
       userState item = tileUserStates.hitBomb →
       tileAt (uncover.newBoard example3x3_vars) r' c' = Some item).
Proof.
  apply (uncoverInNewBoard_only_target_hitBomb calculations.allDirections
           (calculations.countProximities example3x3) 3 3
           calculations_neighbourly 20 2 2 example3x3_vars example3x3_flooded).
  - apply calculations_consistent.
  - unfold inBounds. lia.
  - reflexivity.
  - vm_compute. reflexivity.
Defined.


(** The first reveal of the example's game at its bomb, the random source
    being at its second call: the board is regenerated once, the bomb moves
    to row 1, column 1, and the tile at row 0, column 0 is opened. *)
Example example2x2_first_move_on_bomb :
  ∃ game',
    uncoverTile ∅ rotations calculations.countProximities
      calculations.allDirections 5 example2x2_props 0 0 0 1%nat example2x2
    = Ok (Some game', 2%nat)
    ∧ gameState game' = gameStates.playing
    ∧ hasBomb (board game') 1 1 = true
    ∧ tileAt (board game') 0 0
      = Some {| bombState := tileBombStates.blank;
                userState := tileUserStates.open |}.
Proof. eexists. split; [vm_compute; reflexivity|]. by vm_compute. Qed.

(** ** What every game satisfies *)

Lemma tileAt_setTile (board : Board) (r c r' c' : Z) (item old : Tile) :
  tileAt board r c = Some old →
  tileAt (setTile board r c item) r' c'
  = if decide ((r', c') = (r, c)) then Some item else tileAt board r' c'.
Proof.
  intros Hold. case_decide as Heq.
  - injection Heq as -> ->. by eapply tileAt_setTile_eq.
  - by apply tileAt_setTile_ne.
Qed.

(** Writing a tile with the same [bombState] and a [userState] that fits
    it keeps what the invariant says of the board. *)
Lemma setTile_keeps (board : Board) (r c : Z) (item old : Tile) :
  tileAt board r c = Some old →
  bombState item = bombState old →
  (userState item = tileUserStates.open → bombState item = tileBombStates.blank) →
  (userState item = tileUserStates.hitBomb → bombState item = tileBombStates.bomb) →
  (∀ r' c', hasBomb (setTile board r c item) r' c' = hasBomb board r' c')
  ∧ (uncoveredRight board → uncoveredRight (setTile board r c item))
  ∧ (userState item ≠ tileUserStates.hitBomb →
     ¬ someHitBomb board → ¬ someHitBomb (setTile board r c item)).
Proof.
  intros Hold Hbomb Hopen Hhit. split_and!.
  - intros r' c'. unfold hasBomb. rewrite (tileAt_setTile _ _ _ _ _ _ _ Hold).
    case_decide as Heq; [|done]. injection Heq as -> ->.
    by rewrite Hold, Hbomb.
  - intros Hright r' c' item'. rewrite (tileAt_setTile _ _ _ _ _ _ _ Hold).
    case_decide; [by intros [= <-]|apply Hright].
  - intros Hnot Hnone (r' & c' & item' & Hitem' & Hhit').
    rewrite (tileAt_setTile _ _ _ _ _ _ _ Hold) in Hitem'.
    case_decide; [by injection Hitem' as <-|].
    apply Hnone. by exists r', c', item'.
Qed.

Lemma changeItemToUncovered_fits (item : Tile) :
  bombState (changeItemToUncovered item) = bombState item
  ∧ (userState (changeItemToUncovered item) = tileUserStates.open →
     bombState (changeItemToUncovered item) = tileBombStates.blank)
  ∧ (userState (changeItemToUncovered item) = tileUserStates.hitBomb →
     bombState (changeItemToUncovered item) = tileBombStates.bomb).
Proof.
  unfold changeItemToUncovered. case_decide as Hbomb; simpl; [by rewrite Hbomb|].
  split_and!; [done| |done]. by destruct (bombState item).
Qed.

Lemma changeBoardItem_missing {V : Type} (board : Board) (r c : Z)
    (changeItem : Tile → V → Tile * V) (s : V) :
  tileAt board r c = None →
  changeBoardItem board r c changeItem s = (board, s).
Proof.
  intros Hnone. unfold changeBoardItem.
  rewrite (mapIndexed_single _ r
    (λ row s, match get row c with
              | Some item => (set row c (changeItem item s).1, (changeItem item s).2)
              | None => (row, s)
              end)).
  - rewrite Z.sub_0_r. unfold tileAt in Hnone.
    destruct (get board r) as [row|] eqn:Hrow; [|done]. simpl in *.
    rewrite Hnone. simpl. f_equal.
    apply get_Some in Hrow as [Hr Hrow]. unfold set.
    rewrite decide_True by done. by apply list_insert_id.
  - intros row' s'.
    rewrite (mapIndexed_single _ c changeItem).
    + by rewrite Z.sub_0_r.
    + intros x s0. by rewrite !bool_decide_eq_true_2.
    + intros x i s0 Hi. rewrite (bool_decide_eq_false_2 (c = i)) by done.
      by rewrite andb_false_r.
  - intros row' i s' Hi. apply mapIndexed_unchanged.
    intros x j s0 _. by rewrite (bool_decide_eq_false_2 (r = i)) by done.
Qed.

(** [flagTile] leaves the board as it is or turns one tile from covered to
    flag or back; of the other fields it changes [flagsCount] only. *)
Lemma flagTile_board (r c : Z) (game : Game) :
  (board (flagTile r c game) = board game
   ∨ ∃ old item,
       tileAt (board game) r c = Some old
       ∧ bombState item = bombState old
       ∧ (userState item = tileUserStates.flag
          ∨ userState item = tileUserStates.covered)
       ∧ (userState old = tileUserStates.flag
          ∨ userState old = tileUserStates.covered)
       ∧ board (flagTile r c game) = setTile (board game) r c item)
  ∧ gameState (flagTile r c game) = gameState game
  ∧ rows (flagTile r c game) = rows game
  ∧ columns (flagTile r c game) = columns game
  ∧ proximities (flagTile r c game) = proximities game
  ∧ bombsCount (flagTile r c game) = bombsCount game
  ∧ uncoveredCount (flagTile r c game) = uncoveredCount game
  ∧ movesCount (flagTile r c game) = movesCount game.
Proof.
  split; [|by unfold flagTile; destruct (changeBoardItem _ _ _ _ _)].
  unfold flagTile.
  destruct (tileAt (board game) r c) as [old|] eqn:Hold.
  - rewrite (changeBoardItem_found _ _ _ _ _ _ Hold).
    repeat case_decide; simpl.
    + right. exists old, {| bombState := bombState old;
                            userState := tileUserStates.flag |}.
      split_and!; [done..|by left|by right|done].
    + right. exists old, {| bombState := bombState old;
                            userState := tileUserStates.covered |}.
      split_and!; [done..|by right|by left|done].
    + left. by apply setTile_same.
  - rewrite (changeBoardItem_missing _ _ _ _ _ Hold). by left.
Qed.

Lemma consistent_hasBomb (rows columns : Z) (before after : Board)
    (proximities : Proximities) :
  (∀ r c, hasBomb after r c = hasBomb before r c) →
  consistent rows columns before proximities →
  consistent rows columns after proximities.
Proof.
  intros Hsame Hcons r c Hrc Hzero r' c' Hadj Hrc'. rewrite Hsame.
  exact (Hcons r c Hrc Hzero r' c' Hadj Hrc').
Qed.

Lemma allCovered_uncoveredRight (board : Board) :
  allCovered board → uncoveredRight board.
Proof.
  intros Hcovered r c item Hitem. apply Hcovered in Hitem.
  rewrite Hitem. by split.
Qed.

Section Invariant.

Context {Rng : Type}.
Variable difficulties : gmap string Settings.t.
Variable shuffle : list bool → Rng → list bool * Rng.
Variable countProximities : Board → Proximities.
Variable allDirections : list (Z → Z → Z * Z).

Hypothesis countProximities_consistent : ∀ rows columns board,
  wellShaped rows columns board →
  consistent rows columns board (countProximities board).
Hypothesis countProximities_wellShaped : ∀ rows columns board,
  wellShaped rows columns board →
  wellShaped rows columns (countProximities board).

Local Abbreviation restart := (restart difficulties shuffle countProximities).
Local Abbreviation whileStartsWithBomb :=
  (whileStartsWithBomb difficulties shuffle countProximities).
Local Abbreviation uncoverInNewBoard :=
  (uncoverInNewBoard allDirections).
Local Abbreviation uncoverTile :=
  (uncoverTile difficulties shuffle countProximities allDirections).
Local Abbreviation reachable :=
  (reachable difficulties shuffle countProximities allDirections).

(** The flood fill keeps the shape of the board and the places of the
    bombs, and opens and explodes the right tiles. *)
Lemma uncoverInNewBoard_keeps (proximities : Proximities) (rows columns : Z)
    (fuel : nat) (r c : Z) (vars vars' : uncover.t Board) :
  uncoverInNewBoard fuel proximities rows columns r c vars = Ok vars' →
  (wellShaped rows columns (uncover.newBoard vars) →
   wellShaped rows columns (uncover.newBoard vars'))
  ∧ (∀ r' c', hasBomb (uncover.newBoard vars') r' c'
              = hasBomb (uncover.newBoard vars) r' c')
  ∧ (uncoveredRight (uncover.newBoard vars) →
     uncoveredRight (uncover.newBoard vars')).
Proof.
  assert (∀ (v : uncover.t Board) r0 c0 prevItem,
    tileAt (uncover.newBoard v) r0 c0 = Some prevItem →
    let after := setTile (uncover.newBoard v) r0 c0
                   (changeItemToUncovered prevItem) in
    (wellShaped rows columns (uncover.newBoard v) → wellShaped rows columns after)
    ∧ (∀ r' c', hasBomb after r' c' = hasBomb (uncover.newBoard v) r' c')
    ∧ (uncoveredRight (uncover.newBoard v) → uncoveredRight after)) as Hstep.
  { intros v r0 c0 prevItem Hprev after.
    destruct (changeItemToUncovered_fits prevItem) as (Hbomb & Hopen & Hhit).
    destruct (setTile_keeps _ r0 c0 _ _ Hprev Hbomb Hopen Hhit)
      as (Hsame & Hright & _).
    split_and!; [|done..]. apply wellShaped_setTile. }
  apply (uncoverInNewBoard_rel allDirections proximities rows columns
    (λ v v',
       (wellShaped rows columns (uncover.newBoard v) →
        wellShaped rows columns (uncover.newBoard v'))
       ∧ (∀ r' c', hasBomb (uncover.newBoard v') r' c'
                   = hasBomb (uncover.newBoard v) r' c')
       ∧ (uncoveredRight (uncover.newBoard v) →
          uncoveredRight (uncover.newBoard v')))).
  - split; [by intros v|].
    intros v1 v2 v3 (Hs12 & Hb12 & Hr12) (Hs23 & Hb23 & Hr23).
    split_and!; [by auto| |by auto]. intros. by rewrite Hb23.
  - intros v r0 c0 prevItem _ Hprev _ _. by apply Hstep.
  - intros v r0 c0 prevItem _ Hprev _ _. by apply Hstep.
Qed.

(** The board and the proximities that the loop returns are those it was
    given or those of a [restart]. *)
Lemma whileStartsWithBomb_origin (props : Props) (r c : Z) (fuel : nat) :
  ∀ board0 proximities0 rng board1 proximities1 rng',
    whileStartsWithBomb fuel props r c board0 proximities0 rng
    = Ok (board1, proximities1, rng') →
    (board1 = board0 ∧ proximities1 = proximities0)
    ∨ ∃ rng0 game rng1,
        restart props rng0 = Ok (game, rng1)
        ∧ board1 = board game ∧ proximities1 = proximities game.
Proof.
  induction fuel as [|fuel IH];
    intros board0 proximities0 rng board1 proximities1 rng'; simpl;
    (destruct (tileAt board0 r c) as [item|]; [|done]);
    (destruct (decide (bombState item = _)); [|by intros [= -> -> _]; left]);
    [done|].
  unfold regenerated.
  destruct (restart props rng) as [[game rng1]| |] eqn:Hrestart; simpl; [|done..].
  intros [[-> ->]|Hrestarted]%IH; right; [|done].
  by exists rng, game, rng1.
Qed.

Variable props : Props.
Variable settings : Settings.t.
Hypothesis props_settings : settingsFor difficulties props = Some settings.

Local Abbreviation rows0 := (Settings.rows settings).
Local Abbreviation columns0 := (Settings.columns settings).

Lemma restart_invariant (rng rng' : Rng) (game : Game) :
  restart props rng = Ok (game, rng') →
  invariant rows0 columns0 game ∧ allCovered (board game).
Proof using props_settings countProximities_consistent countProximities_wellShaped.
  intros Hrestart.
  destruct (restart_Ok difficulties shuffle countProximities props settings
              props_settings rng)
    as (game0 & rng0 & Hrestart0 & Hfresh & Hrows & Hcolumns
        & [shuffledBombs Hboard] & Hprox & _).
  rewrite Hrestart in Hrestart0. injection Hrestart0 as <- <-.
  pose proof (restartBoard_wellShaped columns0 rows0 shuffledBombs) as Hshape.
  pose proof (restart_allCovered _ _ _ _ _ _ _ Hrestart) as Hcovered.
  split; [|done]. unfold invariant, wellFormed.
  rewrite Hprox, Hboard in *.
  split_and!; [done..|by auto|by auto|by apply allCovered_uncoveredRight|].
  intros _. by apply allCovered_no_hitBomb.
Qed.

(** Every game that the handlers produce has a board and proximities of
    the dimensions of the settings, proximities consistent with the board,
    open tiles without a bomb and, while it is playable, no [hitBomb]
    tile. *)
Theorem reachable_invariant (game : Game) :
  reachable props game → invariant rows0 columns0 game.
Proof using props_settings countProximities_consistent countProximities_wellShaped.
  induction 1 as [rng game rng' Hinitial
                 |game _ IH
                 |rng game game' rng' _ _ Hrestart
                 |now game game' _ IH Hbegin
                 |fuel r c now rng game game' rng' _ IH Hrun
                 |r c game _ IH].
  - by apply restart_invariant in Hinitial as [? _].
  - destruct IH as (? & ? & ? & ? & _). unfold invariant. simpl.
    split_and!; [done..|]. by intros.
  - unfold completeRestart in Hrestart.
    destruct (restart props rng) as [[newGame rng1]| |] eqn:Hnew; [|done..].
    simpl in Hrestart. injection Hrestart as <- _.
    apply restart_invariant in Hnew as [(? & ? & ? & ? & _) Hcovered].
    unfold invariant. simpl. split_and!; [done..|].
    intros _. by apply allCovered_no_hitBomb.
  - unfold beginUncoverTile in Hbegin.
    destruct (canPlayForGameState (gameState game)) eqn:Hplay; [|done].
    simpl in Hbegin. injection Hbegin as <-.
    destruct IH as (? & ? & ? & ? & Hnone). unfold invariant. simpl.
    split_and!; [done..|]. intros _. by apply Hnone.
  - destruct IH as (Hrows & Hcolumns & Hwf & Hright & Hnone).
    revert Hrun. unfold uncoverTile.
    destruct (canPlayForGameState (gameState game)) eqn:Hplay;
      [|by intros [=]]. cbn [negb].
    destruct (if decide (movesCount game = 0) then _ else _)
      as [[[board1 proximities1] rng1]| |] eqn:Hloop; [|done..].
    assert (wellFormed rows0 columns0 board1 proximities1
            ∧ uncoveredRight board1 ∧ ¬ someHitBomb board1)
      as ((Hshape1 & Hprox1 & Hcons1) & Hright1 & Hnone1).
    { assert ((board1 = board game ∧ proximities1 = proximities game)
              ∨ ∃ rng0 game0 rng2,
                  restart props rng0 = Ok (game0, rng2)
                  ∧ board1 = board game0 ∧ proximities1 = proximities game0)
        as [[-> ->]|(rng0 & game0 & rng2 & Hrestart & -> & ->)].
      { destruct (decide (movesCount game = 0)).
        - by eapply whileStartsWithBomb_origin.
        - injection Hloop as <- <- _. by left. }
      - split_and!; [done..|]. by apply Hnone.
      - apply restart_invariant in Hrestart as [(_ & _ & ? & ? & _) Hcovered].
        split_and!; [done..|]. by apply allCovered_no_hitBomb. }
    simpl.
    destruct (uncoverInNewBoard fuel _ _ _ _ _ _) as [vars| |] eqn:Hflood;
      [|done..].
    simpl. intros [= <- _].
    pose proof (uncoverInNewBoard_keeps _ _ _ _ _ _ _ _ Hflood)
      as (Hshape & Hsame & Hright').
    apply uncoverInNewBoard_someHitBomb in Hflood.
    2:{ simpl. rewrite copyBoard_id. split; [done|]. by intros ?%Hnone1. }
    simpl in *. rewrite copyBoard_id in *. rewrite Hrows, Hcolumns in *.
    unfold invariant, wellFormed. simpl.
    split_and!; [done..|by auto| |by eapply consistent_hasBomb|by auto|].
    { done. }
    unfold playable. simpl. rewrite <- Hflood.
    destruct (uncover.gameOver vars); [done|]. by intros _.
  - destruct IH as (Hrows & Hcolumns & (Hshape & Hprox & Hcons) & Hright & Hnone).
    destruct (flagTile_board r c game)
      as (Hboard & Hstate & Hrows' & Hcolumns' & Hprox' & _).
    unfold invariant, wellFormed, playable.
    rewrite Hstate, Hrows', Hcolumns', Hprox'.
    destruct Hboard as [->|(old & item & Hold & Hbomb & Huser & _ & ->)];
      [done|].
    destruct (setTile_keeps _ r c item old Hold Hbomb) as (Hsame & Hright' & Hnone').
    + by destruct Huser as [-> | ->].
    + by destruct Huser as [-> | ->].
    + split_and!; [done..|by apply wellShaped_setTile|done
                   |by eapply consistent_hasBomb|by auto|].
      intros Hplay. apply Hnone'; [|by apply Hnone].
      by destruct Huser as [-> | ->].
Qed.

End Invariant.

(** ** The objects that a reveal writes *)

#[local] Instance preserved_PreOrder : PreOrder store.preserved.
Proof.
  split.
  - by intros σ l.
  - intros σ1 σ2 σ3 H12 H23 l Hl. rewrite H23, H12; [done..|].
    apply elem_of_dom. rewrite H12 by done. by apply elem_of_dom.
Qed.

Lemma preserved_dom (σ σ' : store.Store) :
  store.preserved σ σ' → dom σ ⊆ dom σ'.
Proof.
  intros H l Hl. apply elem_of_dom. rewrite H by done. by apply elem_of_dom.
Qed.

Lemma alloc_preserved (σ σ' : store.Store) (object : store.Object) (l : store.ref) :
  store.alloc σ object = (l, σ') →
  store.preserved σ σ' ∧ (l ∉ dom σ) ∧ σ' !! l = Some object.
Proof.
  unfold store.alloc. intros [= <- <-].
  pose proof (is_fresh (dom σ)) as Hfresh.
  split_and!; [|done|by apply lookup_insert_eq].
  intros l Hl. apply lookup_insert_ne. by intros <-.
Qed.

Lemma mapSlice_preserved (rows : list store.ref) :
  ∀ σ rows' σ',
    store.mapSlice σ rows = Ok (rows', σ') →
    store.preserved σ σ' ∧ ∀ row, row ∈ rows' → row ∉ dom σ.
Proof.
  induction rows as [|row rows IH]; intros σ rows' σ'; simpl.
  { intros [= <- <-]. split; [done|]. by intros row ?%elem_of_nil. }
  unfold store.slice. destruct (store.getRow σ row) as [items|]; [|done].
  destruct (store.alloc σ (store.Row items)) as [row1 σ1] eqn:Halloc. simpl.
  apply alloc_preserved in Halloc as (Hpres1 & Hfresh1 & _).
  destruct (store.mapSlice σ1 rows) as [[rows1 σ2]| |] eqn:Hrest; simpl; [|done..].
  intros [= <- <-]. apply IH in Hrest as [Hpres2 Hfresh2].
  split; [by transitivity σ1|].
  intros l [->|Hl]%elem_of_cons; [done|].
  intros Hdom. by apply (Hfresh2 l Hl), (preserved_dom _ _ Hpres1).
Qed.

(** [copyBoard] writes no object of the store: the copy and its rows are
    new arrays. *)
Lemma copyBoard_preserved (σ σ' : store.Store) (board newBoard : store.ref) :
  store.copyBoard σ board = Ok (newBoard, σ') →
  store.preserved σ σ'
  ∧ (newBoard ∉ dom σ)
  ∧ ∃ rows', store.getRows σ' newBoard = Some rows'
      ∧ ∀ row, row ∈ rows' → row ∉ dom σ.
Proof.
  unfold store.copyBoard. destruct (store.getRows σ board) as [rows|]; [|done].
  destruct (store.mapSlice σ rows) as [[rows' σ1]| |] eqn:Hrows; simpl; [|done..].
  apply mapSlice_preserved in Hrows as [Hpres1 Hfresh].
  intros Halloc%Ok_inj.
  apply alloc_preserved in Halloc as (Hpres2 & Hnew & Hlookup).
  split_and!.
  - by transitivity σ1.
  - intros Hdom. by apply Hnew, (preserved_dom _ _ Hpres1).
  - exists rows'. unfold store.getRows. by rewrite Hlookup.
Qed.

Lemma allocItems_preserved (tiles : list Tile) :
  ∀ σ items σ', store.allocItems σ tiles = (items, σ') → store.preserved σ σ'.
Proof.
  induction tiles as [|tile tiles IH]; intros σ items σ'; cbn [store.allocItems].
  { by intros [= _ <-]. }
  destruct (store.alloc σ (store.Item tile)) as [item σ1] eqn:Halloc.
  destruct (store.allocItems σ1 tiles) as [items1 σ2] eqn:Hrest.
  intros [= _ <-]. apply alloc_preserved in Halloc as (Hpres1 & _).
  apply IH in Hrest. by transitivity σ1.
Qed.

Lemma allocRows_preserved (grid : Board) :
  ∀ σ rows σ', store.allocRows σ grid = (rows, σ') → store.preserved σ σ'.
Proof.
  induction grid as [|tiles grid IH]; intros σ rows σ'; cbn [store.allocRows].
  { by intros [= _ <-]. }
  destruct (store.allocItems σ tiles) as [items σ1] eqn:Hitems.
  destruct (store.alloc σ1 (store.Row items)) as [row σ2] eqn:Halloc.
  destruct (store.allocRows σ2 grid) as [rows1 σ3] eqn:Hrest.
  intros [= _ <-]. apply allocItems_preserved in Hitems.
  apply alloc_preserved in Halloc as (Hpres2 & _).
  apply IH in Hrest. transitivity σ1; [done|]. by transitivity σ2.
Qed.

Lemma allocBoard_preserved (σ σ' : store.Store) (grid : Board) (board : store.ref) :
  store.allocBoard σ grid = (board, σ') → store.preserved σ σ'.
Proof.
  unfold store.allocBoard.
  destruct (store.allocRows σ grid) as [rows σ1] eqn:Hrows.
  intros (Hpres & _)%alloc_preserved.
  apply allocRows_preserved in Hrows. by transitivity σ1.
Qed.

#[local] Instance within_PreOrder (board : store.ref) : PreOrder (store.within board).
Proof.
  split.
  - by intros σ.
  - intros σ1 σ2 σ3 [Hrows12 H12] [Hrows23 H23]. split; [congruence|].
    intros l Hl Hrows. rewrite H23, H12; [done..| |by rewrite Hrows12].
    apply elem_of_dom. rewrite H12 by done. by apply elem_of_dom.
Qed.

#[local] Instance flooded_PreOrder : PreOrder store.flooded.
Proof.
  split.
  - by intros [vars σ].
  - intros [v1 σ1] [v2 σ2] [v3 σ3] [Hb12 H12] [Hb23 H23]. simpl in *.
    split; simpl; [congruence|]. rewrite Hb12 in H23. by transitivity σ2.
Qed.

Lemma setItem_within (σ : store.Store) (board : store.ref) (r c : Z)
    (item : store.ref) :
  store.within board σ (store.setItem σ board r c item).
Proof.
  unfold store.setItem.
  destruct (store.getRows σ board) as [rows|] eqn:Hrows; [|done].
  destruct (get rows r) as [row|] eqn:Hrow; [|done].
  destruct (store.getRow σ row) as [items|] eqn:Hitems; [|done].
  assert (row ≠ board) as Hne.
  { intros ->. unfold store.getRows, store.getRow in *.
    by destruct (σ !! board) as [[]|]. }
  split.
  - unfold store.getRows. by rewrite lookup_insert_ne.
  - intros l _ Hl. apply lookup_insert_ne. intros <-.
    apply (Hl rows Hrows).
    apply get_Some in Hrow as [_ Hrow]. by eapply list_elem_of_lookup_2.
Qed.

Lemma alloc_within (σ σ' : store.Store) (board l : store.ref) (tile : Tile) :
  store.alloc σ (store.Item tile) = (l, σ') →
  store.within board σ σ'.
Proof.
  unfold store.alloc. intros [= <- <-].
  pose proof (is_fresh (dom σ)) as Hfresh. split.
  - unfold store.getRows.
    destruct (decide (fresh (dom σ) = board)) as [<-|Hne].
    + rewrite lookup_insert_eq. apply not_elem_of_dom in Hfresh.
      by rewrite Hfresh.
    + by rewrite lookup_insert_ne.
  - intros l' Hl' _. apply lookup_insert_ne. by intros <-.
Qed.

Lemma preserved_getRows (σ σ' : store.Store) (board : store.ref)
    (rows : list store.ref) :
  store.preserved σ σ' →
  store.getRows σ board = Some rows → store.getRows σ' board = Some rows.
Proof.
  intros Hpres. unfold store.getRows. intros Hrows.
  rewrite Hpres; [done|]. apply elem_of_dom. by destruct (σ !! board).
Qed.

Lemma preserved_getRow (σ σ' : store.Store) (row : store.ref)
    (items : list store.ref) :
  store.preserved σ σ' →
  store.getRow σ row = Some items → store.getRow σ' row = Some items.
Proof.
  intros Hpres. unfold store.getRow. intros Hitems.
  rewrite Hpres; [done|]. apply elem_of_dom. by destruct (σ !! row).
Qed.

Lemma preserved_getItem (σ σ' : store.Store) (item : store.ref) (tile : Tile) :
  store.preserved σ σ' →
  store.getItem σ item = Some tile → store.getItem σ' item = Some tile.
Proof.
  intros Hpres. unfold store.getItem. intros Htile.
  rewrite Hpres; [done|]. apply elem_of_dom. by destruct (σ !! item).
Qed.

Lemma preserved_readRow (σ σ' : store.Store) (row : store.ref)
    (tiles : list Tile) :
  store.preserved σ σ' →
  store.readRow σ row = Some tiles → store.readRow σ' row = Some tiles.
Proof.
  intros Hpres. unfold store.readRow.
  destruct (store.getRow σ row) as [items|] eqn:Hitems; simpl; [|done].
  rewrite (preserved_getRow _ _ _ _ Hpres Hitems). simpl.
  rewrite !mapM_Some. intros Hall. eapply Forall2_impl; [exact Hall|].
  intros item tile. by apply preserved_getItem.
Qed.

Lemma preserved_contents (σ σ' : store.Store) (board : store.ref) (grid : Board) :
  store.preserved σ σ' →
  store.contents σ board = Some grid →
  store.contents σ' board = Some grid.
Proof.
  intros Hpres. unfold store.contents.
  destruct (store.getRows σ board) as [rows|] eqn:Hrows; simpl; [|done].
  rewrite (preserved_getRows _ _ _ _ Hpres Hrows). simpl.
  rewrite !mapM_Some. intros Hall. eapply Forall2_impl; [exact Hall|].
  intros row tiles. by apply preserved_readRow.
Qed.

Lemma preserved_tileAt (σ σ' : store.Store) (board : store.ref) (r c : Z)
    (tile : Tile) :
  store.preserved σ σ' →
  store.tileAt σ board r c = Some tile →
  store.tileAt σ' board r c = Some tile.
Proof.
  intros Hpres. unfold store.tileAt.
  destruct (store.getRows σ board) as [rows|] eqn:Hrows; simpl; [|done].
  rewrite (preserved_getRows _ _ _ _ Hpres Hrows). simpl.
  destruct (get rows r) as [row|]; simpl; [|done].
  destruct (store.getRow σ row) as [items|] eqn:Hitems; simpl; [|done].
  rewrite (preserved_getRow _ _ _ _ Hpres Hitems). simpl.
  destruct (get items c) as [item|]; simpl; [|done].
  by apply preserved_getItem.
Qed.

Section StoreFrame.

Context {Rng : Type}.
Variable difficulties : gmap string Settings.t.
Variable shuffle : list bool → Rng → list bool * Rng.
Variable countProximities : Board → Proximities.
Variable allDirections : list (Z → Z → Z * Z).

Local Abbreviation storeRestart :=
  (store.restart difficulties shuffle countProximities).
Local Abbreviation regenerated :=
  (store.regenerated difficulties shuffle countProximities).
Local Abbreviation whileStartsWithBomb :=
  (store.whileStartsWithBomb difficulties shuffle countProximities).
Local Abbreviation uncoverInNewBoard :=
  (store.uncoverInNewBoard allDirections).
Local Abbreviation uncoverTile :=
  (store.uncoverTile difficulties shuffle countProximities allDirections).

Lemma store_restart_preserved (props : Props) (rng rng' : Rng)
    (σ σ' : store.Store) (game : GameOf store.ref) :
  storeRestart props rng σ = Ok (game, rng', σ') → store.preserved σ σ'.
Proof.
  unfold storeRestart.
  destruct (restart difficulties shuffle countProximities props rng)
    as [[game0 rng0]| |]; simpl; [|done..].
  destruct (store.allocBoard σ (board game0)) as [newBoard σ1] eqn:Halloc.
  intros [= _ _ <-]. by eapply allocBoard_preserved.
Qed.

Lemma store_whileStartsWithBomb_preserved (props : Props) (r c : Z) (fuel : nat) :
  ∀ board proximities rng σ board' proximities' rng' σ',
    whileStartsWithBomb fuel props r c board proximities rng σ
    = Ok (board', proximities', rng', σ') →
    store.preserved σ σ'.
Proof.
  induction fuel as [|fuel IH];
    intros board proximities rng σ board' proximities' rng' σ'; simpl;
    (destruct (store.tileAt σ board r c) as [item|]; [|done]);
    (destruct (decide (bombState item = _)); [|by intros [= _ _ _ <-]]);
    [done|].
  unfold regenerated.
  destruct (storeRestart props rng σ) as [[[game rng1] σ1]| |] eqn:Hrestart;
    simpl; [|done..].
  intros Hloop%IH. apply store_restart_preserved in Hrestart.
  by transitivity σ1.
Qed.

(** The flood fill builds new tiles and assigns into rows of [newBoard]
    only; it leaves [newBoard] the outer array of the same rows. *)
Lemma store_uncoverInNewBoard_flooded (proximities : Proximities)
    (rows columns : Z) (fuel : nat) :
  ∀ r c vars σ vars' σ',
    uncoverInNewBoard fuel proximities rows columns r c vars σ = Ok (vars', σ') →
    store.flooded (vars, σ) (vars', σ').
Proof.
  induction fuel as [|fuel IH]; intros r c vars σ vars' σ' Hrun; [done|].
  cbn [store.uncoverInNewBoard] in Hrun.
  destruct (uncover.gameOver vars); [by injection Hrun as <- <-|].
  destruct (store.tileAt σ _ r c) as [prevItem|]; [|done].
  destruct (get proximities r); [|done].
  destruct (decide (userState prevItem = _)); [by injection Hrun as <- <-|].
  destruct (store.alloc σ (store.Item (changeItemToUncovered prevItem)))
    as [newItem σ1] eqn:Halloc.
  assert (store.within (uncover.newBoard vars) σ
            (store.setItem σ1 (uncover.newBoard vars) r c newItem)) as Hwrite.
  { transitivity σ1; [by eapply alloc_within|].
    apply setItem_within. }
  destruct (decide (userState (changeItemToUncovered prevItem) = _));
    [by injection Hrun as <- <-|].
  destruct (canExpandTile _ _); [|by injection Hrun as <- <-].
  apply (forEach_rel store.flooded) in Hrun.
  - destruct Hrun as [Hboard Hflood]. simpl in *.
    split; [done|]. simpl.
    by transitivity (store.setItem σ1 (uncover.newBoard vars) r c newItem).
  - intros f [vars1 σ2] [vars2 σ3] _. destruct (f r c) as [r' c'].
    destruct (_ && _); [apply IH|by intros [= <- <-]].
Qed.

(** C9.  Whatever [uncoverTile] returns, every object that the store held
    before the call is in the store after it, as it was: the outer array
    and the rows of the board of the game and the tiles in them, hence every
    tile of that board, its [bombState] and its [userState].  The board of a
    returned game is a new outer array of new rows. *)
Theorem uncoverTile_preserves_board (fuel : nat) (props : Props) (r c now : Z)
    (rng rng' : Rng) (game : GameOf store.ref) (σ σ' : store.Store)
    (returned : option (GameOf store.ref)) :
  uncoverTile fuel props r c now rng game σ = Ok (returned, rng', σ') →
  store.preserved σ σ'
  ∧ (∀ grid, store.contents σ (board game) = Some grid →
       store.contents σ' (board game) = Some grid)
  ∧ (∀ r0 c0 tile, store.tileAt σ (board game) r0 c0 = Some tile →
       store.tileAt σ' (board game) r0 c0 = Some tile)
  ∧ (∀ game', returned = Some game' →
       (board game' ∉ dom σ)
       ∧ ∃ rows', store.getRows σ' (board game') = Some rows'
           ∧ ∀ row, row ∈ rows' → row ∉ dom σ).
Proof.
  intros Hrun.
  cut (store.preserved σ σ'
       ∧ (∀ game', returned = Some game' →
            (board game' ∉ dom σ)
            ∧ ∃ rows', store.getRows σ' (board game') = Some rows'
                ∧ ∀ row, row ∈ rows' → row ∉ dom σ)).
  { intros [Hpres Hnew]. split_and!; [done| | |done].
    - intros grid. by apply preserved_contents.
    - intros r0 c0 tile. by apply preserved_tileAt. }
  revert Hrun. unfold uncoverTile.
  destruct (negb _); [by intros [= <- _ <-]|].
  destruct (if decide (movesCount game = 0) then _ else _)
    as [[[[board1 proximities1] rng1] σ1]| |] eqn:Hloop; simpl; [|done..].
  assert (store.preserved σ σ1) as Hpres1.
  { destruct (decide (movesCount game = 0)).
    - by eapply store_whileStartsWithBomb_preserved.
    - by injection Hloop as _ _ _ <-. }
  destruct (store.copyBoard σ1 board1) as [[newBoard σ2]| |] eqn:Hcopy;
    simpl; [|done..].
  apply copyBoard_preserved in Hcopy
    as (Hpres2 & Hnew & rows' & Hrows' & Hfresh).
  destruct (uncoverInNewBoard fuel _ _ _ _ _ _ σ2) as [[vars σ3]| |] eqn:Hflood;
    simpl; [|done..].
  apply store_uncoverInNewBoard_flooded in Hflood as [Hboard [Hrows Hwithin]].
  simpl in *. intros [= <- _ <-].
  pose proof (preserved_dom _ _ Hpres1) as Hdom1.
  pose proof (preserved_dom _ _ Hpres2) as Hdom2.
  split.
  - intros l Hl. rewrite Hwithin.
    + rewrite Hpres2, Hpres1; [done..|]. by apply Hdom1.
    + by apply Hdom2, Hdom1.
    + intros rows0. rewrite Hrows'. intros [= <-] Hin.
      by apply (Hfresh l Hin), Hdom1.
  - intros game' [= <-]. simpl. rewrite Hboard. split.
    + intros Hin. by apply Hnew, Hdom1.
    + exists rows'. split; [congruence|].
      intros row Hrow Hin. by apply (Hfresh row Hrow), Hdom1.
Qed.

End StoreFrame.

Lemma uncoverTile_preserves_board_witness :
  store.preserved exampleStore.2 exampleStore_moved.2
  ∧ (∀ grid, store.contents exampleStore.2 (board exampleStore_game) = Some grid →
       store.contents exampleStore_moved.2 (board exampleStore_game) = Some grid)
  ∧ (∀ r0 c0 tile,
       store.tileAt exampleStore.2 (board exampleStore_game) r0 c0 = Some tile →
       store.tileAt exampleStore_moved.2 (board exampleStore_game) r0 c0
       = Some tile)
  ∧ (∀ game', exampleStore_moved.1.1 = Some game' →
       (board game' ∉ dom exampleStore.2)
       ∧ ∃ rows', store.getRows exampleStore_moved.2 (board game') = Some rows'
           ∧ ∀ row, row ∈ rows' → row ∉ dom exampleStore.2).
Proof.
  apply (uncoverTile_preserves_board ∅ rotations calculations.countProximities
           calculations.allDirections 5 example2x2_props 1 1 0 1%nat
           exampleStore_moved.1.2 exampleStore_game).
  vm_compute. reflexivity.
Defined.

(** The example in the store: the board of the game still reads as the
    board of [example2x2], and the board of the returned game reads as the
    board of [example2x2_moved]. *)
Example exampleStore_contents :
  store.contents exampleStore.2 (board exampleStore_game)
  = Some (board example2x2)
  ∧ store.contents exampleStore_moved.2 (board exampleStore_game)
    = Some (board example2x2)
  ∧ (board <$> exampleStore_moved.1.1) ≫= store.contents exampleStore_moved.2
    = Some (board example2x2_moved).
Proof. split_and!; vm_compute; reflexivity. Qed.

(** ** The store model computes what the grid model computes *)

Lemma sameOutcome_bind {A B A' B' : Type} (R : A → B → Prop) (R' : A' → B' → Prop)
    (m1 : Result A) (m2 : Result B) (f1 : A → Result A') (f2 : B → Result B') :
  store.sameOutcome R m1 m2 →
  (∀ a b, R a b → store.sameOutcome R' (f1 a) (f2 b)) →
  store.sameOutcome R' (m1 ≫= f1) (m2 ≫= f2).
Proof. intros [a b Hab|e|] Hf; simpl; [by apply Hf|constructor..]. Qed.

Lemma forEach_sameOutcome {X S1 S2 : Type} (R : S1 → S2 → Prop) (l : list X)
    (body1 : X → S1 → Result S1) (body2 : X → S2 → Result S2) :
  (∀ x s1 s2, R s1 s2 → store.sameOutcome R (body1 x s1) (body2 x s2)) →
  ∀ s1 s2, R s1 s2 →
    store.sameOutcome R (forEach l body1 s1) (forEach l body2 s2).
Proof.
  intros Hbody. induction l as [|x l IH]; intros s1 s2 Hs; simpl.
  - by constructor.
  - eapply sameOutcome_bind; [by apply Hbody|]. apply IH.
Qed.

Lemma Forall2_get {A B : Type} (P : A → B → Prop) (l : list A) (k : list B)
    (i : Z) :
  Forall2 P l k → option_Forall2 P (get l i) (get k i).
Proof.
  intros Hall. unfold get. destruct (decide (0 ≤ i)); [|constructor].
  by apply Forall2_lookup.
Qed.

Lemma Forall2_set {A B : Type} (P : A → B → Prop) (l : list A) (k : list B)
    (i : Z) (x : A) (y : B) :
  Forall2 P l k → P x y → Forall2 P (set l i x) (set k i y).
Proof.
  intros Hall Hxy. unfold set. case_decide; [|done]. by apply Forall2_insert.
Qed.

Lemma represents_contents (σ : store.Store) (board : store.ref) (grid : Board) :
  store.represents σ board grid → store.contents σ board = Some grid.
Proof.
  intros (rows & Hrows & _ & Hall). unfold store.contents.
  rewrite Hrows. simpl. by apply mapM_Some.
Qed.

Lemma readRow_Some (σ : store.Store) (row : store.ref) (tiles : list Tile) :
  store.readRow σ row = Some tiles ↔
  ∃ items, store.getRow σ row = Some items
    ∧ Forall2 (λ item tile, store.getItem σ item = Some tile) items tiles.
Proof.
  unfold store.readRow. destruct (store.getRow σ row) as [items|]; simpl.
  - rewrite mapM_Some. split; [by eauto|]. by intros (? & [= <-] & ?).
  - split; [done|]. by intros (? & ? & _).
Qed.

Lemma contents_tileAt (σ : store.Store) (board : store.ref) (grid : Board)
    (r c : Z) :
  store.contents σ board = Some grid →
  store.tileAt σ board r c = tileAt grid r c.
Proof.
  unfold store.contents, store.tileAt, tileAt.
  destruct (store.getRows σ board) as [rows|]; simpl; [|done].
  intros Hall%mapM_Some.
  destruct (Forall2_get _ _ _ r Hall) as [row tiles Htiles|]; simpl; [|done].
  apply readRow_Some in Htiles as (items & -> & Hitems). simpl.
  by destruct (Forall2_get _ _ _ c Hitems) as [item tile Htile|].
Qed.

(** Building a tile and assigning it into the board does in the store
    what [setTile] does in the grid. *)
Lemma represents_setItem (σ σ1 : store.Store) (board newItem : store.ref)
    (grid : Board) (r c : Z) (tile : Tile) :
  store.represents σ board grid →
  store.alloc σ (store.Item tile) = (newItem, σ1) →
  store.represents (store.setItem σ1 board r c newItem) board
    (setTile grid r c tile).
Proof.
  intros (rows & Hrows & Hdistinct & Hall) (Hpres & Hfresh & Hnew)%alloc_preserved.
  assert (Forall2 (λ row tiles, store.readRow σ1 row = Some tiles) rows grid)
    as Hall1.
  { eapply Forall2_impl; [exact Hall|]. intros ??. by apply preserved_readRow. }
  apply (preserved_getRows _ _ _ _ Hpres) in Hrows.
  unfold store.setItem, setTile. rewrite Hrows.
  pose proof (Forall2_get _ _ _ r Hall1) as Hrow.
  inversion Hrow as [row tiles Htiles Hrow1 Hrow2|Hrow1 Hrow2]; [|by exists rows].
  apply readRow_Some in Htiles as (items & Hitems & Htiles). rewrite Hitems.
  symmetry in Hrow1. symmetry in Hrow2.
  apply get_Some in Hrow1 as [Hr Hrow1]. apply get_Some in Hrow2 as [_ Hrow2].
  assert (∀ l object, σ1 !! l = Some object → (∀ x, object ≠ store.Row x) →
            <[row := store.Row (set items c newItem)]> σ1 !! l = Some object)
    as Hother.
  { intros l object Hl Hkind. rewrite lookup_insert_ne; [done|].
    intros <-. unfold store.getRow in Hitems. rewrite Hl in Hitems.
    destruct object; try done. by apply (Hkind items0). }
  assert (∀ item tile0, store.getItem σ1 item = Some tile0 →
            store.getItem (<[row := store.Row (set items c newItem)]> σ1) item
            = Some tile0) as Hitem.
  { intros item tile0. unfold store.getItem.
    destruct (σ1 !! item) as [[| |tile1]|] eqn:Hl; try done.
    intros [= <-]. by rewrite (Hother _ _ Hl). }
  exists rows. split_and!; [|done|].
  - unfold store.getRows in *.
    destruct (σ1 !! board) as [[rows0| |]|] eqn:Hboard; try done.
    by rewrite (Hother _ _ Hboard).
  - rewrite (set_insert grid) by done.
    apply Forall2_lookup. intros i.
    destruct (decide (i = Z.to_nat r)) as [->|Hi].
    + rewrite Hrow1, list_lookup_insert_eq by (by eapply lookup_lt_Some).
      constructor. apply readRow_Some.
      exists (set items c newItem). split.
      * unfold store.getRow. by rewrite lookup_insert_eq.
      * apply Forall2_set.
        -- eapply Forall2_impl; [exact Htiles|]. apply Hitem.
        -- apply Hitem. unfold store.getItem. by rewrite Hnew.
    + rewrite list_lookup_insert_ne by done.
      pose proof (proj1 (Forall2_lookup _ _ _) Hall1 i) as Hi'.
      inversion Hi' as [row' tiles' Htiles' Hi1 Hi2|]; constructor.
      apply readRow_Some in Htiles' as (items' & Hitems' & Htiles').
      apply readRow_Some. exists items'. split.
      * unfold store.getRow. rewrite lookup_insert_ne; [done|].
        intros <-. symmetry in Hi1.
        by apply Hi, (NoDup_lookup _ _ _ _ Hdistinct Hi1 Hrow1).
      * eapply Forall2_impl; [exact Htiles'|]. apply Hitem.
Qed.

Lemma allocItems_represents (tiles : list Tile) :
  ∀ σ items σ',
    store.allocItems σ tiles = (items, σ') →
    store.preserved σ σ'
    ∧ Forall2 (λ item tile, store.getItem σ' item = Some tile) items tiles.
Proof.
  induction tiles as [|tile tiles IH]; intros σ items σ'; cbn [store.allocItems].
  { intros [= <- <-]. split; [done|constructor]. }
  destruct (store.alloc σ (store.Item tile)) as [item σ1] eqn:Halloc.
  destruct (store.allocItems σ1 tiles) as [items1 σ2] eqn:Hrest.
  intros [= <- <-].
  apply alloc_preserved in Halloc as (Hpres1 & _ & Hitem).
  apply IH in Hrest as (Hpres2 & Hall).
  split; [by transitivity σ1|]. constructor; [|done].
  apply (preserved_getItem σ1); [done|].
  unfold store.getItem. by rewrite Hitem.
Qed.

Lemma allocRows_represents (grid : Board) :
  ∀ σ rows σ',
    store.allocRows σ grid = (rows, σ') →
    store.preserved σ σ'
    ∧ NoDup rows
    ∧ (∀ row, row ∈ rows → row ∉ dom σ)
    ∧ Forall2 (λ row tiles, store.readRow σ' row = Some tiles) rows grid.
Proof.
  induction grid as [|tiles grid IH]; intros σ rows σ'; cbn [store.allocRows].
  { intros [= <- <-]. split_and!; [done|constructor| |constructor].
    by intros row ?%elem_of_nil. }
  destruct (store.allocItems σ tiles) as [items σ1] eqn:Hitems.
  destruct (store.alloc σ1 (store.Row items)) as [row σ2] eqn:Halloc.
  destruct (store.allocRows σ2 grid) as [rows1 σ3] eqn:Hrest.
  intros [= <- <-].
  apply allocItems_represents in Hitems as (Hpres1 & Htiles).
  apply alloc_preserved in Halloc as (Hpres2 & Hfresh2 & Hrow).
  apply IH in Hrest as (Hpres3 & Hdistinct & Hfresh3 & Hall).
  assert (row ∈ dom σ2) as Hdom by (by apply elem_of_dom).
  assert (store.preserved σ σ2) as Hpres12 by (by transitivity σ1).
  split_and!.
  - by transitivity σ2.
  - constructor; [|done]. intros Hin. by apply (Hfresh3 row Hin).
  - intros l [->|Hl]%elem_of_cons.
    + intros Hin. by apply Hfresh2, (preserved_dom _ _ Hpres1).
    + intros Hin. by apply (Hfresh3 l Hl), (preserved_dom _ _ Hpres12).
  - constructor; [|done].
    apply (preserved_readRow σ2); [done|].
    apply readRow_Some. exists items. split.
    + unfold store.getRow. by rewrite Hrow.
    + eapply Forall2_impl; [exact Htiles|].
      intros item tile. by apply preserved_getItem.
Qed.

Lemma allocBoard_represents (σ σ' : store.Store) (grid : Board) (board : store.ref) :
  store.allocBoard σ grid = (board, σ') →
  store.represents σ' board grid.
Proof.
  unfold store.allocBoard.
  destruct (store.allocRows σ grid) as [rows σ1] eqn:Hrows.
  intros (Hpres2 & Hfresh & Hboard)%alloc_preserved.
  apply allocRows_represents in Hrows as (Hpres1 & Hdistinct & _ & Hall).
  exists rows. split_and!; [|done|].
  - unfold store.getRows. by rewrite Hboard.
  - eapply Forall2_impl; [exact Hall|].
    intros row tiles. by apply preserved_readRow.
Qed.

Lemma mapSlice_represents (grid : Board) :
  ∀ σ rows,
    Forall2 (λ row tiles, store.readRow σ row = Some tiles) rows grid →
    ∃ rows' σ',
      store.mapSlice σ rows = Ok (rows', σ')
      ∧ store.preserved σ σ'
      ∧ NoDup rows'
      ∧ (∀ row, row ∈ rows' → row ∉ dom σ)
      ∧ Forall2 (λ row tiles, store.readRow σ' row = Some tiles) rows' grid.
Proof.
  induction grid as [|tiles grid IH]; intros σ rows Hall;
    inversion Hall as [|row ? rows0 ? Hrow Hrest]; subst.
  { exists [], σ. split_and!; [done..|constructor| |constructor].
    by intros row ?%elem_of_nil. }
  cbn [store.mapSlice]. unfold store.slice.
  apply readRow_Some in Hrow as (items & Hitems & Htiles). rewrite Hitems.
  destruct (store.alloc σ (store.Row items)) as [row1 σ1] eqn:Halloc.
  cbn [mbind Result_bind].
  apply alloc_preserved in Halloc as (Hpres1 & Hfresh1 & Hrow1).
  destruct (IH σ1 rows0) as (rows' & σ2 & -> & Hpres2 & Hdistinct & Hfresh2 & Hall2).
  { eapply Forall2_impl; [exact Hrest|]. intros ??. by apply preserved_readRow. }
  cbn [mbind Result_bind].
  assert (row1 ∈ dom σ1) as Hdom by (by apply elem_of_dom).
  eexists _, _. split; [done|]. split_and!.
  - by transitivity σ1.
  - constructor; [|done]. intros Hin. by apply (Hfresh2 row1 Hin).
  - intros l [->|Hl]%elem_of_cons; [done|].
    intros Hin. by apply (Hfresh2 l Hl), (preserved_dom _ _ Hpres1).
  - constructor; [|done].
    apply (preserved_readRow σ1); [done|].
    apply readRow_Some. exists items. split.
    + unfold store.getRow. by rewrite Hrow1.
    + eapply Forall2_impl; [exact Htiles|].
      intros item tile. by apply preserved_getItem.
Qed.

(** The copy of a board that reads as a grid is an outer array of distinct
    rows that reads as the same grid. *)
Lemma copyBoard_represents (σ : store.Store) (board : store.ref) (grid : Board) :
  store.contents σ board = Some grid →
  ∃ newBoard σ',
    store.copyBoard σ board = Ok (newBoard, σ')
    ∧ store.represents σ' newBoard grid.
Proof.
  unfold store.contents, store.copyBoard.
  destruct (store.getRows σ board) as [rows|]; simpl; [|done].
  intros Hall%mapM_Some.
  destruct (mapSlice_represents grid σ rows Hall)
    as (rows' & σ1 & -> & _ & Hdistinct & _ & Hall1).
  cbn [mbind Result_bind].
  destruct (store.alloc σ1 (store.Rows rows')) as [newBoard σ2] eqn:Halloc.
  exists newBoard, σ2. split; [done|].
  apply alloc_preserved in Halloc as (Hpres & _ & Hboard).
  exists rows'. split_and!; [|done|].
  - unfold store.getRows. by rewrite Hboard.
  - eapply Forall2_impl; [exact Hall1|].
    intros row tiles. by apply preserved_readRow.
Qed.

Section Refinement.

Context {Rng : Type}.
Variable difficulties : gmap string Settings.t.
Variable shuffle : list bool → Rng → list bool * Rng.
Variable countProximities : Board → Proximities.
Variable allDirections : list (Z → Z → Z * Z).

Lemma store_uncoverInNewBoard_refines (proximities : Proximities)
    (rows columns : Z) (fuel : nat) :
  ∀ r c inStore onGrid,
    store.sameVars inStore onGrid →
    store.sameOutcome store.sameVars
      (store.uncoverInNewBoard allDirections fuel proximities rows columns r c
         inStore.1 inStore.2)
      (uncoverInNewBoard allDirections fuel proximities rows columns r c onGrid).
Proof.
  induction fuel as [|fuel IH];
    intros r c [vars σ] onGrid (Hrep & Hover & Huncovered & Hflags);
    cbn [store.uncoverInNewBoard uncoverInNewBoard fst snd] in *; [constructor|].
  assert (store.sameVars (vars, σ) onGrid) as Hsame0 by (by split_and!).
  rewrite Hover. destruct (uncover.gameOver onGrid) eqn:Hover'; [by constructor|].
  rewrite (contents_tileAt _ _ _ r c (represents_contents _ _ _ Hrep)).
  destruct (tileAt (uncover.newBoard onGrid) r c) as [prevItem|];
    [|constructor].
  destruct (get proximities r) as [proximitiesRow|]; [|constructor].
  destruct (decide (userState prevItem = _)); [by constructor|].
  destruct (store.alloc σ (store.Item (changeItemToUncovered prevItem)))
    as [newItem σ1] eqn:Halloc.
  pose proof (represents_setItem _ _ _ _ _ r c _ Hrep Halloc) as Hrep'.
  destruct (decide (userState (changeItemToUncovered prevItem) = _));
    [by constructor; split_and!|].
  assert (store.sameVars
    ({| uncover.newBoard := uncover.newBoard vars;
        uncover.gameOver := false;
        uncover.uncoveredCount := uncover.uncoveredCount vars + 1;
        uncover.flagsCount :=
          if decide (userState prevItem = tileUserStates.flag)
          then uncover.flagsCount vars - 1
          else uncover.flagsCount vars |},
     store.setItem σ1 (uncover.newBoard vars) r c newItem)
    (uncovered onGrid r c prevItem)) as Hsame.
  { split_and!; simpl; [done..|lia|]. by rewrite Hflags. }
  destruct (canExpandTile _ _); [|by constructor].
  apply forEach_sameOutcome; [|done].
  intros f [vars1 σ2] onGrid1 Hsame1. destruct (f r c) as [r' c'].
  destruct (_ && _); [|by constructor].
  exact (IH r' c' (vars1, σ2) onGrid1 Hsame1).
Qed.

Lemma store_whileStartsWithBomb_refines (props : Props) (r c : Z) (fuel : nat) :
  ∀ board0 proximities0 rng σ grid,
    store.contents σ board0 = Some grid →
    store.sameOutcome
      (λ '(board1, proximities1, rng1, σ1) '(grid2, proximities2, rng2),
         store.contents σ1 board1 = Some grid2
         ∧ proximities1 = proximities2 ∧ rng1 = rng2)
      (store.whileStartsWithBomb difficulties shuffle countProximities fuel props
         r c board0 proximities0 rng σ)
      (whileStartsWithBomb difficulties shuffle countProximities fuel props
         r c grid proximities0 rng).
Proof.
  induction fuel as [|fuel IH]; intros board0 proximities0 rng σ grid Hgrid; simpl;
    rewrite (contents_tileAt _ _ _ r c Hgrid);
    (destruct (tileAt grid r c) as [item|]; [|constructor]);
    (destruct (decide (bombState item = _)); [|by constructor]);
    [constructor|].
  unfold store.regenerated, regenerated, store.restart.
  destruct (restart difficulties shuffle countProximities props rng)
    as [[game rng1]| |]; simpl; [|constructor..].
  destruct (store.allocBoard σ (board game)) as [newBoard σ1] eqn:Halloc. simpl.
  apply allocBoard_represents in Halloc.
  apply IH. by apply represents_contents.
Qed.

(** [uncoverTile] over the store ends as [uncoverTile] over the grid that
    the board of the game reads as; when both return a game, the two games
    differ in the board only, which in the store is an outer array of
    distinct rows that reads as the returned grid. *)
Theorem store_uncoverTile_refines (fuel : nat) (props : Props) (r c now : Z)
    (rng : Rng) (game : GameOf store.ref) (σ : store.Store) (grid : Board) :
  store.contents σ (board game) = Some grid →
  store.sameOutcome
    (λ '(returned1, rng1, σ1) '(returned2, rng2),
       rng1 = rng2
       ∧ match returned1, returned2 with
         | None, None => σ1 = σ
         | Some game1, Some game2 =>
             store.represents σ1 (board game1) (board game2)
             ∧ store.withBoard game1 (board game2) = game2
         | _, _ => False
         end)
    (store.uncoverTile difficulties shuffle countProximities allDirections
       fuel props r c now rng game σ)
    (uncoverTile difficulties shuffle countProximities allDirections
       fuel props r c now rng (store.withBoard game grid)).
Proof.
  intros Hgrid. unfold store.uncoverTile, uncoverTile. simpl.
  destruct (negb _); [by constructor|].
  eapply sameOutcome_bind.
  { instantiate (1 := λ '(board1, proximities1, rng1, σ1)
                        '(grid2, proximities2, rng2),
       store.contents σ1 board1 = Some grid2
       ∧ proximities1 = proximities2 ∧ rng1 = rng2).
    destruct (decide (movesCount game = 0)).
    - by apply store_whileStartsWithBomb_refines.
    - by constructor. }
  intros [[[board1 proximities1] rng1] σ1] [[grid2 proximities2] rng2]
    (Hgrid1 & <- & <-).
  destruct (copyBoard_represents _ _ _ Hgrid1) as (newBoard & σ2 & -> & Hrep).
  rewrite copyBoard_id. cbn [mbind Result_bind].
  eapply sameOutcome_bind.
  { match goal with
    |- store.sameOutcome _ (store.uncoverInNewBoard _ _ _ _ _ _ _ ?v ?s) _ =>
      apply (store_uncoverInNewBoard_refines proximities1 (rows game)
               (columns game) fuel r c (v, s))
    end.
    by split_and!. }
  intros [vars σ3] onGrid (Hrep' & Hover & Huncovered & Hflags). simpl in *.
  constructor. split; [done|]. simpl. split; [done|].
  unfold store.withBoard. simpl. by rewrite Hover, Huncovered, Hflags.
Qed.

End Refinement.

(** ** Boards of as many columns as rows

    On such boards [rowIndex * rows + columnIndex] is the row-major index,
    and what the specification says of the number and of the place of the
    bombs holds. *)

Lemma Math_round_bounds (x : QArith_base.Q) (n : Z) :
  QArith_base.Qle (QArith_base.inject_Z 0) x →
  QArith_base.Qle x (QArith_base.inject_Z n) →
  0 ≤ Math_round x ≤ n.
Proof.
  intros Hlow Hhigh. unfold Math_round. split.
  - rewrite <- (Qround.Qfloor_Z 0). apply Qround.Qfloor_resp_le.
    change (QArith_base.inject_Z 0) with (QArith_base.Qmake 0 1) in *.
    Lqa.lra.
  - pose proof (Qround.Qfloor_le (QArith_base.Qplus x (QArith_base.Qmake 1 2))) as Hfloor.
    cut (Qround.Qfloor (QArith_base.Qplus x (QArith_base.Qmake 1 2)) < n + 1); [lia|].
    rewrite QArith_base.Zlt_Qlt.
    rewrite QArith_base.inject_Z_plus.
    change (QArith_base.inject_Z 1) with (QArith_base.Qmake 1 1).
    Lqa.lra.
Qed.

Lemma Math_round_odds (bombOdds : QArith_base.Q) (tilesCount : Z) :
  QArith_base.Qle (QArith_base.inject_Z 0) bombOdds →
  QArith_base.Qle bombOdds (QArith_base.inject_Z 1) →
  0 ≤ tilesCount →
  0 ≤ Math_round (QArith_base.Qmult bombOdds (QArith_base.inject_Z tilesCount))
    ≤ tilesCount.
Proof.
  intros Hlow Hhigh Htiles. apply Math_round_bounds.
  - apply QArith_base.Qmult_le_0_compat; [done|].
    change (QArith_base.Qle (QArith_base.inject_Z 0)
              (QArith_base.inject_Z tilesCount)).
    by rewrite <- QArith_base.Zle_Qle.
  - rewrite <- (QArith_base.Qmult_1_l (QArith_base.inject_Z tilesCount)) at 2.
    apply QArith_base.Qmult_le_compat_r; [done|].
    change (QArith_base.Qle (QArith_base.inject_Z 0) (QArith_base.inject_Z tilesCount)).
    by rewrite <- QArith_base.Zle_Qle.
Qed.

Lemma times_succ {A : Type} (k : nat) (f : Z → A) :
  times (Z.of_nat (S k)) f = times (Z.of_nat k) f ++ [f (Z.of_nat k)].
Proof. unfold times. by rewrite seqZ_S, fmap_app. Qed.

Lemma concat_times_rows {A : Type} (n : Z) (g : Z → A) (k : nat) :
  0 ≤ n →
  concat (times (Z.of_nat k) (λ r, times n (λ c, g (r * n + c))))
  = g <$> seqZ 0 (Z.of_nat k * n).
Proof.
  intros Hn. induction k as [|k IH].
  { reflexivity. }
  rewrite times_succ, concat_app, IH. simpl. rewrite app_nil_r.
  replace (Z.of_nat (S k) * n) with (Z.of_nat k * n + n) by lia.
  rewrite seqZ_app, fmap_app by lia. f_equal.
  unfold times.
  replace (0 + Z.of_nat k * n) with (Z.of_nat k * n + 0) by lia.
  rewrite <- fmap_add_seqZ, <- list_fmap_compose.
  by apply list_fmap_ext.
Qed.

Lemma restartBoard_square (n : Z) (shuffledBombs : list bool) :
  0 ≤ n →
  length shuffledBombs = Z.to_nat (n * n) →
  concat (restartBoard n n shuffledBombs) = markedTile <$> shuffledBombs.
Proof.
  intros Hn Hlength. unfold restartBoard.
  rewrite <- (Z2Nat.id n) at 1 by done.
  rewrite (concat_times_rows n
    (λ i, markedTile (default false (get shuffledBombs i)))) by done.
  rewrite Z2Nat.id by done.
  apply list_eq. intros i. rewrite !list_lookup_fmap.
  destruct (decide (Z.of_nat i < n * n)) as [Hi|Hi].
  - rewrite lookup_seqZ_lt by done. simpl.
    unfold get. rewrite decide_True by lia. rewrite Z.add_0_l, Nat2Z.id.
    destruct (lookup_lt_is_Some_2 shuffledBombs i) as [b Hb]; [lia|].
    by rewrite Hb.
  - rewrite lookup_seqZ_ge by lia. rewrite lookup_ge_None_2 by lia. done.
Qed.

Lemma tilesWhere_bombs (l : list bool) :
  length (filter (λ t, bombState t = tileBombStates.bomb) (markedTile <$> l))
  = length (filter (λ b, b = true) l).
Proof.
  induction l as [|b l IH]; [done|].
  rewrite fmap_cons, !filter_cons.
  destruct b; simpl; repeat case_decide; simpl; congruence.
Qed.

Lemma times_constant {A : Type} (n : Z) (x : A) :
  times n (λ _, x) = replicate (Z.to_nat n) x.
Proof.
  unfold times. apply list_eq; intros i. rewrite list_lookup_fmap.
  destruct (decide (Z.of_nat i < n)) as [Hi|Hi].
  - rewrite lookup_seqZ_lt, lookup_replicate_2 by lia. done.
  - rewrite lookup_seqZ_ge by lia. symmetry.
    apply lookup_replicate_None. lia.
Qed.

Lemma filter_true_replicate (k : nat) (b : bool) :
  length (filter (λ b, b = true) (replicate k b)) = if b then k else 0%nat.
Proof.
  induction k as [|k IH]; [by destruct b|].
  cbn [replicate]. rewrite filter_cons.
  destruct b; repeat case_decide; simpl; congruence.
Qed.

Lemma unshuffledBombs_count (bombsCount tilesCount : Z) :
  length (filter (λ b, b = true) (unshuffledBombs bombsCount tilesCount))
  = Z.to_nat bombsCount.
Proof.
  unfold unshuffledBombs. rewrite !times_constant, filter_app, length_app.
  rewrite !filter_true_replicate. lia.
Qed.

Lemma unshuffledBombs_length (bombsCount tilesCount : Z) :
  0 ≤ bombsCount ≤ tilesCount →
  length (unshuffledBombs bombsCount tilesCount) = Z.to_nat tilesCount.
Proof.
  intros Hcount. unfold unshuffledBombs.
  rewrite !times_constant, length_app, !length_replicate. lia.
Qed.

Lemma get_times {A : Type} (n : Z) (f : Z → A) (i : Z) :
  0 ≤ i < n → get (times n f) i = Some (f i).
Proof.
  intros Hi. unfold get, times. rewrite decide_True by lia.
  rewrite list_lookup_fmap, lookup_seqZ_lt by lia. simpl. f_equal. f_equal. lia.
Qed.

Lemma tileAt_restartBoard (columns rows : Z) (shuffledBombs : list bool) (r c : Z) :
  inBounds rows columns r c →
  tileAt (restartBoard columns rows shuffledBombs) r c
  = Some (markedTile (default false (get shuffledBombs (r * rows + c)))).
Proof.
  intros [Hr Hc]. unfold tileAt, restartBoard.
  rewrite get_times by done. simpl. by rewrite get_times.
Qed.

Section Square.

Context {Rng : Type}.
Variable difficulties : gmap string Settings.t.
Variable shuffle : list bool → Rng → list bool * Rng.
Variable countProximities : Board → Proximities.
Hypothesis shuffle_Permutation : ∀ l rng, (shuffle l rng).1 ≡ₚ l.

(** With as many columns as rows and [bombOdds] between 0 and 1, the
    board of [restart] holds exactly [bombsCount] bombs, which is
    [round(bombOdds * columns * rows)], and its tiles take the shuffled
    markers in row-major order. *)
Theorem restart_square (props : Props) (settings : Settings.t) (rng rng' : Rng)
    (game : Game) :
  settingsFor difficulties props = Some settings →
  Settings.columns settings = Settings.rows settings →
  0 ≤ Settings.rows settings →
  QArith_base.Qle (QArith_base.inject_Z 0) (Settings.bombOdds settings) →
  QArith_base.Qle (Settings.bombOdds settings) (QArith_base.inject_Z 1) →
  restart difficulties shuffle countProximities props rng = Ok (game, rng') →
  bombsCount game
  = Math_round (QArith_base.Qmult (Settings.bombOdds settings)
                  (QArith_base.inject_Z (columns game * rows game)))
  ∧ 0 ≤ bombsCount game ≤ columns game * rows game
  ∧ bombsOnBoard (board game) = bombsCount game
  ∧ ∃ shuffledBombs,
      shuffledBombs ≡ₚ unshuffledBombs (bombsCount game) (columns game * rows game)
      ∧ ∀ r c, inBounds (rows game) (columns game) r c →
          tileAt (board game) r c
          = Some (markedTile
                    (default false (get shuffledBombs (r * columns game + c)))).
Proof using shuffle_Permutation.
  intros Hsettings Hsquare Hrows Hlow Hhigh. unfold restart. rewrite Hsettings.
  rewrite Hsquare.
  pose proof (Math_round_odds _ (Settings.rows settings * Settings.rows settings)
                Hlow Hhigh ltac:(nia)) as Hcount.
  match goal with |- context [shuffle ?l rng] =>
    pose proof (shuffle_Permutation l rng) as Hperm;
    destruct (shuffle l rng) as [shuffledBombs rng1]
  end.
  simpl in Hperm. intros [= <- _]. simpl.
  split_and!; [done|lia..| |].
  - unfold bombsOnBoard, countTiles, tilesWhere.
    rewrite restartBoard_square; [|done|].
    + rewrite tilesWhere_bombs, Hperm, unshuffledBombs_count. lia.
    + rewrite Hperm. by apply unshuffledBombs_length.
  - exists shuffledBombs. split; [done|].
    intros r c Hrc. by apply tileAt_restartBoard.
Qed.

End Square.

(** *** The counters on such boards *)

Lemma elem_of_concat_tileAt (board : Board) (item : Tile) :
  item ∈ concat board → ∃ r c, tileAt board r c = Some item.
Proof.
  rewrite list_elem_of_In, in_concat. intros (row & Hrow & Hitem).
  apply list_elem_of_In, list_elem_of_lookup in Hrow as [i Hi].
  apply list_elem_of_In, list_elem_of_lookup in Hitem as [j Hj].
  exists (Z.of_nat i), (Z.of_nat j). apply tileAt_Some. exists row.
  rewrite !get_Some, !Nat2Z.id. split_and!; [lia|done|lia|done].
Qed.

Lemma tilesWhere_none (P : Tile → Prop) `{!∀ t, Decision (P t)} (board : Board) :
  (∀ r c item, tileAt board r c = Some item → ¬ P item) →
  tilesWhere P board = 0%nat.
Proof.
  intros Hnone. unfold tilesWhere.
  assert (Forall (λ item, ¬ P item) (concat board)) as Hall.
  { apply Forall_forall. intros item (r & c & Hitem)%elem_of_concat_tileAt.
    by eapply Hnone. }
  induction Hall as [|item l Hitem _ IH]; [done|].
  by rewrite filter_cons_False.
Qed.

Lemma tilesWhere_le (P Q : Tile → Prop) `{!∀ t, Decision (P t)}
    `{!∀ t, Decision (Q t)} (board : Board) :
  (∀ r c item, tileAt board r c = Some item → P item → Q item) →
  (tilesWhere P board ≤ tilesWhere Q board)%nat.
Proof.
  intros Himpl. unfold tilesWhere.
  assert (Forall (λ item, P item → Q item) (concat board)) as Hall.
  { apply Forall_forall. intros item (r & c & Hitem)%elem_of_concat_tileAt.
    by eapply Himpl. }
  induction Hall as [|item l Hitem _ IH]; [done|].
  rewrite !filter_cons. repeat case_decide; simpl; try lia. tauto.
Qed.

Lemma tilesWhere_complement (P : Tile → Prop) `{!∀ t, Decision (P t)}
    (board : Board) :
  (tilesWhere P board + tilesWhere (λ t, ¬ P t) board = length (concat board))%nat.
Proof.
  unfold tilesWhere. rewrite <- length_app.
  apply Permutation_length, filter_app_complement.
Qed.

Lemma allCovered_opensOnBoard (board : Board) :
  allCovered board → opensOnBoard board = 0.
Proof.
  intros Hcovered. unfold opensOnBoard, countTiles.
  rewrite tilesWhere_none; [done|].
  intros r c item Hitem. apply Hcovered in Hitem. congruence.
Qed.

(** The number of open tiles is at most the number of the tiles without a
    bomb. *)
Lemma opensOnBoard_le (rows columns : Z) (board : Board) :
  0 ≤ rows → 0 ≤ columns →
  wellShaped rows columns board →
  uncoveredRight board →
  opensOnBoard board ≤ columns * rows - bombsOnBoard board.
Proof.
  intros Hrows Hcolumns Hshape Hright.
  unfold opensOnBoard, bombsOnBoard, countTiles.
  pose proof (tilesWhere_complement
                (λ t, bombState t = tileBombStates.bomb) board) as Hsplit.
  rewrite (wellShaped_tiles _ _ _ Hshape) in Hsplit.
  pose proof (tilesWhere_le (λ t, userState t = tileUserStates.open)
                (λ t, ¬ bombState t = tileBombStates.bomb) board) as Hle.
  assert (tilesWhere (λ t, userState t = tileUserStates.open) board
          ≤ tilesWhere (λ t, ¬ bombState t = tileBombStates.bomb) board)%nat.
  { apply Hle. intros r c item Hitem Hopen.
    destruct (Hright r c item Hitem) as [Hblank _]. rewrite (Hblank Hopen). done. }
  nia.
Qed.

Section SquareCounters.

Context {Rng : Type}.
Variable difficulties : gmap string Settings.t.
Variable shuffle : list bool → Rng → list bool * Rng.
Variable countProximities : Board → Proximities.
Variable allDirections : list (Z → Z → Z * Z).

Hypothesis shuffle_Permutation : ∀ l rng, (shuffle l rng).1 ≡ₚ l.
Hypothesis countProximities_consistent : ∀ rows columns board,
  wellShaped rows columns board →
  consistent rows columns board (countProximities board).
Hypothesis countProximities_wellShaped : ∀ rows columns board,
  wellShaped rows columns board →
  wellShaped rows columns (countProximities board).

Variable props : Props.
Variable settings : Settings.t.
Hypothesis props_settings : settingsFor difficulties props = Some settings.
Hypothesis settings_square : Settings.columns settings = Settings.rows settings.
Hypothesis settings_rows : 0 ≤ Settings.rows settings.
Hypothesis settings_bombOdds :
  QArith_base.Qle (QArith_base.inject_Z 0) (Settings.bombOdds settings)
  ∧ QArith_base.Qle (Settings.bombOdds settings) (QArith_base.inject_Z 1).

Local Abbreviation restart := (restart difficulties shuffle countProximities).
Local Abbreviation uncoverInNewBoard := (uncoverInNewBoard allDirections).
Local Abbreviation uncoverTile :=
  (uncoverTile difficulties shuffle countProximities allDirections).
Local Abbreviation reachable :=
  (reachable difficulties shuffle countProximities allDirections).

(** The [bombsCount] of every game for these settings. *)
Local Abbreviation bombsCount0 :=
  (Math_round (QArith_base.Qmult (Settings.bombOdds settings)
     (QArith_base.inject_Z (Settings.rows settings * Settings.rows settings)))).

(** The flood fill adds to [uncoveredCount] the number of the tiles it
    opens, and moves no bomb. *)
Lemma uncoverInNewBoard_counted (proximities : Proximities) (rows columns : Z)
    (fuel : nat) (r c : Z) (vars vars' : uncover.t Board) :
  uncoverInNewBoard fuel proximities rows columns r c vars = Ok vars' →
  uncover.uncoveredCount vars' - opensOnBoard (uncover.newBoard vars')
  = uncover.uncoveredCount vars - opensOnBoard (uncover.newBoard vars)
  ∧ bombsOnBoard (uncover.newBoard vars') = bombsOnBoard (uncover.newBoard vars).
Proof.
  apply (uncoverInNewBoard_rel allDirections proximities rows columns
    (λ v v',
       uncover.uncoveredCount v' - opensOnBoard (uncover.newBoard v')
       = uncover.uncoveredCount v - opensOnBoard (uncover.newBoard v)
       ∧ bombsOnBoard (uncover.newBoard v') = bombsOnBoard (uncover.newBoard v))).
  - split; [by intros v|].
    intros v1 v2 v3 [Hc12 Hb12] [Hc23 Hb23]. split; congruence.
  - intros v r0 c0 prevItem _ Hprev Hclosed Hbomb. simpl.
    rewrite (changeItemToUncovered_bomb _ Hbomb).
    pose proof (tilesWhere_setTile (λ t, userState t = tileUserStates.open)
      _ r0 c0 prevItem
      {| bombState := tileBombStates.bomb; userState := tileUserStates.hitBomb |}
      Hprev) as Hopens.
    pose proof (tilesWhere_setTile (λ t, bombState t = tileBombStates.bomb)
      _ r0 c0 prevItem
      {| bombState := tileBombStates.bomb; userState := tileUserStates.hitBomb |}
      Hprev) as Hbombs.
    rewrite decide_False in Hopens by done.
    rewrite decide_False in Hopens by done.
    rewrite !decide_True in Hbombs by done.
    unfold opensOnBoard, bombsOnBoard, countTiles. split; lia.
  - intros v r0 c0 prevItem _ Hprev Hclosed Hblank. simpl.
    rewrite (changeItemToUncovered_blank _ Hblank).
    pose proof (tilesWhere_setTile (λ t, userState t = tileUserStates.open)
      _ r0 c0 prevItem
      {| bombState := tileBombStates.blank; userState := tileUserStates.open |}
      Hprev) as Hopens.
    pose proof (tilesWhere_setTile (λ t, bombState t = tileBombStates.bomb)
      _ r0 c0 prevItem
      {| bombState := tileBombStates.blank; userState := tileUserStates.open |}
      Hprev) as Hbombs.
    rewrite decide_False, decide_True in Hopens by done.
    rewrite !decide_False in Hbombs by done.
    unfold opensOnBoard, bombsOnBoard, countTiles. split; lia.
Qed.

Lemma restart_counted (rng rng' : Rng) (game : Game) :
  restart props rng = Ok (game, rng') →
  counted game ∧ bombsCount game = bombsCount0 ∧ allCovered (board game).
Proof using shuffle_Permutation props_settings settings_square settings_rows
    settings_bombOdds.
  intros Hrestart.
  pose proof (restart_allCovered _ _ _ _ _ _ _ Hrestart) as Hcovered.
  destruct settings_bombOdds as [Hlow Hhigh].
  destruct (restart_square difficulties shuffle countProximities
              shuffle_Permutation props settings rng rng' game props_settings
              settings_square settings_rows Hlow Hhigh Hrestart)
    as (Hcount & _ & Hbombs & _).
  destruct (restart_Ok difficulties shuffle countProximities props settings
              props_settings rng)
    as (game0 & rng0 & Hrestart0 & _ & Hrows & Hcolumns & _ & _ & Huncovered & _
        & Hmoves).
  rewrite Hrestart in Hrestart0. injection Hrestart0 as <- <-.
  rewrite Hrows, Hcolumns, settings_square in Hcount.
  split_and!; [|done..]. unfold counted.
  rewrite (allCovered_opensOnBoard _ Hcovered), Hmoves, Huncovered.
  by split_and!.
Qed.

(** On these boards, every game that the handlers produce keeps the
    counters right. *)
Theorem reachable_counted (game : Game) :
  reachable props game → counted game ∧ bombsCount game = bombsCount0.
Proof using All.
  induction 1 as [rng game rng' Hinitial
                 |game _ IH
                 |rng game game' rng' _ _ Hrestart
                 |now game game' _ IH Hbegin
                 |fuel r c now rng game game' rng' _ IH Hrun
                 |r c game _ IH].
  - by apply restart_counted in Hinitial as (? & ? & _).
  - done.
  - unfold completeRestart in Hrestart.
    destruct (restart props rng) as [[newGame rng1]| |] eqn:Hnew; [|done..].
    simpl in Hrestart. injection Hrestart as <- _.
    by apply restart_counted in Hnew as (? & ? & _).
  - unfold beginUncoverTile in Hbegin.
    destruct (negb _); [done|]. by injection Hbegin as <-.
  - destruct IH as [(Hmoves & Huncovered & Hfirst & Hbombs) Hcount].
    revert Hrun. unfold uncoverTile.
    destruct (negb _); [done|].
    destruct (if decide (movesCount game = 0) then _ else _)
      as [[[board1 proximities1] rng1]| |] eqn:Hloop; [|done..].
    assert (uncoveredCount game = opensOnBoard board1
            ∧ bombsOnBoard board1 = bombsCount game) as [Huncovered1 Hbombs1].
    { destruct (decide (movesCount game = 0)) as [Hzero|].
      - apply whileStartsWithBomb_origin in Hloop
          as [[-> ->]|(rng0 & game0 & rng2 & Hrestart & -> & ->)]; [done|].
        apply restart_counted in Hrestart as ((_ & _ & _ & Hb) & Hc & Hcovered).
        rewrite (allCovered_opensOnBoard _ Hcovered), Huncovered, (Hfirst Hzero).
        split; congruence.
      - by injection Hloop as <- <- _. }
    simpl.
    destruct (uncoverInNewBoard fuel _ _ _ _ _ _) as [vars| |] eqn:Hflood;
      [|done..].
    apply uncoverInNewBoard_counted in Hflood as [Hopens Hsame].
    simpl in *. rewrite copyBoard_id in *. intros [= <- _].
    unfold counted. simpl. split_and!; [lia|lia|lia|congruence|done].
  - destruct IH as [(Hmoves & Huncovered & Hfirst & Hbombs) Hcount].
    destruct (flagTile_board r c game)
      as (Hboard & _ & _ & _ & _ & Hb & Hu & Hm).
    unfold counted. rewrite Hb, Hu, Hm.
    destruct Hboard as [->|(old & item & Hold & Hbomb & Huser & Hwas & ->)];
      [done|].
    assert (userState item ≠ tileUserStates.open) by (destruct Huser; congruence).
    assert (userState old ≠ tileUserStates.open) by (destruct Hwas; congruence).
    pose proof (tilesWhere_setTile (λ t, userState t = tileUserStates.open)
                  _ r c old item Hold) as Hopens.
    pose proof (tilesWhere_setTile (λ t, bombState t = tileBombStates.bomb)
                  _ r c old item Hold) as Hbombs'.
    rewrite !decide_False in Hopens by done.
    assert (opensOnBoard (setTile (board game) r c item) = opensOnBoard (board game)
            ∧ bombsOnBoard (setTile (board game) r c item)
              = bombsOnBoard (board game)) as [-> ->]; [|done].
    unfold opensOnBoard, bombsOnBoard, countTiles.
    simpl in Hbombs'. rewrite Hbomb in Hbombs'. split; [lia|].
    destruct (decide (bombState old = tileBombStates.bomb)); lia.
Qed.

(** X16.  On boards of as many columns as rows, in every game that the
    handlers produce [uncoveredCount] stays within the number of the tiles
    that hold no bomb, [columns * rows - bombsCount]. *)
Theorem reachable_uncoveredCount (game : Game) :
  reachable props game →
  uncoveredCount game ≤ columns game * rows game - bombsCount game.
Proof using All.
  intros Hreachable.
  destruct (reachable_counted game Hreachable)
    as [(_ & -> & _ & <-) _].
  destruct (reachable_invariant difficulties shuffle countProximities
              allDirections countProximities_consistent
              countProximities_wellShaped props settings props_settings
              game Hreachable)
    as (-> & -> & (Hshape & _) & Hright & _).
  apply opensOnBoard_le; [done| |done..].
  by rewrite settings_square.
Qed.

End SquareCounters.

(** ** The tween between two difficulties *)

Lemma Math_round_Z (n : Z) : Math_round (QArith_base.inject_Z n) = n.
Proof.
  unfold Math_round. apply Z.le_antisymm.
  - pose proof (Qround.Qfloor_le
      (QArith_base.Qplus (QArith_base.inject_Z n) (QArith_base.Qmake 1 2))) as Hfloor.
    cut (Qround.Qfloor
           (QArith_base.Qplus (QArith_base.inject_Z n) (QArith_base.Qmake 1 2))
         < n + 1); [lia|].
    rewrite QArith_base.Zlt_Qlt, QArith_base.inject_Z_plus.
    change (QArith_base.inject_Z 1) with (QArith_base.Qmake 1 1).
    Lqa.lra.
  - rewrite <- (Qround.Qfloor_Z n) at 1. apply Qround.Qfloor_resp_le.
    Lqa.lra.
Qed.

Lemma Math_round_le (x y : QArith_base.Q) :
  QArith_base.Qle x y → Math_round x ≤ Math_round y.
Proof.
  intros Hle. unfold Math_round. apply Qround.Qfloor_resp_le. Lqa.lra.
Qed.

(** A rounded fraction of a difference lies between 0 and the
    difference. *)
Lemma Math_round_fraction (d : Z) (f : QArith_base.Q) :
  QArith_base.Qle (QArith_base.inject_Z 0) f →
  QArith_base.Qle f (QArith_base.inject_Z 1) →
  Z.min 0 d ≤ Math_round (QArith_base.Qmult (QArith_base.inject_Z d) f) ≤ Z.max 0 d.
Proof.
  intros Hlow Hhigh.
  change (QArith_base.inject_Z 0) with (QArith_base.Qmake 0 1) in Hlow.
  change (QArith_base.inject_Z 1) with (QArith_base.Qmake 1 1) in Hhigh.
  rewrite <- (Math_round_Z (Z.min 0 d)), <- (Math_round_Z (Z.max 0 d)).
  destruct (Z.le_ge_cases 0 d) as [Hd|Hd].
  - rewrite Z.min_l, Z.max_r by done.
    assert (QArith_base.Qle (QArith_base.Qmake 0 1) (QArith_base.inject_Z d)) as Hd'.
    { change (QArith_base.Qle (QArith_base.inject_Z 0) (QArith_base.inject_Z d)).
      by rewrite <- QArith_base.Zle_Qle. }
    split; apply Math_round_le.
    + change (QArith_base.inject_Z 0) with (QArith_base.Qmake 0 1). Lqa.nra.
    + Lqa.nra.
  - rewrite Z.min_r, Z.max_l by done.
    assert (QArith_base.Qle (QArith_base.inject_Z d) (QArith_base.Qmake 0 1)) as Hd'.
    { change (QArith_base.Qle (QArith_base.inject_Z d) (QArith_base.inject_Z 0)).
      by rewrite <- QArith_base.Zle_Qle. }
    split; apply Math_round_le.
    + Lqa.nra.
    + change (QArith_base.inject_Z 0) with (QArith_base.Qmake 0 1). Lqa.nra.
Qed.

Lemma frame_fraction (frame : Z) :
  0 ≤ frame < totalFrames →
  QArith_base.Qle (QArith_base.inject_Z 0)
    (QArith_base.Qdiv (QArith_base.inject_Z frame) (QArith_base.inject_Z totalFrames))
  ∧ QArith_base.Qle
      (QArith_base.Qdiv (QArith_base.inject_Z frame) (QArith_base.inject_Z totalFrames))
      (QArith_base.inject_Z 1).
Proof.
  unfold totalFrames. intros Hframe.
  unfold QArith_base.Qle, QArith_base.Qdiv, QArith_base.Qmult. simpl. lia.
Qed.

Lemma yieldEach_Ok {A Y S : Type} (P : A → Y → Prop) (l : list A)
    (body : A → S → Result (Y * S)) :
  (∀ x s, x ∈ l → ∃ y s', body x s = Ok (y, s') ∧ P x y) →
  ∀ s, ∃ ys s', yieldEach l body s = (ys, Ok s') ∧ Forall2 P l ys.
Proof.
  induction l as [|x l IH]; intros Hbody s; simpl.
  - by exists [], s.
  - destruct (Hbody x s) as (y & s1 & -> & Hy); [left|].
    destruct (IH (λ z t Hz, Hbody z t (list_elem_of_further _ _ _ Hz)) s1)
      as (ys & s' & -> & Hys).
    exists (y :: ys), s'. split; [done|]. by constructor.
Qed.

Lemma Math_round_zero (d frame : Z) :
  frame = 0 →
  Math_round (QArith_base.Qmult (QArith_base.inject_Z d)
    (QArith_base.Qdiv (QArith_base.inject_Z frame) (QArith_base.inject_Z totalFrames)))
  = 0.
Proof.
  intros ->. rewrite <- (Math_round_Z 0) at 2. unfold Math_round.
  apply Qround.Qfloor_comp, QArith_base.Qplus_comp; [|done].
  unfold QArith_base.Qeq. simpl. lia.
Qed.

Section LoadingProperties.

Context {Rng : Type}.
Variable difficulties : gmap string Settings.t.
Variable shuffle : list bool → Rng → list bool * Rng.
Variable countProximities : Board → Proximities.

Local Abbreviation restart := (restart difficulties shuffle countProximities).
Local Abbreviation load := (load difficulties shuffle countProximities).

(** X1.  Without previous props, or when the previous props name the same
    difficulty as the next ones (whether or not this difficulty is known,
    and whatever the [settings] of the props), [load] yields nothing and
    draws nothing from the random source. *)
Theorem load_same_difficulty (next : Props) (prev : option Props) (rng : Rng) :
  (∀ props, prev = Some props → difficultyID props = difficultyID next) →
  load next prev rng = ([], Ok rng).
Proof.
  intros Hsame. unfold load. destruct prev as [props|]; [|done].
  rewrite decide_False; [done|]. intros Hne. by apply Hne, Hsame.
Qed.

(** X2.  When the difficulty changes and the read of the previous or of
    the next difficulty in the table gives [undefined] (the table has no
    entry for the id, and the id is not the name of a property that every
    object inherits), [load] throws a [TypeError] before it has yielded
    anything: not the [Unknown difficulty] error of [restart], and also
    when the next props carry [settings] of their own. *)
Theorem load_unknown_difficulty (next prev : Props) (rng : Rng) :
  difficultyID prev ≠ difficultyID next →
  (difficulties !! difficultyID prev = None
   ∧ difficultyID prev ∉ inheritedNames)
  ∨ (difficulties !! difficultyID next = None
     ∧ difficultyID next ∉ inheritedNames) →
  load next (Some prev) rng = ([], Throw TypeError).
Proof.
  intros Hne Hunknown. unfold load. rewrite decide_True by done.
  rewrite (seqZ_cons 0 totalFrames) by done. simpl.
  unfold tweenFrame, columnsForFraction.
  destruct Hunknown as [[-> _] | [-> _]]; [done|].
  by destruct (difficulties !! difficultyID prev).
Qed.

(** X3.  When the difficulty changes between two known difficulties,
    [load] yields 13 games and ends: 12 frames, then the game of
    [restart(next)].  Every frame is a fresh game without moves, all tiles
    covered, for the [bombOdds] of the next difficulty; frame [k] has
    [columns] and [rows] a rounded [k/12] of the way from the previous to
    the next difficulty, so between the two, and the first frame has the
    dimensions of the previous difficulty. *)
Theorem load_frames (next prev : Props) (prevSettings nextSettings : Settings.t)
    (rng : Rng) :
  difficultyID prev ≠ difficultyID next →
  difficulties !! difficultyID prev = Some prevSettings →
  difficulties !! difficultyID next = Some nextSettings →
  ∃ frames final rng12 rng',
    load next (Some prev) rng = (frames ++ [final], Ok rng')
    ∧ length frames = 12%nat
    ∧ restart next rng12 = Ok (final, rng')
    ∧ (settings next = None →
       columns final = Settings.columns nextSettings
       ∧ rows final = Settings.rows nextSettings)
    ∧ (∀ k game, frames !! k = Some game →
         gameState game = gameStates.fresh
         ∧ movesCount game = 0 ∧ uncoveredCount game = 0 ∧ flagsCount game = 0
         ∧ allCovered (board game)
         ∧ wellShaped (rows game) (columns game) (board game)
         ∧ columns game
           = Settings.columns prevSettings
             + Math_round (QArith_base.Qmult
                 (QArith_base.inject_Z
                    (Settings.columns nextSettings - Settings.columns prevSettings))
                 (QArith_base.Qdiv (QArith_base.inject_Z (Z.of_nat k))
                    (QArith_base.inject_Z 12)))
         ∧ rows game
           = Settings.rows prevSettings
             + Math_round (QArith_base.Qmult
                 (QArith_base.inject_Z
                    (Settings.rows nextSettings - Settings.rows prevSettings))
                 (QArith_base.Qdiv (QArith_base.inject_Z (Z.of_nat k))
                    (QArith_base.inject_Z 12)))
         ∧ Z.min (Settings.columns prevSettings) (Settings.columns nextSettings)
           ≤ columns game
           ≤ Z.max (Settings.columns prevSettings) (Settings.columns nextSettings)
         ∧ Z.min (Settings.rows prevSettings) (Settings.rows nextSettings)
           ≤ rows game
           ≤ Z.max (Settings.rows prevSettings) (Settings.rows nextSettings)
         ∧ (k = 0%nat →
            columns game = Settings.columns prevSettings
            ∧ rows game = Settings.rows prevSettings)).
Proof.
  intros Hne Hprev Hnext. unfold load.
  rewrite decide_True, Hprev, Hnext by done.
  pose (frameOf (frame : Z) (game : Game) :=
    gameState game = gameStates.fresh
    ∧ movesCount game = 0 ∧ uncoveredCount game = 0 ∧ flagsCount game = 0
    ∧ allCovered (board game)
    ∧ wellShaped (rows game) (columns game) (board game)
    ∧ columns game
      = Settings.columns prevSettings
        + Math_round (QArith_base.Qmult
            (QArith_base.inject_Z
               (Settings.columns nextSettings - Settings.columns prevSettings))
            (QArith_base.Qdiv (QArith_base.inject_Z frame)
               (QArith_base.inject_Z totalFrames)))
    ∧ rows game
      = Settings.rows prevSettings
        + Math_round (QArith_base.Qmult
            (QArith_base.inject_Z
               (Settings.rows nextSettings - Settings.rows prevSettings))
            (QArith_base.Qdiv (QArith_base.inject_Z frame)
               (QArith_base.inject_Z totalFrames)))).
  destruct (yieldEach_Ok frameOf (seqZ 0 totalFrames)
              (tweenFrame difficulties shuffle countProximities
                 (Some prevSettings) (Some nextSettings))) with rng
    as (frames & rng12 & -> & Hframes).
  { intros frame rng0 _. unfold tweenFrame. simpl.
    match goal with |- context [settingsOf ?columns ?rows ?odds] =>
      destruct (restart_Ok difficulties shuffle countProximities
                  (settingsOf columns rows odds)
                  {| Settings.columns := columns; Settings.rows := rows;
                     Settings.bombOdds := odds |} eq_refl rng0)
        as (game & rng1 & Hrestart & Hfresh & Hrows & Hcolumns
            & [shuffledBombs Hboard] & _ & Huncovered & Hflags & Hmoves)
    end.
    exists game, rng1. split; [done|]. unfold frameOf.
    simpl in Hrows, Hcolumns.
    split_and!; [done..| | |done|done].
    - by eapply restart_allCovered.
    - rewrite Hboard, Hrows, Hcolumns. apply restartBoard_wellShaped. }
  assert (settingsFor difficulties next
          = Some (default nextSettings (settings next))) as Hsettings.
  { unfold settingsFor. destruct (settings next); [done|]. by rewrite Hnext. }
  destruct (restart_Ok difficulties shuffle countProximities next _ Hsettings rng12)
    as (final & rng' & Hfinal & _ & Hrows & Hcolumns & _).
  rewrite Hfinal. exists frames, final, rng12, rng'.
  split_and!; [done| |done| |].
  - apply Forall2_length in Hframes. by rewrite <- Hframes, length_seqZ.
  - intros Hnone. rewrite Hnone in *. done.
  - intros k game Hk.
    destruct (Forall2_lookup_r _ _ _ _ _ Hframes Hk) as (frame & Hframe & Hgame).
    apply lookup_seqZ in Hframe as [-> Hlt]. rewrite Z.add_0_l in Hgame.
    destruct Hgame as (? & ? & ? & ? & ? & ? & Hc & Hr).
    destruct (frame_fraction (Z.of_nat k)) as [Hlow Hhigh]; [lia|].
    pose proof (Math_round_fraction
      (Settings.columns nextSettings - Settings.columns prevSettings) _ Hlow Hhigh).
    pose proof (Math_round_fraction
      (Settings.rows nextSettings - Settings.rows prevSettings) _ Hlow Hhigh).
    split_and!; [done..|lia|lia|lia|lia|].
    intros ->. by rewrite Hc, Hr, !Math_round_zero, !Z.add_0_r.
Qed.

End LoadingProperties.

Lemma load_same_difficulty_witness :
  load exampleDifficulties rotations calculations.countProximities
    {| difficultyID := "small"; settings := None |}
    (Some {| difficultyID := "small";
             settings := Some {| Settings.columns := 3; Settings.rows := 3;
                                 Settings.bombOdds := QArith_base.Qmake 1 2 |} |})
    0%nat
  = ([], Ok 0%nat).
Proof.
  apply (load_same_difficulty exampleDifficulties rotations
           calculations.countProximities).
  by intros props [= <-].
Defined.

Lemma load_unknown_difficulty_witness :
  load exampleDifficulties rotations calculations.countProximities
    {| difficultyID := "huge";
       settings := Some {| Settings.columns := 3; Settings.rows := 3;
                           Settings.bombOdds := QArith_base.Qmake 1 2 |} |}
    (Some {| difficultyID := "small"; settings := None |}) 0%nat
  = ([], Throw TypeError).
Proof.
  apply (load_unknown_difficulty exampleDifficulties rotations
           calculations.countProximities); [done|].
  right. split; [reflexivity|].
  unfold inheritedNames. intros Hin.
  repeat (apply elem_of_cons in Hin as [Hin|Hin]; [discriminate Hin|]).
  by apply elem_of_nil in Hin.
Defined.

Lemma load_frames_witness :
  ∃ frames final rng12 rng',
    load exampleDifficulties rotations calculations.countProximities
      {| difficultyID := "large"; settings := None |}
      (Some {| difficultyID := "small"; settings := None |}) 0%nat
    = (frames ++ [final], Ok rng')
    ∧ length frames = 12%nat
    ∧ restart exampleDifficulties rotations calculations.countProximities
        {| difficultyID := "large"; settings := None |} rng12
      = Ok (final, rng')
    ∧ columns final = 8 ∧ rows final = 5.
Proof.
  destruct (load_frames exampleDifficulties rotations calculations.countProximities
              {| difficultyID := "large"; settings := None |}
              {| difficultyID := "small"; settings := None |}
              {| Settings.columns := 2; Settings.rows := 2;
                 Settings.bombOdds := QArith_base.Qmake 1 4 |}
              {| Settings.columns := 8; Settings.rows := 5;
                 Settings.bombOdds := QArith_base.Qmake 1 4 |}
              0%nat)
    as (frames & final & rng12 & rng' & Hload & Hlength & Hfinal & Hdims & _);
    [done|reflexivity|reflexivity|].
  exists frames, final, rng12, rng'.
  destruct (Hdims eq_refl) as [Hcolumns Hrows]. done.
Defined.

Section SquareRestart.

Context {Rng : Type}.
Variable difficulties : gmap string Settings.t.
Variable shuffle : list bool → Rng → list bool * Rng.
Variable countProximities : Board → Proximities.
Hypothesis shuffle_Permutation : ∀ l rng, (shuffle l rng).1 ≡ₚ l.

Local Abbreviation restart := (restart difficulties shuffle countProximities).


End SquareRestart.


(** ** The handlers, one by one *)

Section Handlers.

Context {Rng : Type}.
Variable difficulties : gmap string Settings.t.
Variable shuffle : list bool → Rng → list bool * Rng.
Variable countProximities : Board → Proximities.
Variable allDirections : list (Z → Z → Z * Z).

Local Abbreviation restart := (restart difficulties shuffle countProximities).
Local Abbreviation completeRestart :=
  (completeRestart difficulties shuffle countProximities).
Local Abbreviation uncoverInNewBoard := (uncoverInNewBoard allDirections).
Local Abbreviation uncoverTile :=
  (uncoverTile difficulties shuffle countProximities allDirections).


(** X6.  After the first move, or at a first move on a tile without a
    bomb, a reveal at a cell of the board returns a game, whatever the
    props: it does not consult the difficulty, regenerates nothing, draws
    nothing from the random source and, given fuel for every tile, does not
    run out of it.  The move is counted; the proximities, the dimensions,
    [bombsCount], the start time and the places of the bombs are as they
    were; [finishedAt] is the time of the call when the game is over or
    won, and empty when it goes on. *)
Theorem uncoverTile_without_regeneration (fuel : nat) (props : Props)
    (r c now : Z) (rng : Rng) (game : Game) :
  playable game →
  movesCount game ≠ 0 ∨ hasBomb (board game) r c = false →
  wellShaped (rows game) (columns game) (board game) →
  wellShaped (rows game) (columns game) (proximities game) →
  inBounds (rows game) (columns game) r c →
  (Z.to_nat (rows game) * Z.to_nat (columns game) < fuel)%nat →
  ∃ game',
    uncoverTile fuel props r c now rng game = Ok (Some game', rng)
    ∧ (gameState game' = gameStates.playing ∧ finishedAt game' = None
       ∨ (gameState game' = gameStates.gameOver
          ∨ gameState game' = gameStates.winner)
         ∧ finishedAt game' = Some now)
    ∧ movesCount game' = movesCount game + 1
    ∧ proximities game' = proximities game
    ∧ rows game' = rows game ∧ columns game' = columns game
    ∧ bombsCount game' = bombsCount game
    ∧ startedAt game' = startedAt game
    ∧ wellShaped (rows game) (columns game) (board game')
    ∧ ∀ r' c', hasBomb (board game') r' c' = hasBomb (board game) r' c'.
Proof.
  intros Hplay Hkept Hshape Hprox Hrc Hfuel.
  unfold uncoverTile. unfold playable in Hplay. rewrite Hplay. cbn [negb].
  assert ((if decide (movesCount game = 0)
           then whileStartsWithBomb difficulties shuffle countProximities
                  fuel props r c (board game) (proximities game) rng
           else Ok (board game, proximities game, rng))
          = Ok (board game, proximities game, rng)) as ->.
  { case_decide as Hfirst; [|done].
    destruct Hkept as [|Hsafe]; [done|].
    destruct (wellShaped_tileAt _ _ _ r c Hshape Hrc) as [item Hitem].
    apply (hasBomb_false _ _ _ _ Hitem) in Hsafe.
    destruct fuel; simpl; by rewrite Hitem, decide_False. }
  simpl. rewrite copyBoard_id.
  pose proof (closedTiles_le _ _ _ Hshape) as Hclosed.
  destruct (uncoverInNewBoard_total allDirections (proximities game)
              (rows game) (columns game) Hprox fuel r c
              {| uncover.newBoard := board game;
                 uncover.gameOver := false;
                 uncover.uncoveredCount := uncoveredCount game;
                 uncover.flagsCount := flagsCount game |})
    as (vars & Hflood & Hshape' & _); [done|done|simpl; lia|].
  rewrite Hflood. simpl. eexists. split; [done|]. simpl.
  destruct (uncoverInNewBoard_keeps allDirections _ _ _ _ _ _ _ _ Hflood)
    as (_ & Hsame & _).
  split_and!; [|done..].
  destruct (uncover.gameOver vars); [right; by split; [left|]|].
  case_bool_decide; [right; by split; [right|]|by left].
Qed.

(** X7.  A reveal at a tile without a bomb that is not open, and whose
    proximity is not 0, opens this tile and no other: the board is the
    board with this tile open, [uncoveredCount] is one more, [flagsCount]
    is one less when the tile was flagged, and the game is won when this
    makes [uncoveredCount + bombsCount] equal to [columns * rows], and
    playing when not. *)
Theorem uncoverTile_numbered_tile (fuel : nat) (props : Props) (r c now : Z)
    (rng : Rng) (game : Game) (item : Tile) (proximitiesRow : list Z) :
  playable game →
  tileAt (board game) r c = Some item →
  bombState item = tileBombStates.blank →
  userState item ≠ tileUserStates.open →
  get (proximities game) r = Some proximitiesRow →
  get proximitiesRow c ≠ Some 0 →
  (0 < fuel)%nat →
  ∃ game',
    uncoverTile fuel props r c now rng game = Ok (Some game', rng)
    ∧ board game'
      = setTile (board game) r c
          {| bombState := tileBombStates.blank; userState := tileUserStates.open |}
    ∧ uncoveredCount game' = uncoveredCount game + 1
    ∧ flagsCount game'
      = flagsCount game
        - (if decide (userState item = tileUserStates.flag) then 1 else 0)
    ∧ movesCount game' = movesCount game + 1
    ∧ gameState game'
      = (if decide (uncoveredCount game + 1 + bombsCount game
                    = columns game * rows game)
         then gameStates.winner else gameStates.playing).
Proof.
  intros Hplay Hitem Hblank Hclosed Hrow Hnumber Hfuel.
  unfold uncoverTile. unfold playable in Hplay. rewrite Hplay. cbn [negb].
  destruct fuel as [|fuel]; [lia|].
  assert (bombState item ≠ tileBombStates.bomb) as Hsafe by congruence.
  assert ((if decide (movesCount game = 0)
           then whileStartsWithBomb difficulties shuffle countProximities
                  (S fuel) props r c (board game) (proximities game) rng
           else Ok (board game, proximities game, rng))
          = Ok (board game, proximities game, rng)) as ->.
  { case_decide; [|done]. simpl. by rewrite Hitem, decide_False. }
  simpl. rewrite copyBoard_id, Hitem, Hrow, decide_False by done.
  rewrite (changeItemToUncovered_blank _ Hsafe). simpl.
  assert (canExpandTile
            {| bombState := tileBombStates.blank; userState := tileUserStates.open |}
            (get proximitiesRow c) = false) as ->.
  { unfold canExpandTile. simpl. by rewrite bool_decide_eq_false_2. }
  simpl. eexists. split; [done|]. simpl.
  split_and!; [|done| |done|].
  - by rewrite (changeItemToUncovered_blank _ Hsafe).
  - case_decide; lia.
  - case_bool_decide; by case_decide.
Qed.

(** X8.  After the first move, a reveal at a tile that holds a bomb and
    is not open ends the game: this tile becomes [hitBomb] and no other
    tile changes, the game is [gameOver] with the time of the call as
    [finishedAt], and [uncoveredCount] and [flagsCount] are as they were,
    also when the tile was flagged. *)
Theorem uncoverTile_bomb (fuel : nat) (props : Props) (r c now : Z)
    (rng : Rng) (game : Game) (item : Tile) :
  playable game → movesCount game ≠ 0 →
  tileAt (board game) r c = Some item →
  bombState item = tileBombStates.bomb →
  userState item ≠ tileUserStates.open →
  is_Some (get (proximities game) r) →
  (0 < fuel)%nat →
  ∃ game',
    uncoverTile fuel props r c now rng game = Ok (Some game', rng)
    ∧ gameState game' = gameStates.gameOver
    ∧ finishedAt game' = Some now
    ∧ board game'
      = setTile (board game) r c
          {| bombState := tileBombStates.bomb; userState := tileUserStates.hitBomb |}
    ∧ uncoveredCount game' = uncoveredCount game
    ∧ flagsCount game' = flagsCount game
    ∧ movesCount game' = movesCount game + 1.
Proof.
  intros Hplay Hmoved Hitem Hbomb Hclosed [proximitiesRow Hrow] Hfuel.
  unfold uncoverTile. unfold playable in Hplay. rewrite Hplay. cbn [negb].
  destruct fuel as [|fuel]; [lia|].
  rewrite decide_False by done.
  simpl. rewrite copyBoard_id, Hitem, Hrow, decide_False by done.
  rewrite (changeItemToUncovered_bomb _ Hbomb). simpl.
  eexists. split; [done|]. simpl. split_and!; [done..| |done|done|done].
  by rewrite (changeItemToUncovered_bomb _ Hbomb).
Qed.

(** X9.  At a coordinate where the board has no tile, [flagTile] changes
    nothing, whereas [uncoverTile] on a playable game throws a
    [TypeError]. *)
Theorem off_board_coordinate (fuel : nat) (props : Props) (r c now : Z)
    (rng : Rng) (game : Game) :
  tileAt (board game) r c = None →
  flagTile r c game = game
  ∧ (playable game → (0 < fuel)%nat →
     uncoverTile fuel props r c now rng game = Throw TypeError).
Proof.
  intros Hnone. split.
  - unfold flagTile. rewrite (changeBoardItem_missing _ _ _ _ _ Hnone).
    by destruct game.
  - intros Hplay Hfuel. unfold uncoverTile.
    unfold playable in Hplay. rewrite Hplay. cbn [negb].
    destruct fuel as [|fuel]; [lia|].
    destruct (decide (movesCount game = 0)).
    + simpl. by rewrite Hnone.
    + simpl. by rewrite copyBoard_id, Hnone.
Qed.

(** X10.  [flagTile] writes the targeted tile only and no [bombState]: every
    other tile, the places of the bombs and the shape of the board are as
    they were, as is every field of the game but [board] and [flagsCount];
    and [flagsCount] moves as the number of flags on the board does. *)
Theorem flagTile_frame (r c : Z) (game : Game) :
  (∀ r' c', (r', c') ≠ (r, c) →
     tileAt (board (flagTile r c game)) r' c' = tileAt (board game) r' c')
  ∧ (∀ r' c', hasBomb (board (flagTile r c game)) r' c' = hasBomb (board game) r' c')
  ∧ (∀ rows columns, wellShaped rows columns (board game) →
       wellShaped rows columns (board (flagTile r c game)))
  ∧ flagsCount (flagTile r c game) - flagsOnBoard (board (flagTile r c game))
    = flagsCount game - flagsOnBoard (board game)
  ∧ gameState (flagTile r c game) = gameState game
  ∧ rows (flagTile r c game) = rows game
  ∧ columns (flagTile r c game) = columns game
  ∧ proximities (flagTile r c game) = proximities game
  ∧ bombsCount (flagTile r c game) = bombsCount game
  ∧ uncoveredCount (flagTile r c game) = uncoveredCount game
  ∧ movesCount (flagTile r c game) = movesCount game
  ∧ startedAt (flagTile r c game) = startedAt game
  ∧ finishedAt (flagTile r c game) = finishedAt game.
Proof.
  assert (∀ (old item : Tile) (n : Z),
    tileAt (board game) r c = Some old →
    bombState item = bombState old →
    n + (if decide (userState old = tileUserStates.flag) then 1 else 0)
    = flagsCount game
      + (if decide (userState item = tileUserStates.flag) then 1 else 0) →
    (∀ r' c', (r', c') ≠ (r, c) →
       tileAt (setTile (board game) r c item) r' c' = tileAt (board game) r' c')
    ∧ (∀ r' c', hasBomb (setTile (board game) r c item) r' c'
                = hasBomb (board game) r' c')
    ∧ (∀ rows columns, wellShaped rows columns (board game) →
         wellShaped rows columns (setTile (board game) r c item))
    ∧ n - flagsOnBoard (setTile (board game) r c item)
      = flagsCount game - flagsOnBoard (board game)) as Hwrite.
  { intros old item n Hold Hbomb Hn. split_and!.
    - intros r' c' Hne. by apply tileAt_setTile_ne.
    - intros r' c'. unfold hasBomb. rewrite (tileAt_setTile _ _ _ _ _ _ _ Hold).
      destruct (decide ((r', c') = (r, c))) as [Heq|]; [|done].
      injection Heq as -> ->. by rewrite Hold, Hbomb.
    - intros rows columns. apply wellShaped_setTile.
    - pose proof (tilesWhere_setTile (λ t, userState t = tileUserStates.flag)
                    _ r c old item Hold) as Hflags.
      simpl in Hflags. unfold flagsOnBoard, countTiles.
      repeat case_decide; lia. }
  unfold flagTile.
  destruct (tileAt (board game) r c) as [old|] eqn:Hold.
  - rewrite (changeBoardItem_found _ _ _ _ _ _ Hold).
    repeat case_decide; simpl.
    + destruct (Hwrite old {| bombState := bombState old;
                              userState := tileUserStates.flag |}
                  (flagsCount game + 1) eq_refl eq_refl) as (? & ? & ? & ?).
      { simpl. repeat case_decide; try congruence; lia. }
      done.
    + destruct (Hwrite old {| bombState := bombState old;
                              userState := tileUserStates.covered |}
                  (flagsCount game + -1) eq_refl eq_refl) as (? & ? & ? & ?).
      { simpl. repeat case_decide; try congruence; lia. }
      done.
    + by rewrite setTile_same.
  - by rewrite (changeBoardItem_missing _ _ _ _ _ Hold).
Qed.

(** X11.  [beginUncoverTile] returns nothing exactly when the game is not
    playable.  Otherwise the game is [beginningMove], still playable, with
    the time of the call as [startedAt] when the game was fresh and the
    [startedAt] it had when it was not; a second call changes nothing, so
    the start time is stamped once. *)
Theorem beginUncoverTile_stamps_once (now later : Z) (game : Game) :
  (beginUncoverTile now game = None ↔ ¬ playable game)
  ∧ ∀ game', beginUncoverTile now game = Some game' →
      gameState game' = gameStates.beginningMove
      ∧ playable game'
      ∧ startedAt game'
        = (if decide (gameState game = gameStates.fresh) then Some now
           else startedAt game)
      ∧ beginUncoverTile later game' = Some game'
      ∧ board game' = board game ∧ proximities game' = proximities game
      ∧ rows game' = rows game ∧ columns game' = columns game
      ∧ bombsCount game' = bombsCount game
      ∧ uncoveredCount game' = uncoveredCount game
      ∧ flagsCount game' = flagsCount game
      ∧ movesCount game' = movesCount game
      ∧ finishedAt game' = finishedAt game.
Proof.
  unfold beginUncoverTile, playable.
  destruct (canPlayForGameState (gameState game)); simpl.
  - split; [split; [done|by intros []]|].
    by intros game' [= <-].
  - split; [split; [by intros _ ?|done]|]. by intros game' [=].
Qed.

(** X12.  From [beginRestart] until [completeRestart], the game accepts
    no reveal: [beginUncoverTile] and [uncoverTile] return nothing and
    draw nothing from the random source.  [completeRestart] then gives the
    game that [restart] gives for the props, whatever the game was (of
    which only [finishedAt] stays), and throws where [restart] throws. *)
Theorem beginRestart_then_completeRestart (fuel : nat) (props : Props)
    (r c now : Z) (rng : Rng) (game : Game) :
  beginUncoverTile now (beginRestart game) = None
  ∧ uncoverTile fuel props r c now rng (beginRestart game) = Ok (None, rng)
  ∧ match restart props rng with
    | Ok (newGame, rng') =>
      ∃ game', completeRestart props rng (beginRestart game) = Ok (game', rng')
        ∧ playable game'
        ∧ gameState game' = gameStates.fresh
        ∧ board game' = board newGame
        ∧ proximities game' = proximities newGame
        ∧ rows game' = rows newGame ∧ columns game' = columns newGame
        ∧ bombsCount game' = bombsCount newGame
        ∧ uncoveredCount game' = 0 ∧ flagsCount game' = 0
        ∧ movesCount game' = 0 ∧ startedAt game' = None
        ∧ finishedAt game' = finishedAt game
    | Throw e => completeRestart props rng (beginRestart game) = Throw e
    | OutOfFuel => True
    end.
Proof.
  split_and!; [done..|]. unfold completeRestart.
  destruct (restart props rng) as [[newGame rng']| |] eqn:Hrestart; [|done..].
  simpl. eexists. split; [done|]. simpl.
  revert Hrestart. unfold restart.
  destruct (settingsFor _ _); [|done].
  destruct (shuffle _ _). by intros [= <- _].
Qed.

End Handlers.

(** ** The states of a game and its counters *)

Lemma flagTile_flagsCount (r c : Z) (game : Game) :
  flagsCount (flagTile r c game) - flagsOnBoard (board (flagTile r c game))
  = flagsCount game - flagsOnBoard (board game).
Proof.
  unfold flagTile.
  destruct (tileAt (board game) r c) as [old|] eqn:Hold.
  - rewrite (changeBoardItem_found _ _ _ _ _ _ Hold).
    destruct (decide (userState old = tileUserStates.covered)) as [Hcovered|];
      [|destruct (decide (userState old = tileUserStates.flag)) as [Hflag|]];
      simpl.
    + pose proof (tilesWhere_setTile (λ t, userState t = tileUserStates.flag)
        _ r c old {| bombState := bombState old; userState := tileUserStates.flag |}
        Hold) as Hflags.
      simpl in Hflags. unfold flagsOnBoard, countTiles.
      destruct (decide (userState old = tileUserStates.flag)); [congruence|lia].
    + pose proof (tilesWhere_setTile (λ t, userState t = tileUserStates.flag)
        _ r c old {| bombState := bombState old; userState := tileUserStates.covered |}
        Hold) as Hflags.
      simpl in Hflags. unfold flagsOnBoard, countTiles.
      destruct (decide (userState old = tileUserStates.flag)); [lia|done].
    + by rewrite setTile_same.
  - by rewrite (changeBoardItem_missing _ _ _ _ _ Hold).
Qed.

Lemma allCovered_flagsOnBoard (board : Board) :
  allCovered board → flagsOnBoard board = 0.
Proof.
  intros Hcovered. unfold flagsOnBoard, countTiles.
  rewrite tilesWhere_none; [done|].
  intros r c item Hitem. apply Hcovered in Hitem. congruence.
Qed.

(** In the flood fill [flagsCount] falls by no more than the number of
    flags on the board does. *)
Lemma uncoverInNewBoard_flagsCount (allDirections : list (Z → Z → Z * Z))
    (proximities : Proximities) (rows columns : Z)
    (fuel : nat) (r c : Z) (vars vars' : uncover.t Board) :
  uncoverInNewBoard allDirections fuel proximities rows columns r c vars = Ok vars' →
  uncover.flagsCount vars - flagsOnBoard (uncover.newBoard vars)
  ≤ uncover.flagsCount vars' - flagsOnBoard (uncover.newBoard vars').
Proof.
  apply (uncoverInNewBoard_rel allDirections proximities rows columns
    (λ v v',
       uncover.flagsCount v - flagsOnBoard (uncover.newBoard v)
       ≤ uncover.flagsCount v' - flagsOnBoard (uncover.newBoard v'))).
  - split; [by intros v|]. intros v1 v2 v3 H12 H23. lia.
  - intros v r0 c0 prevItem _ Hprev _ Hbomb. simpl.
    rewrite (changeItemToUncovered_bomb _ Hbomb).
    pose proof (tilesWhere_setTile (λ t, userState t = tileUserStates.flag)
      _ r0 c0 prevItem
      {| bombState := tileBombStates.bomb; userState := tileUserStates.hitBomb |}
      Hprev) as Hflags.
    simpl in Hflags. unfold flagsOnBoard, countTiles.
    destruct (decide (userState prevItem = tileUserStates.flag)); lia.
  - intros v r0 c0 prevItem _ Hprev _ Hblank. simpl.
    rewrite (changeItemToUncovered_blank _ Hblank).
    pose proof (tilesWhere_setTile (λ t, userState t = tileUserStates.flag)
      _ r0 c0 prevItem
      {| bombState := tileBombStates.blank; userState := tileUserStates.open |}
      Hprev) as Hflags.
    simpl in Hflags. unfold flagsOnBoard, countTiles.
    destruct (decide (userState prevItem = tileUserStates.flag)); lia.
Qed.

Section States.

Context {Rng : Type}.
Variable difficulties : gmap string Settings.t.
Variable shuffle : list bool → Rng → list bool * Rng.
Variable countProximities : Board → Proximities.
Variable allDirections : list (Z → Z → Z * Z).
Variable props : Props.

Local Abbreviation restart := (restart difficulties shuffle countProximities).
Local Abbreviation whileStartsWithBomb :=
  (whileStartsWithBomb difficulties shuffle countProximities).
Local Abbreviation uncoverInNewBoard := (uncoverInNewBoard allDirections).
Local Abbreviation uncoverTile :=
  (uncoverTile difficulties shuffle countProximities allDirections).
Local Abbreviation reachable :=
  (reachable difficulties shuffle countProximities allDirections).

Lemma restart_pristine (rng rng' : Rng) (game : Game) :
  restart props rng = Ok (game, rng') →
  gameState game = gameStates.fresh
  ∧ movesCount game = 0 ∧ uncoveredCount game = 0 ∧ flagsCount game = 0
  ∧ startedAt game = None ∧ allCovered (board game).
Proof.
  intros Hrestart.
  pose proof (restart_allCovered _ _ _ _ _ _ _ Hrestart) as Hcovered.
  revert Hrestart. unfold restart.
  destruct (settingsFor _ _); [|done].
  destruct (shuffle _ _). by intros [= <- _].
Qed.

(** X13.  In every game that the handlers produce, [flagsCount] is at
    least the number of flags on the board. *)
Theorem reachable_flagsCount (game : Game) :
  reachable props game → flagsOnBoard (board game) ≤ flagsCount game.
Proof.
  induction 1 as [rng game rng' Hinitial
                 |game _ IH
                 |rng game game' rng' _ _ Hrestart
                 |now game game' _ IH Hbegin
                 |fuel r c now rng game game' rng' _ IH Hrun
                 |r c game _ IH].
  - apply restart_pristine in Hinitial as (_ & _ & _ & -> & _ & Hcovered).
    by rewrite allCovered_flagsOnBoard.
  - done.
  - unfold completeRestart in Hrestart.
    destruct (restart props rng) as [[newGame rng1]| |] eqn:Hnew; [|done..].
    simpl in Hrestart. injection Hrestart as <- _. simpl.
    apply restart_pristine in Hnew as (_ & _ & _ & -> & _ & Hcovered).
    by rewrite allCovered_flagsOnBoard.
  - unfold beginUncoverTile in Hbegin.
    destruct (negb _); [done|]. by injection Hbegin as <-.
  - revert Hrun. unfold uncoverTile.
    destruct (negb _); [done|].
    destruct (if decide (movesCount game = 0) then _ else _)
      as [[[board1 proximities1] rng1]| |] eqn:Hloop; [|done..].
    assert (flagsOnBoard board1 ≤ flagsCount game) as Hboard1.
    { destruct (decide (movesCount game = 0)).
      - apply whileStartsWithBomb_board in Hloop as [->|Hcovered]; [done|].
        rewrite (allCovered_flagsOnBoard _ Hcovered).
        unfold flagsOnBoard, countTiles in IH. lia.
      - by injection Hloop as <- _ _. }
    simpl.
    destruct (uncoverInNewBoard fuel _ _ _ _ _ _) as [vars| |] eqn:Hflood;
      [|done..].
    apply uncoverInNewBoard_flagsCount in Hflood.
    simpl in *. rewrite copyBoard_id in *. intros [= <- _]. simpl. lia.
  - pose proof (flagTile_flagsCount r c game). lia.
Qed.

(** X14.  In every game that the handlers produce, whatever the
    dimensions, [uncoveredCount] is the number of open tiles on the board,
    and no tile is open before the first move. *)
Theorem reachable_uncoveredCount_open (game : Game) :
  reachable props game →
  uncoveredCount game = opensOnBoard (board game)
  ∧ (movesCount game = 0 → uncoveredCount game = 0)
  ∧ 0 ≤ movesCount game.
Proof.
  induction 1 as [rng game rng' Hinitial
                 |game _ IH
                 |rng game game' rng' _ _ Hrestart
                 |now game game' _ IH Hbegin
                 |fuel r c now rng game game' rng' _ IH Hrun
                 |r c game _ IH].
  - apply restart_pristine in Hinitial as (_ & -> & -> & _ & _ & Hcovered).
    by rewrite allCovered_opensOnBoard.
  - done.
  - unfold completeRestart in Hrestart.
    destruct (restart props rng) as [[newGame rng1]| |] eqn:Hnew; [|done..].
    simpl in Hrestart. injection Hrestart as <- _. simpl.
    apply restart_pristine in Hnew as (_ & -> & -> & _ & _ & Hcovered).
    by rewrite allCovered_opensOnBoard.
  - unfold beginUncoverTile in Hbegin.
    destruct (negb _); [done|]. by injection Hbegin as <-.
  - destruct IH as (Hopens & Hfirst & Hmoves).
    revert Hrun. unfold uncoverTile.
    destruct (negb _); [done|].
    destruct (if decide (movesCount game = 0) then _ else _)
      as [[[board1 proximities1] rng1]| |] eqn:Hloop; [|done..].
    assert (uncoveredCount game = opensOnBoard board1) as Hboard1.
    { destruct (decide (movesCount game = 0)) as [Hzero|].
      - apply whileStartsWithBomb_board in Hloop as [->|Hcovered]; [done|].
        by rewrite (allCovered_opensOnBoard _ Hcovered), (Hfirst Hzero).
      - by injection Hloop as <- _ _. }
    simpl.
    destruct (uncoverInNewBoard fuel _ _ _ _ _ _) as [vars| |] eqn:Hflood;
      [|done..].
    apply uncoverInNewBoard_counted in Hflood as [Hcount _].
    simpl in *. rewrite copyBoard_id in *. intros [= <- _]. simpl.
    split_and!; lia.
  - destruct IH as (Hopens & Hfirst & Hmoves).
    destruct (flagTile_board r c game)
      as (Hboard & _ & _ & _ & _ & _ & -> & ->).
    split_and!; [|done..].
    destruct Hboard as [->|(old & item & Hold & _ & Huser & Hwas & ->)]; [done|].
    pose proof (tilesWhere_setTile (λ t, userState t = tileUserStates.open)
                  _ r c old item Hold) as Hcount.
    simpl in Hcount.
    rewrite !decide_False in Hcount by (destruct Huser, Hwas; congruence).
    unfold opensOnBoard, countTiles in *. lia.
Qed.

(** X15.  What the state of a game that the handlers produce says of it.
    A fresh game has no move, no open tile and no start time, tiles that
    are covered or flagged, and a [flagsCount] that is the number of flags.
    A game that is playing, over or won has at least one move; it has a
    [finishedAt] exactly when it is over or won.  A game that is over shows
    a [hitBomb] tile, and no game that is neither over nor restarting shows
    one.  A game that is won has [uncoveredCount + bombsCount] equal to
    [columns * rows]. *)
Theorem reachable_gameState (game : Game) :
  reachable props game →
  0 ≤ movesCount game
  ∧ (gameState game = gameStates.fresh →
       movesCount game = 0 ∧ uncoveredCount game = 0 ∧ startedAt game = None
       ∧ flagsCount game = flagsOnBoard (board game)
       ∧ ∀ r c item, tileAt (board game) r c = Some item →
           userState item = tileUserStates.covered
           ∨ userState item = tileUserStates.flag)
  ∧ (gameState game = gameStates.playing →
       1 ≤ movesCount game ∧ finishedAt game = None)
  ∧ (gameState game = gameStates.gameOver →
       1 ≤ movesCount game ∧ finishedAt game ≠ None
       ∧ someHitBomb (board game))
  ∧ (gameState game = gameStates.winner →
       1 ≤ movesCount game ∧ finishedAt game ≠ None
       ∧ uncoveredCount game + bombsCount game = columns game * rows game)
  ∧ (gameState game ≠ gameStates.gameOver →
     gameState game ≠ gameStates.restarting →
     ¬ someHitBomb (board game)).
Proof.
  assert (∀ rng newGame rng',
    restart props rng = Ok (newGame, rng') →
    gameState newGame = gameStates.fresh
    ∧ movesCount newGame = 0 ∧ uncoveredCount newGame = 0
    ∧ startedAt newGame = None
    ∧ flagsCount newGame = flagsOnBoard (board newGame)
    ∧ (∀ r c item, tileAt (board newGame) r c = Some item →
         userState item = tileUserStates.covered
         ∨ userState item = tileUserStates.flag)
    ∧ ¬ someHitBomb (board newGame)) as Hnew.
  { intros rng newGame rng' (? & ? & ? & ? & ? & Hcovered)%restart_pristine.
    split_and!; [done..| | |by apply allCovered_no_hitBomb].
    - by rewrite allCovered_flagsOnBoard.
    - intros r c item Hitem. left. by eapply Hcovered. }
  induction 1 as [rng game rng' Hinitial
                 |game _ IH
                 |rng game game' rng' _ _ Hrestart
                 |now game game' _ IH Hbegin
                 |fuel r c now rng game game' rng' _ IH Hrun
                 |r c game _ IH].
  - apply Hnew in Hinitial as (Hfresh & Hmoves & ? & ? & ? & ? & ?).
    rewrite Hfresh, Hmoves. split_and!; done.
  - destruct IH as (? & _). simpl. split_and!; done.
  - unfold completeRestart in Hrestart.
    destruct (restart props rng) as [[newGame rng1]| |] eqn:Hrestarted; [|done..].
    simpl in Hrestart. injection Hrestart as <- _. simpl.
    apply Hnew in Hrestarted as (Hfresh & Hmoves & ? & ? & ? & ? & ?).
    rewrite Hfresh, Hmoves. split_and!; done.
  - unfold beginUncoverTile in Hbegin.
    destruct (canPlayForGameState (gameState game)) eqn:Hplay; [|done].
    simpl in Hbegin. injection Hbegin as <-. simpl.
    destruct IH as (? & _ & _ & _ & _ & Hnone).
    split_and!; [done..|]. intros _ _. apply Hnone.
    + intros Hover. by rewrite Hover in Hplay.
    + intros Hrestarting. by rewrite Hrestarting in Hplay.
  - destruct IH as (Hmoves & _ & _ & _ & _ & Hnone).
    revert Hrun. unfold uncoverTile.
    destruct (canPlayForGameState (gameState game)) eqn:Hplay;
      [|by intros [=]]. cbn [negb].
    assert (¬ someHitBomb (board game)) as Hnone0.
    { apply Hnone.
      - intros Hover. by rewrite Hover in Hplay.
      - intros Hrestarting. by rewrite Hrestarting in Hplay. }
    destruct (if decide (movesCount game = 0) then _ else _)
      as [[[board1 proximities1] rng1]| |] eqn:Hloop; [|done..].
    assert (¬ someHitBomb board1) as Hnone1.
    { destruct (decide (movesCount game = 0)).
      - apply whileStartsWithBomb_board in Hloop as [->|Hcovered]; [done|].
        by apply allCovered_no_hitBomb.
      - by injection Hloop as <- _ _. }
    simpl.
    destruct (uncoverInNewBoard fuel _ _ _ _ _ _) as [vars| |] eqn:Hflood;
      [|done..].
    apply uncoverInNewBoard_someHitBomb in Hflood.
    2:{ simpl. by rewrite copyBoard_id. }
    simpl. intros [= <- _]. simpl.
    destruct (uncover.gameOver vars) eqn:Hover; simpl.
    + split_and!; [lia|done..| |done| ].
      * intros _. split_and!; [lia|done|by apply Hflood].
      * done.
    + assert (¬ someHitBomb (uncover.newBoard vars)) as Hnone'.
      { intros Hsome. by apply Hflood in Hsome. }
      case_bool_decide as Hwon.
      * split_and!; [lia|done..| |done]. intros _. split_and!; [lia|done..].
      * split_and!; [lia|done| |done..]. intros _. split; [lia|done].
  - destruct IH as (Hmoves & Hfresh & Hplaying & Hover & Hwon & Hnone).
    pose proof (flagTile_flagsCount r c game) as Hflags.
    destruct (flagTile_board r c game)
      as (Hboard & Hstate & Hrows & Hcolumns & _ & Hbombs & Huncovered & Hmoved).
    assert (startedAt (flagTile r c game) = startedAt game
            ∧ finishedAt (flagTile r c game) = finishedAt game) as [Hstarted Hfinished].
    { unfold flagTile. by destruct (changeBoardItem _ _ _ _ _). }
    rewrite Hstate, Hrows, Hcolumns, Hbombs, Huncovered, Hmoved, Hstarted, Hfinished.
    destruct Hboard as [Hsame|(old & item & Hold & Hbomb & Huser & Hwas & Hset)].
    { rewrite Hsame in *. split_and!; [done| |done..].
      intros (? & ? & ? & ? & ?)%Hfresh. split_and!; [done..|lia|done]. }
    rewrite Hset in *.
    assert (userState item ≠ tileUserStates.hitBomb) as Hitem
      by (destruct Huser; congruence).
    assert (userState old ≠ tileUserStates.hitBomb) as Hold'
      by (destruct Hwas; congruence).
    split_and!; [done| |done| |done|].
    + intros (? & ? & ? & ? & Htiles)%Hfresh. split_and!; [done..|lia|].
      intros r' c' item'. rewrite (tileAt_setTile _ _ _ _ _ _ _ Hold).
      case_decide; [|by apply Htiles]. intros [= <-]. tauto.
    + intros (? & ? & r' & c' & hit & Hhit & Hstate')%Hover.
      split_and!; [done..|]. exists r', c', hit. split; [|done].
      rewrite (tileAt_setTile _ _ _ _ _ _ _ Hold).
      case_decide as Heq; [|done]. injection Heq as -> ->. congruence.
    + intros Hnot1 Hnot2 (r' & c' & hit & Hhit & Hstate').
      apply (Hnone Hnot1 Hnot2).
      rewrite (tileAt_setTile _ _ _ _ _ _ _ Hold) in Hhit.
      case_decide; [congruence|]. by exists r', c', hit.
Qed.

End States.

(** *** A game that is won *)

Lemma tileAt_elem_of_concat (board : Board) (r c : Z) (item : Tile) :
  tileAt board r c = Some item → item ∈ concat board.
Proof.
  rewrite tileAt_Some. intros (row & Hrow & Hitem).
  apply get_Some in Hrow as [_ Hrow]. apply get_Some in Hitem as [_ Hitem].
  apply list_elem_of_In, in_concat. exists row.
  split; apply list_elem_of_In; by eapply list_elem_of_lookup_2.
Qed.

(** When [P] implies [Q] on a board and as many tiles satisfy [P] as
    satisfy [Q], the two hold of the same tiles. *)
Lemma tilesWhere_all (P Q : Tile → Prop) `{!∀ t, Decision (P t)}
    `{!∀ t, Decision (Q t)} (board : Board) :
  (∀ r c item, tileAt board r c = Some item → P item → Q item) →
  tilesWhere P board = tilesWhere Q board →
  ∀ r c item, tileAt board r c = Some item → Q item → P item.
Proof.
  intros Himpl Hcount r c item Hitem%tileAt_elem_of_concat.
  revert item Hitem. apply (proj1 (Forall_forall (λ item, Q item → P item) _)).
  assert (Forall (λ item, P item → Q item) (concat board)) as Hall.
  { apply Forall_forall. intros item (r' & c' & Hitem)%elem_of_concat_tileAt.
    by eapply Himpl. }
  unfold tilesWhere in Hcount. clear Himpl.
  induction Hall as [|item l Hitem Hall IH]; [done|].
  assert (length (filter P l) ≤ length (filter Q l))%nat as Hle.
  { clear IH Hcount. induction Hall as [|item' l' Hitem' _ IH']; [done|].
    rewrite !filter_cons. repeat case_decide; simpl; try lia. tauto. }
  rewrite !filter_cons in Hcount.
  destruct (decide (P item)) as [HP|HP], (decide (Q item)) as [HQ|HQ];
    simpl in Hcount.
  - constructor; [done|]. apply IH. lia.
  - tauto.
  - lia.
  - constructor; [done|]. by apply IH.
Qed.

Section SquareWinner.

Context {Rng : Type}.
Variable difficulties : gmap string Settings.t.
Variable shuffle : list bool → Rng → list bool * Rng.
Variable countProximities : Board → Proximities.
Variable allDirections : list (Z → Z → Z * Z).

Hypothesis shuffle_Permutation : ∀ l rng, (shuffle l rng).1 ≡ₚ l.
Hypothesis countProximities_consistent : ∀ rows columns board,
  wellShaped rows columns board →
  consistent rows columns board (countProximities board).
Hypothesis countProximities_wellShaped : ∀ rows columns board,
  wellShaped rows columns board →
  wellShaped rows columns (countProximities board).

Variable props : Props.
Variable settings : Settings.t.
Hypothesis props_settings : settingsFor difficulties props = Some settings.
Hypothesis settings_square : Settings.columns settings = Settings.rows settings.
Hypothesis settings_rows : 0 ≤ Settings.rows settings.
Hypothesis settings_bombOdds :
  QArith_base.Qle (QArith_base.inject_Z 0) (Settings.bombOdds settings)
  ∧ QArith_base.Qle (Settings.bombOdds settings) (QArith_base.inject_Z 1).

Local Abbreviation restart := (restart difficulties shuffle countProximities).
Local Abbreviation uncoverTile :=
  (uncoverTile difficulties shuffle countProximities allDirections).
Local Abbreviation reachable :=
  (reachable difficulties shuffle countProximities allDirections).

Lemma reachable_won (game : Game) :
  reachable props game →
  gameState game = gameStates.winner →
  uncoveredCount game + bombsCount game = columns game * rows game.
Proof.
  induction 1 as [rng game rng' Hinitial
                 |game _ IH
                 |rng game game' rng' _ _ Hrestart
                 |now game game' _ IH Hbegin
                 |fuel r c now rng game game' rng' _ IH Hrun
                 |r c game _ IH].
  - revert Hinitial. unfold initial, restart.
    destruct (settingsFor _ _); [|done].
    destruct (shuffle _ _). by intros [= <- _].
  - done.
  - revert Hrestart. unfold completeRestart, restart.
    destruct (settingsFor _ _); [|done].
    destruct (shuffle _ _). by intros [= <- _].
  - unfold beginUncoverTile in Hbegin.
    destruct (negb _); [done|]. by injection Hbegin as <-.
  - revert Hrun. unfold uncoverTile.
    destruct (negb _); [done|].
    destruct (if decide (movesCount game = 0) then _ else _)
      as [[[board1 proximities1] rng1]| |]; [|done..].
    simpl.
    destruct (uncoverInNewBoard _ fuel _ _ _ _ _ _) as [vars| |]; [|done..].
    simpl. intros [= <- _]. simpl.
    destruct (uncover.gameOver vars); [done|].
    by case_bool_decide.
  - destruct (flagTile_board r c game)
      as (_ & -> & -> & -> & _ & -> & -> & _).
    done.
Qed.

(** X17.  On boards of as many columns as rows, a game that the handlers
    produce is won only with every tile that holds no bomb open, and every
    tile that holds one not open. *)
Theorem reachable_winner_square (game : Game) :
  reachable props game →
  gameState game = gameStates.winner →
  ∀ r c item, tileAt (board game) r c = Some item →
    (userState item = tileUserStates.open ↔ bombState item = tileBombStates.blank).
Proof using All.
  intros Hreachable Hwinner.
  pose proof (reachable_won game Hreachable Hwinner) as Hwon.
  destruct (reachable_counted difficulties shuffle countProximities allDirections
              shuffle_Permutation countProximities_consistent
              countProximities_wellShaped props settings props_settings
              settings_square settings_rows settings_bombOdds game Hreachable)
    as [(_ & Hopens & _ & Hbombs) _].
  destruct (reachable_invariant difficulties shuffle countProximities
              allDirections countProximities_consistent
              countProximities_wellShaped props settings props_settings
              game Hreachable)
    as (Hrows & Hcolumns & (Hshape & _) & Hright & _).
  pose proof (tilesWhere_complement
                (λ t, bombState t = tileBombStates.bomb) (board game)) as Hsplit.
  rewrite (wellShaped_tiles _ _ _ Hshape) in Hsplit.
  assert (∀ r c item, tileAt (board game) r c = Some item →
            userState item = tileUserStates.open →
            ¬ bombState item = tileBombStates.bomb) as Himpl.
  { intros r c item Hitem Hopen.
    destruct (Hright r c item Hitem) as [Hblank _]. by rewrite (Hblank Hopen). }
  intros r c item Hitem. split.
  - intros Hopen. by destruct (Hright r c item Hitem) as [Hblank _]; auto.
  - intros Hblank.
    apply (tilesWhere_all (λ t, userState t = tileUserStates.open)
             (λ t, ¬ bombState t = tileBombStates.bomb) (board game) Himpl)
      with r c; [|done|by rewrite Hblank].
    rewrite Hopens, <- Hbombs, Hrows, Hcolumns in Hwon.
    unfold opensOnBoard, bombsOnBoard, countTiles in Hwon.
    rewrite settings_square in *. nia.
Qed.

End SquareWinner.

(** ** The flood fill leaves no tile of proximity 0 half expanded *)

Lemma forEach_each {A S : Type} (I : S → Prop) (Q : A → S → Prop) (l : list A)
    (body : A → S → Result S) :
  (∀ x s s', x ∈ l → I s → body x s = Ok s' → I s' ∧ Q x s') →
  (∀ x y s s', y ∈ l → I s → Q x s → body y s = Ok s' → Q x s') →
  ∀ s s', I s → forEach l body s = Ok s' → I s' ∧ ∀ x, x ∈ l → Q x s'.
Proof.
  induction l as [|x l IH]; intros Hbody Hkeep s s' Hs Hrun; simpl in Hrun.
  - injection Hrun as <-. split; [done|]. by intros x ?%elem_of_nil.
  - destruct (body x s) as [s1| |] eqn:Hx; simpl in Hrun; try discriminate.
    destruct (Hbody x s s1) as [Hs1 Hx1]; [left|done..|].
    destruct (IH (λ y t t' Hy, Hbody y t t' (list_elem_of_further _ _ _ Hy))
                 (λ y z t t' Hz, Hkeep y z t t' (list_elem_of_further _ _ _ Hz))
                 s1 s' Hs1 Hrun) as [Hs' Hl].
    split; [done|]. intros y [->|Hy]%elem_of_cons; [|by apply Hl].
    refine (proj2 (forEach_inv (λ t, I t ∧ Q x t) l body _ s1 s'
                     (conj Hs1 Hx1) Hrun)).
    intros z t t' Hz [Ht Hxt] Hstep. split.
    + eapply Hbody; [by right|done..].
    + eapply (Hkeep x z); [by right|done..].
Qed.

Lemma tileAt_inBounds (rows columns : Z) (board : Board) (r c : Z) (item : Tile) :
  wellShaped rows columns board →
  tileAt board r c = Some item → inBounds rows columns r c.
Proof.
  intros [Hrows Hcolumns]. rewrite tileAt_Some. intros (row & Hrow & Hitem).
  apply get_Some in Hrow as [Hr Hrow]. apply get_Some in Hitem as [Hc Hitem].
  pose proof (lookup_lt_Some _ _ _ Hrow).
  pose proof (lookup_lt_Some _ _ _ Hitem) as Hlt.
  rewrite (proj1 (Forall_forall _ _) Hcolumns row) in Hlt
    by (by eapply list_elem_of_lookup_2).
  unfold inBounds. lia.
Qed.

Lemma allCovered_expanded (allDirections : list (Z → Z → Z * Z)) (rows columns : Z)
    (proximities : Proximities) (pending : Z * Z → Prop) (board : Board) :
  allCovered board → expanded allDirections rows columns proximities pending board.
Proof.
  intros Hcovered r c item Hitem Hopen. apply Hcovered in Hitem. congruence.
Qed.

(** Writing a tile that is not open over a tile that was not open leaves
    every open tile with the neighbours it had. *)
Lemma expanded_setTile (allDirections : list (Z → Z → Z * Z)) (rows columns : Z)
    (proximities : Proximities) (pending : Z * Z → Prop) (board : Board)
    (r c : Z) (old item : Tile) :
  tileAt board r c = Some old →
  userState old ≠ tileUserStates.open →
  userState item ≠ tileUserStates.open →
  expanded allDirections rows columns proximities pending board →
  expanded allDirections rows columns proximities pending (setTile board r c item).
Proof.
  intros Hold Hclosed Hitem Hexpanded r0 c0 item0.
  rewrite (tileAt_setTile _ _ _ _ _ _ _ Hold).
  case_decide; [by intros [= <-]|].
  intros Hitem0 Hopen Hzero Hpending f Hf Hin.
  destruct (Hexpanded r0 c0 item0 Hitem0 Hopen Hzero Hpending f Hf Hin)
    as (item' & Hitem' & Hopen').
  exists item'. split; [|done].
  rewrite (tileAt_setTile _ _ _ _ _ _ _ Hold).
  case_decide as Heq; [|done].
  destruct (f r0 c0) as [r' c']. simpl in *. injection Heq as -> ->. congruence.
Qed.

(** Opening tiles keeps the open tiles that were expanded so, the newly
    open tiles of proximity 0 being pending. *)
Lemma expanded_opened (allDirections : list (Z → Z → Z * Z)) (rows columns : Z)
    (proximities : Proximities) (pending pending' : Z * Z → Prop)
    (before after : Board) :
  opened before after →
  expanded allDirections rows columns proximities pending before →
  (∀ r c item,
     tileAt after r c = Some item →
     userState item = tileUserStates.open →
     proximityAt proximities r c = Some 0 →
     ¬ pending' (r, c) →
     ¬ pending (r, c)
     ∧ ∃ item0, tileAt before r c = Some item0
         ∧ userState item0 = tileUserStates.open) →
  expanded allDirections rows columns proximities pending' after.
Proof.
  intros Hopened Hexpanded Hnew r c item Hitem Hopen Hzero Hpending f Hf Hin.
  destruct (Hnew r c item Hitem Hopen Hzero Hpending)
    as (Hpending0 & item0 & Hitem0 & Hopen0).
  destruct (Hexpanded r c item0 Hitem0 Hopen0 Hzero Hpending0 f Hf Hin)
    as (item' & Hitem' & Hopen').
  destruct (Hopened (f r c).1 (f r c).2) as [Hsame|(i & Hi & _ & Hclosed & _)].
  - exists item'. by rewrite Hsame.
  - rewrite Hitem' in Hi. injection Hi as <-. done.
Qed.

Section FloodExpansion.

Variable allDirections : list (Z → Z → Z * Z).
Variable proximities : Proximities.
Variables rows columns : Z.
Hypothesis allDirections_neighbourly : neighbourly allDirections.

Local Abbreviation uncoverInNewBoard := (uncoverInNewBoard allDirections).
Local Abbreviation expanded := (expanded allDirections rows columns proximities).

(** A call on a bomb-free cell returns with every open tile of proximity 0
    expanded that was so before, and with the tiles it has opened
    expanded: those of proximity 0 have had the call go on to their
    neighbours. *)
Lemma uncoverInNewBoard_expanded (fuel : nat) :
  ∀ r c vars vars' (pending : Z * Z → Prop),
    consistent rows columns (uncover.newBoard vars) proximities →
    inBounds rows columns r c →
    hasBomb (uncover.newBoard vars) r c = false →
    uncover.gameOver vars = false →
    expanded pending (uncover.newBoard vars) →
    uncoverInNewBoard fuel proximities rows columns r c vars = Ok vars' →
    expanded pending (uncover.newBoard vars').
Proof using allDirections_neighbourly.
  induction fuel as [|fuel IH];
    intros r c vars vars' pending Hcons Hrc Hsafe Hover Hexpanded Hrun; [done|].
  simpl in Hrun. rewrite Hover in Hrun.
  destruct (tileAt (uncover.newBoard vars) r c) as [prevItem|] eqn:Hprev; [|done].
  destruct (get proximities r) as [proximitiesRow|] eqn:Hprox; [|done].
  apply (hasBomb_false _ _ _ _ Hprev) in Hsafe.
  destruct (decide (userState prevItem = tileUserStates.open)) as [Hopen|Hclosed].
  { by injection Hrun as <-. }
  rewrite (changeItemToUncovered_blank _ Hsafe) in Hrun. simpl in Hrun.
  pose proof (opened_uncovered vars r c prevItem Hprev Hclosed Hsafe) as Hstep.
  assert (proximityAt proximities r c = get proximitiesRow c) as Hat.
  { unfold proximityAt. by rewrite Hprox. }
  assert (∀ r0 c0 item,
    tileAt (uncover.newBoard (uncovered vars r c prevItem)) r0 c0 = Some item →
    userState item = tileUserStates.open →
    (r0, c0) ≠ (r, c) →
    ∃ item0, tileAt (uncover.newBoard vars) r0 c0 = Some item0
      ∧ userState item0 = tileUserStates.open) as Hothers.
  { intros r0 c0 item Hitem Hopen Hne. simpl in Hitem.
    rewrite tileAt_setTile_ne in Hitem by done. by exists item. }
  destruct (canExpandTile _ _) eqn:Hexpand.
  - apply andb_true_iff in Hexpand as [_ Hzero%bool_decide_eq_true].
    rewrite <- Hat in Hzero.
    assert (expanded (λ cell, pending cell ∨ cell = (r, c))
              (uncover.newBoard (uncovered vars r c prevItem))) as Hexpanded1.
    { apply (expanded_opened _ _ _ _ pending _ _ _ Hstep Hexpanded).
      intros r0 c0 item Hitem Hopen _ Hpending.
      split; [tauto|]. apply (Hothers r0 c0 item Hitem Hopen). tauto. }
    cut ((uncover.gameOver vars' = false
          ∧ opened (uncover.newBoard vars) (uncover.newBoard vars')
          ∧ expanded (λ cell, pending cell ∨ cell = (r, c)) (uncover.newBoard vars'))
         ∧ ∀ f, f ∈ allDirections →
             inBounds rows columns (f r c).1 (f r c).2 →
             ∃ item', tileAt (uncover.newBoard vars') (f r c).1 (f r c).2 = Some item'
               ∧ userState item' = tileUserStates.open).
    { intros [(_ & Hopened' & Hexpanded') Heach].
      intros r0 c0 item Hitem Hopen Hzero0 Hpending f Hf Hin.
      destruct (decide ((r0, c0) = (r, c))) as [[= -> ->]|Hne].
      * by apply Heach.
      * apply (Hexpanded' r0 c0 item Hitem Hopen Hzero0); [tauto|done..]. }
    revert Hrun.
    apply (forEach_each
      (λ s, uncover.gameOver s = false
            ∧ opened (uncover.newBoard vars) (uncover.newBoard s)
            ∧ expanded (λ cell, pending cell ∨ cell = (r, c)) (uncover.newBoard s))
      (λ f s, inBounds rows columns (f r c).1 (f r c).2 →
              ∃ item', tileAt (uncover.newBoard s) (f r c).1 (f r c).2 = Some item'
                ∧ userState item' = tileUserStates.open)).
    + intros f s s' Hf (Hover_s & Hopened_s & Hexpanded_s).
      pose proof (allDirections_neighbourly f Hf r c) as Hadj.
      destruct (f r c) as [r' c']. simpl in *.
      destruct (_ && _) eqn:Hin.
      * repeat (apply andb_true_iff in Hin as [Hin ?%bool_decide_eq_true]).
        apply bool_decide_eq_true in Hin.
        assert (inBounds rows columns r' c') as Hrc' by (unfold inBounds; lia).
        assert (consistent rows columns (uncover.newBoard s) proximities) as Hcons_s
          by (by eapply opened_consistent).
        assert (hasBomb (uncover.newBoard s) r' c' = false) as Hsafe'.
        { rewrite (opened_hasBomb _ _ _ _ Hopened_s).
          exact (Hcons r c Hrc Hzero r' c' Hadj Hrc'). }
        intros Hcall.
        pose proof (uncoverInNewBoard_blank allDirections proximities rows columns
                      allDirections_neighbourly fuel r' c' s s'
                      Hcons_s Hrc' Hsafe' Hover_s Hcall)
          as (Hover' & Hopened' & Htile').
        split; [split_and!|].
        -- done.
        -- by transitivity (uncover.newBoard s).
        -- by apply (IH r' c' s s').
        -- intros _. eexists. by split.
      * intros [= <-]. split; [done|]. intros Hin'.
        unfold inBounds in Hin'.
        rewrite !andb_false_iff, !bool_decide_eq_false in Hin. lia.
    + intros f g s s' Hg (Hover_s & Hopened_s & _) Hopen Hcall Hin.
      assert (opened (uncover.newBoard s) (uncover.newBoard s')) as Hopened'.
      { revert Hcall.
        pose proof (allDirections_neighbourly g Hg r c) as Hadj.
        destruct (g r c) as [r' c']. simpl in Hadj.
        destruct (_ && _) eqn:Hin'; [|by intros [= <-]].
        repeat (apply andb_true_iff in Hin' as [Hin' ?%bool_decide_eq_true]).
        apply bool_decide_eq_true in Hin'.
        intros Hcall.
        apply (uncoverInNewBoard_blank allDirections proximities rows columns
                 allDirections_neighbourly fuel r' c' s s'); [..|done].
        - by eapply opened_consistent.
        - unfold inBounds; lia.
        - rewrite (opened_hasBomb _ _ _ _ Hopened_s).
          apply (Hcons r c Hrc Hzero r' c' Hadj). unfold inBounds; lia.
        - done. }
      destruct (Hopen Hin) as (item' & Hitem' & Hopen').
      destruct (Hopened' (f r c).1 (f r c).2)
        as [Hsame|(i & Hi & _ & Hclosed' & _)].
      * exists item'. by rewrite Hsame.
      * rewrite Hitem' in Hi. injection Hi as <-. done.
    + done.
  - injection Hrun as <-.
    apply (expanded_opened _ _ _ _ pending _ _ _ Hstep Hexpanded).
    intros r0 c0 item Hitem Hopen Hzero Hpending. split; [done|].
    apply (Hothers r0 c0 item Hitem Hopen). intros [= -> ->].
    rewrite Hat in Hzero. unfold canExpandTile in Hexpand.
    rewrite Hzero in Hexpand. simpl in Hexpand. done.
Qed.

End FloodExpansion.

Section Expansion.

Context {Rng : Type}.
Variable difficulties : gmap string Settings.t.
Variable shuffle : list bool → Rng → list bool * Rng.
Variable countProximities : Board → Proximities.
Variable allDirections : list (Z → Z → Z * Z).

Hypothesis allDirections_neighbourly : neighbourly allDirections.
Hypothesis countProximities_consistent : ∀ rows columns board,
  wellShaped rows columns board →
  consistent rows columns board (countProximities board).
Hypothesis countProximities_wellShaped : ∀ rows columns board,
  wellShaped rows columns board →
  wellShaped rows columns (countProximities board).

Variable props : Props.
Variable settings : Settings.t.
Hypothesis props_settings : settingsFor difficulties props = Some settings.

Local Abbreviation restart := (restart difficulties shuffle countProximities).
Local Abbreviation uncoverInNewBoard := (uncoverInNewBoard allDirections).
Local Abbreviation uncoverTile :=
  (uncoverTile difficulties shuffle countProximities allDirections).
Local Abbreviation reachable :=
  (reachable difficulties shuffle countProximities allDirections).

(** X18.  In every game that the handlers produce, around every open tile
    of proximity 0 the tiles that [allDirections] leads to within the board
    are open: the flood fill has left no such tile with a covered or
    flagged neighbour, and no later flag or reveal brings one about. *)
Theorem reachable_expanded (game : Game) :
  reachable props game →
  ∀ r c item,
    tileAt (board game) r c = Some item →
    userState item = tileUserStates.open →
    proximityAt (proximities game) r c = Some 0 →
    ∀ f, f ∈ allDirections →
      inBounds (rows game) (columns game) (f r c).1 (f r c).2 →
      ∃ item', tileAt (board game) (f r c).1 (f r c).2 = Some item'
        ∧ userState item' = tileUserStates.open.
Proof using All.
  intros Hreachable.
  cut (expanded allDirections (rows game) (columns game) (proximities game)
         (λ _, False) (board game)).
  { intros Hexpanded r c item Hitem Hopen Hzero.
    apply (Hexpanded r c item Hitem Hopen Hzero). tauto. }
  induction Hreachable as [rng game rng' Hinitial
                 |game _ IH
                 |rng game game' rng' _ _ Hrestart
                 |now game game' _ IH Hbegin
                 |fuel r c now rng game game' rng' Hreachable IH Hrun
                 |r c game _ IH].
  - by apply allCovered_expanded, (restart_allCovered _ _ _ _ _ _ _ Hinitial).
  - done.
  - unfold completeRestart in Hrestart.
    destruct (restart props rng) as [[newGame rng1]| |] eqn:Hnew; [|done..].
    simpl in Hrestart. injection Hrestart as <- _. simpl.
    by apply allCovered_expanded, (restart_allCovered _ _ _ _ _ _ _ Hnew).
  - unfold beginUncoverTile in Hbegin.
    destruct (negb _); [done|]. by injection Hbegin as <-.
  - destruct (reachable_invariant difficulties shuffle countProximities
                allDirections countProximities_consistent
                countProximities_wellShaped props settings props_settings
                game Hreachable)
      as (Hrows & Hcolumns & Hwf & _).
    revert Hrun. unfold uncoverTile.
    destruct (negb _); [done|].
    destruct (if decide (movesCount game = 0) then _ else _)
      as [[[board1 proximities1] rng1]| |] eqn:Hloop; [|done..].
    assert (wellFormed (rows game) (columns game) board1 proximities1
            ∧ expanded allDirections (rows game) (columns game) proximities1
                (λ _, False) board1)
      as [(Hshape1 & _ & Hcons1) Hexpanded1].
    { rewrite Hrows, Hcolumns in *.
      assert ((board1 = board game ∧ proximities1 = proximities game)
              ∨ ∃ rng0 game0 rng2,
                  restart props rng0 = Ok (game0, rng2)
                  ∧ board1 = board game0 ∧ proximities1 = proximities game0)
        as [[-> ->]|(rng0 & game0 & rng2 & Hrestart & -> & ->)].
      { destruct (decide (movesCount game = 0)).
        - by eapply whileStartsWithBomb_origin.
        - injection Hloop as <- <- _. by left. }
      - done.
      - apply (restart_invariant difficulties shuffle countProximities
                 countProximities_consistent countProximities_wellShaped
                 props settings props_settings) in Hrestart
          as [(_ & _ & ? & _) Hcovered].
        split; [done|]. by apply allCovered_expanded. }
    simpl.
    destruct (uncoverInNewBoard fuel _ _ _ _ _ _) as [vars| |] eqn:Hflood;
      [|done..].
    simpl. intros [= <- _]. simpl.
    rewrite copyBoard_id in Hflood.
    destruct (tileAt board1 r c) as [prevItem|] eqn:Hprev.
    2:{ destruct fuel; simpl in Hflood; [done|]. by rewrite Hprev in Hflood. }
    pose proof (tileAt_inBounds _ _ _ _ _ _ Hshape1 Hprev) as Hrc.
    destruct (decide (bombState prevItem = tileBombStates.bomb)) as [Hbomb|Hblank].
    + destruct fuel; simpl in Hflood; [done|]. rewrite Hprev in Hflood.
      destruct (get proximities1 r); [|done].
      destruct (decide (userState prevItem = tileUserStates.open)) as [|Hclosed].
      { by injection Hflood as <-. }
      rewrite (changeItemToUncovered_bomb _ Hbomb) in Hflood. simpl in Hflood.
      injection Hflood as <-. simpl.
      rewrite (changeItemToUncovered_bomb _ Hbomb).
      by eapply expanded_setTile.
    + eapply (uncoverInNewBoard_expanded allDirections proximities1
                (rows game) (columns game) allDirections_neighbourly
                fuel r c _ vars); [..|exact Hflood]; simpl; [done..| |done|done].
      by apply (hasBomb_false _ _ _ _ Hprev).
  - destruct (flagTile_board r c game)
      as (Hboard & _ & -> & -> & -> & _).
    destruct Hboard as [->|(old & item & Hold & _ & Huser & Hwas & ->)]; [done|].
    eapply expanded_setTile; [done| | |done].
    + destruct Hwas; congruence.
    + destruct Huser; congruence.
Qed.

End Expansion.

(** ** Settings that leave no tile without a bomb *)

Lemma Math_round_comp (x y : QArith_base.Q) :
  QArith_base.Qeq x y → Math_round x = Math_round y.
Proof.
  intros Heq. unfold Math_round.
  by apply Qround.Qfloor_comp, QArith_base.Qplus_comp.
Qed.

Section AllBombs.

Context {Rng : Type}.
Variable difficulties : gmap string Settings.t.
Variable shuffle : list bool → Rng → list bool * Rng.
Variable countProximities : Board → Proximities.
Variable allDirections : list (Z → Z → Z * Z).

Hypothesis shuffle_Permutation : ∀ l rng, (shuffle l rng).1 ≡ₚ l.

Variable props : Props.
Variable settings : Settings.t.
Hypothesis props_settings : settingsFor difficulties props = Some settings.
Hypothesis settings_bombOdds :
  QArith_base.Qeq (Settings.bombOdds settings) (QArith_base.inject_Z 1).
Hypothesis settings_columns : Settings.rows settings ≤ Settings.columns settings.

Local Abbreviation rows0 := (Settings.rows settings).
Local Abbreviation columns0 := (Settings.columns settings).

Local Abbreviation restart := (restart difficulties shuffle countProximities).
Local Abbreviation whileStartsWithBomb :=
  (whileStartsWithBomb difficulties shuffle countProximities).
Local Abbreviation uncoverTile :=
  (uncoverTile difficulties shuffle countProximities allDirections).
Local Abbreviation reachable :=
  (reachable difficulties shuffle countProximities allDirections).

Lemma restart_allBombs (rng : Rng) :
  ∃ game rng',
    restart props rng = Ok (game, rng')
    ∧ gameState game = gameStates.fresh ∧ movesCount game = 0
    ∧ wellShaped rows0 columns0 (board game)
    ∧ allBombs (board game).
Proof using shuffle_Permutation props_settings settings_bombOdds settings_columns.
  unfold restart. rewrite props_settings.
  assert (Math_round (QArith_base.Qmult (Settings.bombOdds settings)
                        (QArith_base.inject_Z (columns0 * rows0)))
          = columns0 * rows0) as ->.
  { rewrite <- (Math_round_Z (columns0 * rows0)) at 2.
    apply Math_round_comp. rewrite settings_bombOdds.
    apply QArith_base.Qmult_1_l. }
  pose proof (shuffle_Permutation (unshuffledBombs (columns0 * rows0) (columns0 * rows0))
                rng) as Hperm.
  destruct (shuffle _ rng) as [shuffledBombs rng']. simpl in Hperm.
  rewrite unshuffledBombs_all_bombs in Hperm.
  eexists _, _. split; [done|]. simpl.
  split_and!; [done..|apply restartBoard_wellShaped|].
  intros r c item Hitem.
  pose proof (tileAt_inBounds _ _ _ _ _ _
                (restartBoard_wellShaped columns0 rows0 shuffledBombs) Hitem)
    as Hrc.
  rewrite (tileAt_restartBoard _ _ _ _ _ Hrc) in Hitem. injection Hitem as <-.
  destruct Hrc as [Hr Hc].
  destruct (get_in_range shuffledBombs (r * rows0 + c)) as [marker Hmarker].
  { rewrite Hperm, length_replicate. nia. }
  rewrite Hmarker. simpl.
  apply get_Some in Hmarker as [_ Hmarker].
  apply list_elem_of_lookup_2 in Hmarker. rewrite Hperm in Hmarker.
  by apply elem_of_replicate in Hmarker as [-> _].
Qed.

(** With a bomb under every tile, the loop of the first move does not
    come to an end. *)
Lemma whileStartsWithBomb_allBombs (r c : Z) (fuel : nat) :
  inBounds rows0 columns0 r c →
  ∀ board proximities rng,
    wellShaped rows0 columns0 board → allBombs board →
    whileStartsWithBomb fuel props r c board proximities rng = OutOfFuel.
Proof using shuffle_Permutation props_settings settings_bombOdds settings_columns.
  intros Hrc.
  induction fuel as [|fuel IH]; intros board proximities rng Hshape Hbombs; simpl;
    destruct (wellShaped_tileAt _ _ _ r c Hshape Hrc) as [item Hitem];
    rewrite Hitem, decide_True by (by eapply Hbombs); [done|].
  unfold regenerated.
  destruct (restart_allBombs rng) as (game & rng' & -> & _ & _ & ? & ?). simpl.
  by apply IH.
Qed.

Lemma reachable_allBombs (game : Game) :
  reachable props game →
  movesCount game = 0 ∧ rows game = rows0 ∧ columns game = columns0
  ∧ wellShaped rows0 columns0 (board game) ∧ allBombs (board game).
Proof using shuffle_Permutation props_settings settings_bombOdds settings_columns.
  assert (∀ rng newGame rng', restart props rng = Ok (newGame, rng') →
    movesCount newGame = 0 ∧ rows newGame = rows0 ∧ columns newGame = columns0
    ∧ wellShaped rows0 columns0 (board newGame) ∧ allBombs (board newGame))
    as Hnew.
  { intros rng newGame rng' Hrestart.
    destruct (restart_allBombs rng) as (game0 & rng0 & Hrestart0 & _ & ? & ? & ?).
    rewrite Hrestart in Hrestart0. injection Hrestart0 as <- <-.
    destruct (restart_Ok difficulties shuffle countProximities props settings
                props_settings rng) as (game1 & rng1 & Hrestart1 & _ & ? & ? & _).
    rewrite Hrestart in Hrestart1. injection Hrestart1 as <- <-. done. }
  induction 1 as [rng game rng' Hinitial
                 |game _ IH
                 |rng game game' rng' _ _ Hrestart
                 |now game game' _ IH Hbegin
                 |fuel r c now rng game game' rng' _ IH Hrun
                 |r c game _ IH].
  - by eapply Hnew.
  - done.
  - unfold completeRestart in Hrestart.
    destruct (restart props rng) as [[newGame rng1]| |] eqn:Hrestarted; [|done..].
    simpl in Hrestart. injection Hrestart as <- _. simpl. by eapply Hnew.
  - unfold beginUncoverTile in Hbegin.
    destruct (negb _); [done|]. by injection Hbegin as <-.
  - destruct IH as (Hmoves & Hrows & Hcolumns & Hshape & Hbombs).
    exfalso. revert Hrun. unfold uncoverTile.
    destruct (negb _); [done|]. rewrite decide_True by done.
    destruct (tileAt (board game) r c) as [item|] eqn:Hitem.
    + rewrite whileStartsWithBomb_allBombs; [done| |done..].
      by eapply tileAt_inBounds.
    + destruct fuel; simpl; by rewrite Hitem.
  - destruct IH as (Hmoves & Hrows & Hcolumns & Hshape & Hbombs).
    destruct (flagTile_board r c game)
      as (Hboard & _ & -> & -> & _ & _ & _ & ->).
    split_and!; [done..| |].
    + destruct Hboard as [->|(old & item & _ & _ & _ & _ & ->)]; [done|].
      by apply wellShaped_setTile.
    + destruct Hboard as [->|(old & item & Hold & Hbomb & _ & _ & ->)]; [done|].
      intros r' c' item'. rewrite (tileAt_setTile _ _ _ _ _ _ _ Hold).
      case_decide; [|by apply Hbombs]. intros [= <-]. rewrite Hbomb.
      by eapply Hbombs.
Qed.

(** X19.  With [bombOdds] 1 and at least as many columns as rows, every
    tile of every board holds a bomb, and no game gets past its first
    move: in every playable game that the handlers produce, a reveal at a
    cell of the board regenerates the board without end, whatever the
    fuel. *)
Theorem uncoverTile_allBombs (game : Game) (fuel : nat) (r c now : Z) (rng : Rng) :
  reachable props game →
  playable game →
  inBounds rows0 columns0 r c →
  allBombs (board game)
  ∧ movesCount game = 0
  ∧ uncoverTile fuel props r c now rng game = OutOfFuel.
Proof using All.
  intros (Hmoves & _ & _ & Hshape & Hbombs)%reachable_allBombs Hplay Hrc.
  split_and!; [done..|].
  unfold uncoverTile. unfold playable in Hplay. rewrite Hplay. cbn [negb].
  rewrite decide_True by done.
  by rewrite whileStartsWithBomb_allBombs.
Qed.

End AllBombs.

(** ** The worked examples are games that the handlers produce *)

Lemma example2x2_reachable :
  reachable ∅ rotations calculations.countProximities calculations.allDirections
    example2x2_props example2x2.
Proof. exact (reachable_initial _ _ _ _ _ _ _ _ example2x2_restart). Qed.

Lemma example2x2_moved_reachable :
  reachable ∅ rotations calculations.countProximities calculations.allDirections
    example2x2_props example2x2_moved.
Proof.
  exact (reachable_uncoverTile _ _ _ _ _ _ _ _ _ _ _ _ _
           example2x2_reachable example2x2_uncover).
Qed.

Lemma example2x2_won_reachable :
  reachable ∅ rotations calculations.countProximities calculations.allDirections
    example2x2_props example2x2_won.
Proof.
  apply (reachable_uncoverTile _ _ _ _ _ 5 1 0 0 1%nat example2x2_second _ 1%nat);
    [|vm_compute; reflexivity].
  apply (reachable_uncoverTile _ _ _ _ _ 5 0 1 0 1%nat example2x2_moved _ 1%nat);
    [|vm_compute; reflexivity].
  exact example2x2_moved_reachable.
Qed.

Lemma example3x3_revealed_reachable :
  reachable ∅ rotations calculations.countProximities calculations.allDirections
    example3x3_props example3x3_revealed.
Proof.
  apply (reachable_uncoverTile _ _ _ _ _ 20 2 2 0 1%nat example3x3_game _ 1%nat);
    [|vm_compute; reflexivity].
  apply (reachable_initial _ _ _ _ _ 0%nat _ 1%nat). vm_compute. reflexivity.
Qed.

Lemma exampleAllBombs_reachable :
  reachable ∅ rotations calculations.countProximities calculations.allDirections
    exampleAllBombs_props exampleAllBombs.
Proof.
  apply (reachable_initial _ _ _ _ _ 0%nat _ 1%nat). vm_compute. reflexivity.
Qed.

Lemma uncoverTile_without_regeneration_witness :
  ∃ game',
    uncoverTile ∅ rotations calculations.countProximities calculations.allDirections
      5 example2x2_props 1 1 0 1%nat example2x2
    = Ok (Some game', 1%nat)
    ∧ movesCount game' = 1
    ∧ proximities game' = proximities example2x2.
Proof.
  destruct (uncoverTile_without_regeneration ∅ rotations
              calculations.countProximities calculations.allDirections
              5 example2x2_props 1 1 0 1%nat example2x2)
    as (game' & Hrun & _ & Hmoves & Hprox & _).
  - reflexivity.
  - right. reflexivity.
  - split; [reflexivity|]. by repeat constructor.
  - split; [reflexivity|]. by repeat constructor.
  - unfold inBounds. simpl. lia.
  - simpl. lia.
  - exists game'. by split_and!.
Defined.

Lemma uncoverTile_numbered_tile_witness :
  ∃ game',
    uncoverTile ∅ rotations calculations.countProximities calculations.allDirections
      5 example2x2_props 0 1 0 1%nat example2x2_moved
    = Ok (Some game', 1%nat)
    ∧ uncoveredCount game' = 2
    ∧ gameState game' = gameStates.playing.
Proof.
  destruct (uncoverTile_numbered_tile ∅ rotations calculations.countProximities
              calculations.allDirections 5 example2x2_props 0 1 0 1%nat
              example2x2_moved
              {| bombState := tileBombStates.blank;
                 userState := tileUserStates.covered |} [0; 1])
    as (game' & Hrun & _ & Hcount & _ & _ & Hstate);
    [reflexivity|reflexivity|reflexivity|done|reflexivity|done|lia|].
  exists game'. by split_and!.
Defined.

Lemma uncoverTile_bomb_witness :
  ∃ game',
    uncoverTile ∅ rotations calculations.countProximities calculations.allDirections
      5 example2x2_props 0 0 7 1%nat (flagTile 0 0 example2x2_moved)
    = Ok (Some game', 1%nat)
    ∧ gameState game' = gameStates.gameOver
    ∧ finishedAt game' = Some 7
    ∧ flagsCount game' = 1.
Proof.
  destruct (uncoverTile_bomb ∅ rotations calculations.countProximities
              calculations.allDirections 5 example2x2_props 0 0 7 1%nat
              (flagTile 0 0 example2x2_moved)
              {| bombState := tileBombStates.bomb;
                 userState := tileUserStates.flag |})
    as (game' & Hrun & Hstate & Hfinished & _ & _ & Hflags & _);
    [reflexivity|done|reflexivity|reflexivity|done|by eexists|lia|].
  exists game'. by split_and!.
Defined.

Lemma off_board_coordinate_witness :
  flagTile 2 0 example2x2 = example2x2
  ∧ (playable example2x2 → (0 < 5)%nat →
     uncoverTile ∅ rotations calculations.countProximities
       calculations.allDirections 5 example2x2_props 2 0 0 1%nat example2x2
     = Throw TypeError).
Proof.
  apply (off_board_coordinate ∅ rotations calculations.countProximities
           calculations.allDirections 5 example2x2_props 2 0 0 1%nat example2x2).
  reflexivity.
Defined.

Lemma reachable_flagsCount_witness :
  flagsOnBoard (board (flagTile 0 0 example2x2_moved))
  ≤ flagsCount (flagTile 0 0 example2x2_moved).
Proof.
  apply (reachable_flagsCount ∅ rotations calculations.countProximities
           calculations.allDirections example2x2_props).
  apply reachable_flagTile. exact example2x2_moved_reachable.
Defined.

Lemma reachable_uncoveredCount_open_witness :
  uncoveredCount example3x3_revealed = opensOnBoard (board example3x3_revealed)
  ∧ (movesCount example3x3_revealed = 0 → uncoveredCount example3x3_revealed = 0)
  ∧ 0 ≤ movesCount example3x3_revealed.
Proof.
  apply (reachable_uncoveredCount_open ∅ rotations calculations.countProximities
           calculations.allDirections example3x3_props).
  exact example3x3_revealed_reachable.
Defined.

Lemma reachable_gameState_witness :
  1 ≤ movesCount example2x2_won ∧ finishedAt example2x2_won ≠ None
  ∧ uncoveredCount example2x2_won + bombsCount example2x2_won
    = columns example2x2_won * rows example2x2_won.
Proof.
  destruct (reachable_gameState ∅ rotations calculations.countProximities
              calculations.allDirections example2x2_props example2x2_won
              example2x2_won_reachable)
    as (_ & _ & _ & _ & Hwon & _).
  by apply Hwon.
Defined.

Lemma reachable_winner_square_witness :
  (userState {| bombState := tileBombStates.blank;
                userState := tileUserStates.open |} = tileUserStates.open
   ↔ bombState {| bombState := tileBombStates.blank;
                  userState := tileUserStates.open |} = tileBombStates.blank)
  ∧ (userState {| bombState := tileBombStates.bomb;
                  userState := tileUserStates.covered |} = tileUserStates.open
     ↔ bombState {| bombState := tileBombStates.bomb;
                    userState := tileUserStates.covered |} = tileBombStates.blank).
Proof.
  pose proof (reachable_winner_square ∅ rotations calculations.countProximities
           calculations.allDirections rotations_Permutation
           (λ rows columns board _, calculations_consistent rows columns board)
           calculations_wellShaped example2x2_props
           {| Settings.columns := 2; Settings.rows := 2;
              Settings.bombOdds := QArith_base.Qmake 1 4 |}
           eq_refl eq_refl) as Hwon.
  split.
  - apply (Hwon ltac:(done)
             ltac:(split; unfold QArith_base.Qle; simpl; lia)
             example2x2_won example2x2_won_reachable eq_refl 1 1).
    reflexivity.
  - apply (Hwon ltac:(done)
             ltac:(split; unfold QArith_base.Qle; simpl; lia)
             example2x2_won example2x2_won_reachable eq_refl 0 0).
    reflexivity.
Defined.

Lemma reachable_uncoveredCount_witness :
  uncoveredCount example2x2_won
  ≤ columns example2x2_won * rows example2x2_won - bombsCount example2x2_won.
Proof.
  apply (reachable_uncoveredCount ∅ rotations calculations.countProximities
           calculations.allDirections rotations_Permutation
           (λ rows columns board _, calculations_consistent rows columns board)
           calculations_wellShaped example2x2_props
           {| Settings.columns := 2; Settings.rows := 2;
              Settings.bombOdds := QArith_base.Qmake 1 4 |}
           eq_refl eq_refl).
  - done.
  - split; unfold QArith_base.Qle; simpl; lia.
  - exact example2x2_won_reachable.
Defined.

Lemma reachable_expanded_witness :
  ∃ item', tileAt (board example3x3_revealed) 1 1 = Some item'
    ∧ userState item' = tileUserStates.open.
Proof.
  apply (reachable_expanded ∅ rotations calculations.countProximities
           calculations.allDirections calculations_neighbourly
           (λ rows columns board _, calculations_consistent rows columns board)
           calculations_wellShaped example3x3_props
           {| Settings.columns := 3; Settings.rows := 3;
              Settings.bombOdds := QArith_base.Qmake 1 9 |}
           eq_refl example3x3_revealed example3x3_revealed_reachable 2 2
           {| bombState := tileBombStates.blank; userState := tileUserStates.open |}
           eq_refl eq_refl eq_refl (λ r c, (r - 1, c - 1))).
  - unfold calculations.allDirections. left.
  - unfold inBounds. simpl. lia.
Defined.

Lemma uncoverTile_allBombs_witness :
  allBombs (board exampleAllBombs)
  ∧ movesCount exampleAllBombs = 0
  ∧ uncoverTile ∅ rotations calculations.countProximities calculations.allDirections
      7 exampleAllBombs_props 0 1 0 1%nat exampleAllBombs
    = OutOfFuel.
Proof.
  apply (uncoverTile_allBombs ∅ rotations calculations.countProximities
           calculations.allDirections rotations_Permutation exampleAllBombs_props
           {| Settings.columns := 2; Settings.rows := 2;
              Settings.bombOdds := QArith_base.Qmake 1 1 |}
           eq_refl).
  - reflexivity.
  - done.
  - exact exampleAllBombs_reachable.
  - reflexivity.
  - unfold inBounds. simpl. lia.
Defined.

(** ** The state that a reveal returns *)

Section Outcome.

Context {Rng : Type}.
Variable difficulties : gmap string Settings.t.
Variable shuffle : list bool → Rng → list bool * Rng.
Variable countProximities : Board → Proximities.
Variable allDirections : list (Z → Z → Z * Z).

Hypothesis allDirections_neighbourly : neighbourly allDirections.
Hypothesis countProximities_consistent : ∀ rows columns board,
  wellShaped rows columns board →
  consistent rows columns board (countProximities board).
Hypothesis countProximities_wellShaped : ∀ rows columns board,
  wellShaped rows columns board →
  wellShaped rows columns (countProximities board).

Variable props : Props.
Variable settings : Settings.t.
Hypothesis props_settings : settingsFor difficulties props = Some settings.

Local Abbreviation restart := (restart difficulties shuffle countProximities).
Local Abbreviation whileStartsWithBomb :=
  (whileStartsWithBomb difficulties shuffle countProximities).
Local Abbreviation uncoverInNewBoard := (uncoverInNewBoard allDirections).
Local Abbreviation uncoverTile :=
  (uncoverTile difficulties shuffle countProximities allDirections).
Local Abbreviation reachable :=
  (reachable difficulties shuffle countProximities allDirections).
Local Abbreviation playedOn :=
  (playedOn difficulties shuffle countProximities allDirections).

(** While a game that has had a move can be played on, the last move has
    not made [uncoveredCount + bombsCount] equal to [columns * rows]. *)
Lemma reachable_unfinished (game : Game) :
  reachable props game →
  playable game → movesCount game ≠ 0 →
  uncoveredCount game + bombsCount game ≠ columns game * rows game.
Proof.
  induction 1 as [rng game rng' Hinitial
                 |game _ IH
                 |rng game game' rng' _ _ Hrestart
                 |now game game' _ IH Hbegin
                 |fuel r c now rng game game' rng' _ IH Hrun
                 |r c game _ IH].
  - revert Hinitial. unfold initial, restart.
    destruct (settingsFor _ _); [|done].
    destruct (shuffle _ _). by intros [= <- _].
  - done.
  - revert Hrestart. unfold completeRestart, restart.
    destruct (settingsFor _ _); [|done].
    destruct (shuffle _ _). by intros [= <- _].
  - unfold beginUncoverTile in Hbegin.
    destruct (canPlayForGameState (gameState game)) eqn:Hplay; [|done].
    simpl in Hbegin. injection Hbegin as <-. simpl. intros _. by apply IH.
  - revert Hrun. unfold uncoverTile.
    destruct (negb _); [done|].
    destruct (if decide (movesCount game = 0) then _ else _)
      as [[[board1 proximities1] rng1]| |]; [|done..].
    simpl.
    destruct (uncoverInNewBoard fuel _ _ _ _ _ _) as [vars| |]; [|done..].
    simpl. intros [= <- _]. unfold playable. simpl.
    destruct (uncover.gameOver vars); [done|].
    by case_bool_decide.
  - destruct (flagTile_board r c game)
      as (_ & Hstate & -> & -> & _ & -> & -> & ->).
    unfold playable. rewrite Hstate. apply IH.
Qed.

(** A game that is won stays won through every later reveal and flag. *)
Lemma playedOn_winner (game later : Game) :
  gameState game = gameStates.winner →
  playedOn game later →
  gameState later = gameStates.winner.
Proof.
  intros Hwinner.
  induction 1 as [|now game' _ IH
                  |fuel props1 r c now rng game' returned rng' _ IH Hrun
                  |r c game' _ IH].
  - done.
  - unfold beginUncoverTile, canPlayForGameState. by rewrite IH.
  - revert Hrun. unfold uncoverTile, canPlayForGameState. rewrite IH. simpl.
    by intros [= <- _].
  - by destruct (flagTile_board r c game') as (_ & -> & _).
Qed.

(** C6.  When [uncoverTile] returns a game for a game that the handlers
    have produced, the state of the returned game is decided by the game
    and the targeted tile.  It is [gameOver] exactly when the reveal comes
    upon a bomb: the game has had its first move and the targeted tile
    holds a bomb and is not open; the targeted tile is then [hitBomb], and
    a [hitBomb] tile on the returned board is the mark of [gameOver].  It
    is [winner] exactly when the reveal comes upon no bomb and
    [uncoveredCount + bombsCount] is [columns * rows] in the returned game,
    and [playing] exactly when it comes upon no bomb and the two differ.
    A game is won once, on the move that makes the two equal: the game
    before the move was not won and, had it had a move, the two differed
    in it; and in every game that follows the won game through reveals and
    flags, the state is [winner] and a reveal returns nothing.  And
    [uncoverTile] does return a game, for a playable game and a cell of the
    board, where the board is not regenerated and the fuel covers the
    tiles (the first move on a bomb is the matter of
    [whileStartsWithBomb_cases]). *)
Theorem uncoverTile_gameState (fuel : nat) (r c now : Z) (rng : Rng) (game : Game) :
  reachable props game →
  (∀ game' rng',
     uncoverTile fuel props r c now rng game = Ok (Some game', rng') →
     (gameState game' = gameStates.gameOver ↔ hitsBomb game r c)
     ∧ (hitsBomb game r c →
          tileAt (board game') r c
          = Some {| bombState := tileBombStates.bomb;
                    userState := tileUserStates.hitBomb |})
     ∧ (gameState game' = gameStates.gameOver ↔ someHitBomb (board game'))
     ∧ (gameState game' = gameStates.winner ↔
          ¬ hitsBomb game r c
          ∧ uncoveredCount game' + bombsCount game' = columns game' * rows game')
     ∧ (gameState game' = gameStates.playing ↔
          ¬ hitsBomb game r c
          ∧ uncoveredCount game' + bombsCount game' ≠ columns game' * rows game')
     ∧ (gameState game' = gameStates.winner →
          gameState game ≠ gameStates.winner
          ∧ (movesCount game ≠ 0 →
             uncoveredCount game + bombsCount game ≠ columns game * rows game)
          ∧ ∀ later, playedOn game' later →
              gameState later = gameStates.winner
              ∧ ∀ fuel1 props1 r1 c1 now1 rng1,
                  uncoverTile fuel1 props1 r1 c1 now1 rng1 later
                  = Ok (None, rng1)))
  ∧ (playable game →
     inBounds (rows game) (columns game) r c →
     movesCount game ≠ 0 ∨ hasBomb (board game) r c = false →
     (Z.to_nat (rows game) * Z.to_nat (columns game) < fuel)%nat →
     ∃ game', uncoverTile fuel props r c now rng game = Ok (Some game', rng)).
Proof using All.
  intros Hreachable.
  destruct (reachable_invariant difficulties shuffle countProximities
              allDirections countProximities_consistent
              countProximities_wellShaped props settings props_settings
              game Hreachable)
    as (Hrows & Hcolumns & Hwf & _ & Hnone).
  split.
  2:{ intros Hplay Hrc Hkept Hfuel.
      destruct Hwf as (Hshape & Hprox & _).
      rewrite <- Hrows, <- Hcolumns in Hshape, Hprox.
      unfold uncoverTile. unfold playable in Hplay. rewrite Hplay. cbn [negb].
      assert ((if decide (movesCount game = 0)
               then whileStartsWithBomb fuel props r c (board game)
                      (proximities game) rng
               else Ok (board game, proximities game, rng))
              = Ok (board game, proximities game, rng)) as ->.
      { case_decide as Hzero; [|done].
        destruct Hkept as [|Hsafe]; [done|].
        destruct (wellShaped_tileAt _ _ _ r c Hshape Hrc) as [item Hitem].
        apply (hasBomb_false _ _ _ _ Hitem) in Hsafe.
        destruct fuel; simpl; by rewrite Hitem, decide_False. }
      simpl. rewrite copyBoard_id.
      pose proof (closedTiles_le _ _ _ Hshape) as Hclosed.
      destruct (uncoverInNewBoard_total allDirections (proximities game)
                  (rows game) (columns game) Hprox fuel r c
                  {| uncover.newBoard := board game;
                     uncover.gameOver := false;
                     uncover.uncoveredCount := uncoveredCount game;
                     uncover.flagsCount := flagsCount game |})
        as (vars & Hflood & _); [done|done|simpl; lia|].
      rewrite Hflood. simpl. by eexists. }
  intros game' rng' Hrun.
  assert (playable game) as Hplay.
  { unfold playable. revert Hrun. unfold uncoverTile.
    by destruct (canPlayForGameState (gameState game)). }
  specialize (Hnone Hplay).
  assert (gameState game' = gameStates.winner →
          gameState game ≠ gameStates.winner
          ∧ (movesCount game ≠ 0 →
             uncoveredCount game + bombsCount game ≠ columns game * rows game)
          ∧ ∀ later, playedOn game' later →
              gameState later = gameStates.winner
              ∧ ∀ fuel1 props1 r1 c1 now1 rng1,
                  uncoverTile fuel1 props1 r1 c1 now1 rng1 later = Ok (None, rng1))
    as Honce.
  { intros Hwinner. split_and!.
    - intros Hwas. unfold playable in Hplay. by rewrite Hwas in Hplay.
    - by apply reachable_unfinished.
    - intros later Hlater.
      pose proof (playedOn_winner _ _ Hwinner Hlater) as Hstays.
      split; [done|]. intros. unfold uncoverTile. by rewrite Hstays. }
  revert Hrun Honce. unfold uncoverTile at 1.
  unfold playable in Hplay. rewrite Hplay. cbn [negb].
  destruct (tileAt (board game) r c) as [item|] eqn:Hitem.
  2:{ destruct (decide (movesCount game = 0)).
      - destruct fuel; simpl; by rewrite Hitem.
      - simpl. rewrite copyBoard_id. destruct fuel; simpl; [done|].
        by rewrite Hitem. }
  pose proof (tileAt_inBounds _ _ _ _ _ _ (proj1 Hwf) Hitem) as Hrc.
  destruct (if decide (movesCount game = 0) then _ else _)
    as [[[board1 proximities1] rng1]| |] eqn:Hloop; [|done..].
  assert (wellFormed (Settings.rows settings) (Settings.columns settings)
            board1 proximities1
          ∧ ¬ someHitBomb board1
          ∧ (movesCount game = 0 → hasBomb board1 r c = false)
          ∧ (movesCount game ≠ 0 → board1 = board game))
    as ((Hshape1 & Hprox1 & Hcons1) & Hnone1 & Hfirst & Hlater).
  { destruct (decide (movesCount game = 0)) as [Hzero|Hmoved].
    - pose proof (whileStartsWithBomb_cases difficulties shuffle countProximities
                    countProximities_consistent countProximities_wellShaped
                    props settings props_settings r c Hrc fuel
                    (board game) (proximities game) rng Hwf) as Hcases.
      rewrite Hloop in Hcases.
      destruct Hcases as (Hwf1 & Hsafe & Hboard & _).
      split_and!; [done| |done|done].
      destruct Hboard as [->|Hcovered]; [done|].
      by apply allCovered_no_hitBomb.
    - injection Hloop as <- <- _. done. }
  simpl.
  destruct (uncoverInNewBoard fuel _ _ _ _ _ _) as [vars| |] eqn:Hflood;
    [|done..].
  rewrite copyBoard_id, Hrows, Hcolumns in Hflood.
  assert ((uncover.gameOver vars = true ↔ hitsBomb game r c)
          ∧ (hitsBomb game r c →
             tileAt (uncover.newBoard vars) r c
             = Some {| bombState := tileBombStates.bomb;
                       userState := tileUserStates.hitBomb |}))
    as [Hhit Htile].
  { assert (hasBomb board1 r c = false → uncover.gameOver vars = false) as Hsafe.
    { intros Hsafe. pose proof Hflood as Hblank.
      by apply (uncoverInNewBoard_blank allDirections proximities1 _ _
                  allDirections_neighbourly) in Hblank as (? & _). }
    destruct (decide (movesCount game = 0)) as [Hzero|Hmoved].
    { rewrite (Hsafe (Hfirst Hzero)). unfold hitsBomb.
      split; [split; [done|tauto]|tauto]. }
    specialize (Hlater Hmoved). subst board1.
    destruct (decide (bombState item = tileBombStates.bomb)) as [Hbomb|Hblank].
    - destruct fuel; simpl in Hflood; [done|]. rewrite Hitem in Hflood.
      destruct (get proximities1 r); [|done].
      destruct (decide (userState item = tileUserStates.open)) as [Hopen|Hclosed].
      + injection Hflood as <-. simpl. unfold hitsBomb. rewrite Hitem.
        split; [split; [done|]|]; intros (_ & ? & [= <-] & _ & ?); done.
      + rewrite (changeItemToUncovered_bomb _ Hbomb) in Hflood. simpl in Hflood.
        injection Hflood as <-. simpl. split.
        * split; [intros _|done]. split; [done|]. by exists item.
        * intros _. rewrite (changeItemToUncovered_bomb _ Hbomb).
          by eapply tileAt_setTile_eq.
    - rewrite (Hsafe (proj2 (hasBomb_false _ _ _ _ Hitem) Hblank)).
      unfold hitsBomb. rewrite Hitem.
      split; [split; [done|]|]; intros (_ & ? & [= <-] & ? & _); done. }
  rewrite <- Hrows, <- Hcolumns in Hflood.
  apply uncoverInNewBoard_someHitBomb in Hflood.
  2:{ simpl. split; [done|]. by intros ?%Hnone1. }
  simpl. intros [= <- _] Honce. simpl in *.
  split_and!; [| | | | |done].
  - rewrite <- Hhit. by destruct (uncover.gameOver vars); [|case_bool_decide].
  - done.
  - rewrite <- Hflood. by destruct (uncover.gameOver vars); [|case_bool_decide].
  - rewrite <- Hhit. clear Honce.
    destruct (uncover.gameOver vars); [|case_bool_decide]; intuition congruence.
  - rewrite <- Hhit. clear Honce.
    destruct (uncover.gameOver vars); [|case_bool_decide]; intuition congruence.
Qed.

End Outcome.


Lemma example2x2_second_reachable :
  reachable ∅ rotations calculations.countProximities calculations.allDirections
    example2x2_props example2x2_second.
Proof.
  apply (reachable_uncoverTile _ _ _ _ _ 5 0 1 0 1%nat example2x2_moved _ 1%nat);
    [|vm_compute; reflexivity].
  exact example2x2_moved_reachable.
Qed.

Lemma uncoverTile_gameState_witness :
  ((gameState example2x2_lost = gameStates.gameOver
    ↔ hitsBomb example2x2_moved 0 0)
   ∧ tileAt (board example2x2_lost) 0 0
     = Some {| bombState := tileBombStates.bomb;
               userState := tileUserStates.hitBomb |})
  ∧ ((gameState example2x2_won = gameStates.winner ↔
        ¬ hitsBomb example2x2_second 1 0
        ∧ uncoveredCount example2x2_won + bombsCount example2x2_won
          = columns example2x2_won * rows example2x2_won)
     ∧ uncoveredCount example2x2_second + bombsCount example2x2_second
       ≠ columns example2x2_second * rows example2x2_second
     ∧ ∀ later,
         playedOn ∅ rotations calculations.countProximities
           calculations.allDirections example2x2_won later →
         gameState later = gameStates.winner
         ∧ ∀ fuel1 props1 r1 c1 now1 rng1,
             uncoverTile ∅ rotations calculations.countProximities
               calculations.allDirections fuel1 props1 r1 c1 now1 rng1 later
             = Ok (None, rng1)).
Proof.
  pose proof (uncoverTile_gameState ∅ rotations calculations.countProximities
                calculations.allDirections calculations_neighbourly
                (λ rows columns board _, calculations_consistent rows columns board)
                calculations_wellShaped example2x2_props
                {| Settings.columns := 2; Settings.rows := 2;
                   Settings.bombOdds := QArith_base.Qmake 1 4 |}
                eq_refl 5) as Hstate.
  split.
  - destruct (Hstate 0 0 0 1%nat example2x2_moved example2x2_moved_reachable)
      as [Hreturned _].
    destruct (Hreturned example2x2_lost 1%nat)
      as (Hover & Htile & _); [vm_compute; reflexivity|].
    split; [exact Hover|]. apply Htile.
    split; [done|]. eexists. by split_and!.
  - destruct (Hstate 1 0 0 1%nat example2x2_second example2x2_second_reachable)
      as [Hreturned _].
    destruct (Hreturned example2x2_won 1%nat)
      as (_ & _ & _ & Hwinner & _ & Honce); [vm_compute; reflexivity|].
    destruct (Honce eq_refl) as (_ & Hbefore & Hafter).
    split_and!; [exact Hwinner| |exact Hafter].
    by apply Hbefore.
Defined.
